(** * Governor: a shallow embedding of the configuration validator and of
      the state-machine engine

    The development follows the Python sources:
    - [cfgmanager.py] (class [ConfigManager]): module [ConfigManager];
    - [components.py] (classes [Target], [State], [Device], [Motor],
      [Valve], [Governor]): module [Engine].
    Module [Examples] holds sample configurations; the modules after it
    hold the proofs.

    Modelling conventions.
    - A Python [dict] is insertion ordered, so dictionaries are association
      lists ([dict V]) with the update-in-place-or-append behaviour of
      [d[k] = v]; a Python [set] is a [gset string].
    - A number, of the YAML file or of a process variable, is a rational
      ([Q]), whether Python holds it as an [int] or as a [float].  Numbers
      are compared, and on finite floats the comparisons agree with those
      of [Q]; the one place where numbers are added is the band of a
      target ([_value_changed]), which is computed exactly: the rounding
      of a float sum at the edge of a band is outside the model.  Where a
      number indexes a list ([Valve.TGTS]), a number with an integral
      value is an [int].
    - A YAML mapping with optional keys is a record of [option] fields;
      [k in cfg] is [is_some] of the field and [cfg[k]] raises [KeyError k]
      on [None].
    - Exceptions are values: a computation returns [Ok a] or [Raise e].
    - The engine runs a transition in one thread while its supervisor
      thread and the callbacks of the control-system layer run in others.
      The transition thread is modelled as a computation that gives way to
      the others at explicit points ([yield]); what the others do there is
      a schedule carried by the state.
    - Outside the model: the control-system layer itself (a device call is
      recorded, not executed), the clock, failures of the file system, and
      what the loggers of the devices write. *)

From Stdlib Require Import QArith String List Bool.
From stdpp Require Import gmap strings list.
Import ListNotations.
Open Scope string_scope.

(** ** Python values, exceptions and results *)

(** A position value or a live device value: a number, or a string (the
    result of [positions.get(name, name)] when [name] is not a declared
    position). *)
Inductive Value :=
| VNum (q : Q)
| VStr (s : string).

Inductive Exn :=
| KeyError (key : string)
| IndexError
| ValueError (msg : string)
| TypeError
| AttributeError.

Inductive Result (A : Type) :=
| Ok (a : A)
| Raise (e : Exn).
Arguments Ok {A} a.
Arguments Raise {A} e.

Definition is_raise {A} (r : Result A) : bool :=
  match r with Raise _ => true | Ok _ => false end.

(** ** Insertion-ordered dictionaries *)

Module Dict.

Definition t (V : Type) := list (string * V).

(** [d.get(k)] *)
Fixpoint get {V} (k : string) (d : t V) : option V :=
  match d with
  | [] => None
  | (k', v) :: r => if String.eqb k k' then Some v else get k r
  end.

(** [k in d] *)
Definition mem {V} (k : string) (d : t V) : bool :=
  match get k d with Some _ => true | None => false end.

(** [d[k] = v]: replaces the value of an existing key in place, appends a
    new key at the end. *)
Fixpoint set {V} (k : string) (v : V) (d : t V) : t V :=
  match d with
  | [] => [(k, v)]
  | (k', v') :: r =>
      if String.eqb k k' then (k', v) :: r else (k', v') :: set k v r
  end.

(** [d.keys()] *)
Definition keys {V} (d : t V) : list string := map fst d.

End Dict.

Abbreviation dict := Dict.t.

(** Python's [sep.join(l)] *)
Definition join (sep : string) (l : list string) : string :=
  String.concat sep l.

(** ** The raw configuration (the object loaded from the YAML file) *)

(** One element of a transition sequence: a device name, or a list of
    device names moved as one step. *)
Inductive SeqItem :=
| Single (device : string)
| Parallel (devices : list string).

(** [states[S]['targets'][D]] *)
Record TargetCfg := {
  tc_target : option string;
  tc_limits : option (list Q);
  tc_updateAfter : option bool
}.

(** [states[S]] *)
Record StateCfg := {
  sc_name : option string;
  sc_targets : option (dict TargetCfg)
}.

(** [devices[D]] *)
Record DeviceCfg := {
  dc_type : option string;
  dc_name : option string;
  dc_timeout : option Q;
  dc_pv : option string;
  dc_tolerance : option Q;
  dc_positions : option (dict Value)
}.

(** The root mapping of the file. *)
Record RawConfig := {
  rc_name : option string;
  rc_init_state : option string;
  rc_devices : option (dict DeviceCfg);
  rc_states : option (dict StateCfg);
  rc_transitions : option (dict (dict (list SeqItem)))
}.

Definition is_some {A} (o : option A) : bool :=
  match o with Some _ => true | None => false end.

(** [key in cfg] for each kind of mapping. *)
Definition root_has (c : RawConfig) (key : string) : bool :=
  if String.eqb key "name" then is_some (rc_name c)
  else if String.eqb key "init_state" then is_some (rc_init_state c)
  else if String.eqb key "devices" then is_some (rc_devices c)
  else if String.eqb key "states" then is_some (rc_states c)
  else if String.eqb key "transitions" then is_some (rc_transitions c)
  else false.

Definition device_has (d : DeviceCfg) (key : string) : bool :=
  if String.eqb key "type" then is_some (dc_type d)
  else if String.eqb key "name" then is_some (dc_name d)
  else if String.eqb key "timeout" then is_some (dc_timeout d)
  else if String.eqb key "pv" then is_some (dc_pv d)
  else if String.eqb key "tolerance" then is_some (dc_tolerance d)
  else if String.eqb key "positions" then is_some (dc_positions d)
  else false.

Definition target_has (t : TargetCfg) (key : string) : bool :=
  if String.eqb key "target" then is_some (tc_target t)
  else if String.eqb key "limits" then is_some (tc_limits t)
  else if String.eqb key "updateAfter" then is_some (tc_updateAfter t)
  else false.

(** ** The device classes and their registry *)

Inductive DevType := Device | Motor | Valve.

(** [device_types_registry]: filled by the metaclass with one entry per
    class, keyed by the class name. *)
Definition device_types_registry (type_name : string) : option DevType :=
  if String.eqb type_name "Device" then Some Device
  else if String.eqb type_name "Motor" then Some Motor
  else if String.eqb type_name "Valve" then Some Valve
  else None.

Definition REQUIRED_FIELDS (ty : DevType) : list string :=
  match ty with
  | Device => ["name"; "timeout"]
  | Motor => app ["name"; "timeout"] ["pv"; "tolerance"; "positions"]
  | Valve => app ["name"; "timeout"] ["pv"]
  end.

(** ** Loops *)

(** [for x in l: body], threading the variables the body assigns. *)
Fixpoint for_each {m : Type -> Type} `{!MBind m, !MRet m} {A B}
    (l : list A) (acc : B) (body : A -> B -> m B) : m B :=
  match l with
  | [] => mret acc
  | x :: r => acc' ← body x acc; for_each r acc' body
  end.

(** * ConfigManager (cfgmanager.py) *)

Module ConfigManager.

(** What [self._logger.error] is called with. *)
Inductive CfgError :=
| MissingMandatory (param where_ : string)
| BadDeviceType (name : string)
| UnknownStateDevice (state device : string)
| InvalidTarget (state device target : string)
| LimitsInverted (state device target : string) (lower upper : Q)
| InvalidOrigin (origin : string)
| InvalidDestination (destination : string)
| SelfTransition (origin : string)
| SequenceUnknownDevice (origin destination device : string)
| SequenceDeviceNotInDestination (origin destination device : string)
| InvalidInitState (state : string).

(** A validation step: its result, or the exception it raised, and the
    errors it logged. *)
Definition W (A : Type) : Type := Result A * list CfgError.

#[export] Instance W_ret : MRet W := fun A a => (Ok a, []).

#[export] Instance W_bind : MBind W := fun A B k m =>
  match m with
  | (Ok a, l) => let '(r, l') := k a in (r, app l l')
  | (Raise e, l) => (Raise e, l)
  end.

Definition raise {A} (e : Exn) : W A := (Raise e, []).

Definition error (e : CfgError) : W unit := (Ok tt, [e]).

(** [cfg[key]] *)
Definition item {A} (key : string) (o : option A) : W A :=
  match o with
  | Some a => mret a
  | None => raise (KeyError key)
  end.

(** [tuple[i]] *)
Definition index {A} (l : list A) (i : nat) : W A :=
  match nth_error l i with
  | Some a => mret a
  | None => raise IndexError
  end.

Definition _check_mandatory (mandatory_params : list string)
    (has : string -> bool) (where_ : string) : W bool :=
  for_each mandatory_params true (fun param ok =>
    if negb (has param)
    then error (MissingMandatory param where_);; mret false
    else mret ok).

Definition _check_root_mandatory (cfg : RawConfig) : W bool :=
  _check_mandatory ["init_state"; "devices"; "states"] (root_has cfg) "root".

Definition _check_type (name : string) (device : DeviceCfg) : W bool :=
  ty ← item "type" (dc_type device);
  if negb (is_some (device_types_registry ty))
  then error (BadDeviceType name);; mret false
  else mret true.

Definition _check_devices (cfg : RawConfig) : W bool :=
  devices ← item "devices" (rc_devices cfg);
  for_each devices true (fun '(name, device) ok =>
    let fmt_name := "device[" ++ name ++ "]" in
    has_type ← _check_mandatory ["type"] (device_has device) fmt_name;
    if negb has_type then mret false
    else
      type_ok ← _check_type name device;
      let ok := if negb type_ok then false else ok in
      ty ← item "type" (dc_type device);
      cls ← item ty (device_types_registry ty);
      fields_ok ← _check_mandatory (REQUIRED_FIELDS cls)
                    (device_has device) fmt_name;
      mret (if negb fields_ok then false else ok)).

Definition _check_states (cfg : RawConfig) : W bool :=
  states ← item "states" (rc_states cfg);
  for_each states true (fun '(name, state) ok =>
    for_each (default [] (sc_targets state)) ok
      (fun '(device_name, device_target) ok =>
        devices ← item "devices" (rc_devices cfg);
        if negb (Dict.mem device_name devices)
        then error (UnknownStateDevice name device_name);; mret false
        else
          let where_ :=
            "state[" ++ name ++ "] device[" ++ device_name ++ "]" in
          mandatory ← _check_mandatory ["target"; "limits"]
                        (target_has device_target) where_;
          '(ok, target_name) ←
            (if negb mandatory then mret (false, "")
             else t ← item "target" (tc_target device_target);
                  mret (ok, t));
          devices ← item "devices" (rc_devices cfg);
          dcfg ← item device_name (Dict.get device_name devices);
          match dc_positions dcfg with
          | Some positions =>
              if negb (Dict.mem target_name positions)
              then t ← item "target" (tc_target device_target);
                   error (InvalidTarget name device_name t);;
                   mret false
              else mret ok
          | None => mret ok
          end)).

Definition _check_limits (cfg : RawConfig) : W bool :=
  states ← item "states" (rc_states cfg);
  for_each states true (fun '(state_name, state) ok =>
    match sc_targets state with
    | None => mret ok
    | Some targets =>
        for_each targets ok (fun '(device, device_target) ok =>
          target_name ← item "target" (tc_target device_target);
          limits ← item "limits" (tc_limits device_target);
          lower ← index limits 0;
          upper ← index limits 1;
          if negb (Qle_bool lower upper)
          then error (LimitsInverted state_name device target_name
                        lower upper);;
               mret false
          else mret ok)
    end).

(** The [set] of the devices a sequence names.  (Python leaves the order
    in which a set is iterated unspecified; the loops below take the
    order of [elements].) *)
Definition sequence_devices (sequence : list SeqItem) : gset string :=
  fold_left (fun acc device_name =>
               match device_name with
               | Single d => acc ∪ {[ d ]}
               | Parallel ds => acc ∪ list_to_set ds
               end) sequence ∅.

Definition _check_transitions (cfg : RawConfig) : W bool :=
  transitions ← item "transitions" (rc_transitions cfg);
  for_each transitions true (fun '(origin, transition) ok =>
    states ← item "states" (rc_states cfg);
    ok ← (if negb (Dict.mem origin states)
          then error (InvalidOrigin origin);; mret false
          else mret ok);
    for_each transition ok (fun '(destination, sequence) ok =>
      states ← item "states" (rc_states cfg);
      ok ← (if negb (Dict.mem destination states)
            then error (InvalidDestination destination);; mret false
            else mret ok);
      ok ← (if String.eqb origin destination
            then error (SelfTransition origin);; mret false
            else mret ok);
      let devs := elements (sequence_devices sequence) in
      ok ← for_each devs ok (fun device_name ok =>
             devices ← item "devices" (rc_devices cfg);
             if negb (Dict.mem device_name devices)
             then error (SequenceUnknownDevice origin destination
                           device_name);;
                  mret false
             else mret ok);
      states ← item "states" (rc_states cfg);
      destination_state ← item destination (Dict.get destination states);
      for_each devs ok (fun device_name ok =>
        targets ← item "targets" (sc_targets destination_state);
        if negb (Dict.mem device_name targets)
        then error (SequenceDeviceNotInDestination origin destination
                      device_name);;
             mret false
        else mret ok))).

Definition _check_init_state (cfg : RawConfig) : W bool :=
  init ← item "init_state" (rc_init_state cfg);
  states ← item "states" (rc_states cfg);
  if negb (Dict.mem init states)
  then error (InvalidInitState init);; mret false
  else mret true.

(** The list [checks] of [check_config], in its order.  A step is given
    by its outcome on the configuration; a step the loop does not reach
    contributes neither a result nor a log. *)
Definition checks (cfg : RawConfig) : list (W bool) :=
  [_check_root_mandatory cfg; _check_init_state cfg; _check_devices cfg;
   _check_states cfg; _check_limits cfg; _check_transitions cfg].

(** [for check in checks: if not check(): return False] then
    [return True]. *)
Fixpoint run_checks (cs : list (W bool)) : W bool :=
  match cs with
  | [] => mret true
  | check :: rest =>
      ok ← check;
      if negb ok then mret false else run_checks rest
  end.

Definition check_config (cfg : RawConfig) : W bool :=
  run_checks (checks cfg).

End ConfigManager.

(** * The engine (components.py) *)

Module Engine.

(** ** Data *)

Inductive Status :=
| STATUS_IDLE
| STATUS_BUSY
| STATUS_DISABLED
| STATUS_FAULT.

Inductive Limit := LIMIT_LOW | LIMIT_HIGH.

Inductive Event :=
| DISCONNECT_EVENT
| ALARM_EVENT
| LIMITS_VIOLATED_EVENT
| TIMEOUT_EVENT
| ABORT_EVENT.

Definition Status_eqb (a b : Status) : bool :=
  match a, b with
  | STATUS_IDLE, STATUS_IDLE | STATUS_BUSY, STATUS_BUSY
  | STATUS_DISABLED, STATUS_DISABLED | STATUS_FAULT, STATUS_FAULT => true
  | _, _ => false
  end.

(** A [Target] object.  [State.__init__] builds one per entry of the
    state's ['targets'] mapping and the object keeps a reference to that
    entry of the raw configuration: it is identified by the path
    (state, device) of the entry, and its properties read the shared
    configuration through that path. *)
Record Target := {
  t_state : string;
  t_device : string
}.

(** A device object: its class, the attributes the classes declare
    ([_target], [_homed], [Valve._current_setpoint]) and what its process
    variables report: the connection state and the value of [_val], and
    for a motor [DMOV] and the readback [_rbv].
    Its [_config] is the entry of the raw configuration under its name. *)
Record DeviceObj := {
  d_class : DevType;
  d_target : option Target;
  d_homed : bool;
  d_current_setpoint : option Value;
  d_connected : bool;
  d_value : option Value;
  d_dmov : bool;
  d_rbv : option Value
}.

Definition with_d_target (v : option Target) (x : DeviceObj) : DeviceObj :=
  Build_DeviceObj (d_class x) v (d_homed x) (d_current_setpoint x)
    (d_connected x) (d_value x) (d_dmov x) (d_rbv x).

Definition with_d_homed (v : bool) (x : DeviceObj) : DeviceObj :=
  Build_DeviceObj (d_class x) (d_target x) v (d_current_setpoint x)
    (d_connected x) (d_value x) (d_dmov x) (d_rbv x).

Definition with_d_current_setpoint (v : option Value) (x : DeviceObj)
    : DeviceObj :=
  Build_DeviceObj (d_class x) (d_target x) (d_homed x) v
    (d_connected x) (d_value x) (d_dmov x) (d_rbv x).

Definition with_d_connected (v : bool) (x : DeviceObj) : DeviceObj :=
  Build_DeviceObj (d_class x) (d_target x) (d_homed x) (d_current_setpoint x)
    v (d_value x) (d_dmov x) (d_rbv x).

Definition with_d_value (v : option Value) (x : DeviceObj) : DeviceObj :=
  Build_DeviceObj (d_class x) (d_target x) (d_homed x) (d_current_setpoint x)
    (d_connected x) v (d_dmov x) (d_rbv x).

Definition with_d_dmov (v : bool) (x : DeviceObj) : DeviceObj :=
  Build_DeviceObj (d_class x) (d_target x) (d_homed x) (d_current_setpoint x)
    (d_connected x) (d_value x) v (d_rbv x).

Definition with_d_rbv (v : option Value) (x : DeviceObj) : DeviceObj :=
  Build_DeviceObj (d_class x) (d_target x) (d_homed x) (d_current_setpoint x)
    (d_connected x) (d_value x) (d_dmov x) v.

(** A method call received by a device. *)
Inductive DevCall :=
| CallMove (device : string) (target : Target)
| CallWait (device : string)
| CallStop (device : string).

(** What the engine logs. *)
Inductive LogMsg :=
| LogDisabled (origin dest : string)
| LogCantTransition (origin dest : string)
| LogTransition (origin_fullname dest_fullname : string)
| LogLimitExceeds (state device : string) (lower upper : Q)
| LogSetPosition (device position : string) (value : Value)
| LogWontSetNone (device position : string)
| LogException (e : Exn).

(** The arguments of one [observer.update] call. *)
Record Snapshot := {
  snap_name : string;
  snap_states : dict (bool * bool * dict (list Q));
  snap_transitions : list (string * string * (bool * bool));
  snap_devices : dict (dict Value)
}.

(** What happens outside the thread that runs a transition: the process
    variables of a device change and the control-system layer runs the
    callbacks registered on them ([EnvConnection], [EnvStatus],
    [EnvValue] for [_val], [EnvReadback] for the [_rbv] of a motor,
    [EnvDone]), [device_event] is called, by [abort] for one
    ([EnvEvent]), the engine's own supervisor thread [Governor._worker]
    makes an iteration ([EnvWorker]), and the driver makes a call on
    behalf of its clients ([EnvSetEnabled], [EnvSetLimit],
    [EnvSetPosition]).  Another [do_transition] is excluded by the lock. *)
Inductive EnvAction :=
| EnvConnection (device : string) (conn : bool)
| EnvStatus (device : string) (msta : Z)
| EnvValue (device : string) (value : option Value)
| EnvReadback (device : string) (value : option Value)
| EnvDone (device : string) (dmov : bool)
| EnvEvent (event : Event) (device : option string)
| EnvWorker
| EnvSetEnabled (enabled : bool)
| EnvSetLimit (state device : string) (limit : Limit) (value : Q)
| EnvSetPosition (device position : string) (value : option Value).

(** The governor object together with what it acts on: the configuration
    it shares with its states, targets and devices ([config]), the
    successive contents written to the backing file ([disk]), the
    snapshots its observer received ([published]), the calls its devices
    received ([calls]), its log, and the pending activity of the other
    threads ([sched], one batch per point where the transition thread can
    be preempted). *)
Record Governor := {
  name : string;
  status : Status;
  disconnected_devices : list string;
  alarmed_devices : list string;
  not_homed_devices : list string;
  current_state : string;
  next_state : string;
  init_state : string;
  devices : dict DeviceObj;
  transitions : dict (dict (list SeqItem));
  config : RawConfig;
  queue : list (Event * option string);
  abort_transition : bool;
  observer : bool;
  disk : list RawConfig;
  published : list Snapshot;
  calls : list DevCall;
  log : list LogMsg;
  sched : list (list EnvAction)
}.

Definition with_status (v : Status) (x : Governor) : Governor :=
  Build_Governor (name x) v (disconnected_devices x) (alarmed_devices x)
    (not_homed_devices x) (current_state x) (next_state x) (init_state x)
    (devices x) (transitions x) (config x) (queue x) (abort_transition x)
    (observer x) (disk x) (published x) (calls x) (log x) (sched x).

Definition with_disconnected_devices (v : list string) (x : Governor)
  : Governor :=
  Build_Governor (name x) (status x) v (alarmed_devices x)
    (not_homed_devices x) (current_state x) (next_state x) (init_state x)
    (devices x) (transitions x) (config x) (queue x) (abort_transition x)
    (observer x) (disk x) (published x) (calls x) (log x) (sched x).

Definition with_alarmed_devices (v : list string) (x : Governor) : Governor :=
  Build_Governor (name x) (status x) (disconnected_devices x) v
    (not_homed_devices x) (current_state x) (next_state x) (init_state x)
    (devices x) (transitions x) (config x) (queue x) (abort_transition x)
    (observer x) (disk x) (published x) (calls x) (log x) (sched x).

Definition with_not_homed_devices (v : list string) (x : Governor) : Governor :=
  Build_Governor (name x) (status x) (disconnected_devices x)
    (alarmed_devices x) v (current_state x) (next_state x) (init_state x)
    (devices x) (transitions x) (config x) (queue x) (abort_transition x)
    (observer x) (disk x) (published x) (calls x) (log x) (sched x).

Definition with_current_state (v : string) (x : Governor) : Governor :=
  Build_Governor (name x) (status x) (disconnected_devices x)
    (alarmed_devices x) (not_homed_devices x) v (next_state x)
    (init_state x) (devices x) (transitions x) (config x) (queue x)
    (abort_transition x) (observer x) (disk x) (published x) (calls x)
    (log x) (sched x).

Definition with_next_state (v : string) (x : Governor) : Governor :=
  Build_Governor (name x) (status x) (disconnected_devices x)
    (alarmed_devices x) (not_homed_devices x) (current_state x) v
    (init_state x) (devices x) (transitions x) (config x) (queue x)
    (abort_transition x) (observer x) (disk x) (published x) (calls x)
    (log x) (sched x).

Definition with_devices (v : dict DeviceObj) (x : Governor) : Governor :=
  Build_Governor (name x) (status x) (disconnected_devices x)
    (alarmed_devices x) (not_homed_devices x) (current_state x)
    (next_state x) (init_state x) v (transitions x) (config x) (queue x)
    (abort_transition x) (observer x) (disk x) (published x) (calls x)
    (log x) (sched x).

Definition with_config (v : RawConfig) (x : Governor) : Governor :=
  Build_Governor (name x) (status x) (disconnected_devices x)
    (alarmed_devices x) (not_homed_devices x) (current_state x)
    (next_state x) (init_state x) (devices x) (transitions x) v (queue x)
    (abort_transition x) (observer x) (disk x) (published x) (calls x)
    (log x) (sched x).

Definition with_queue (v : list (Event * option string)) (x : Governor)
  : Governor :=
  Build_Governor (name x) (status x) (disconnected_devices x)
    (alarmed_devices x) (not_homed_devices x) (current_state x)
    (next_state x) (init_state x) (devices x) (transitions x) (config x) v
    (abort_transition x) (observer x) (disk x) (published x) (calls x)
    (log x) (sched x).

Definition with_abort_transition (v : bool) (x : Governor) : Governor :=
  Build_Governor (name x) (status x) (disconnected_devices x)
    (alarmed_devices x) (not_homed_devices x) (current_state x)
    (next_state x) (init_state x) (devices x) (transitions x) (config x)
    (queue x) v (observer x) (disk x) (published x) (calls x) (log x)
    (sched x).

Definition with_observer (v : bool) (x : Governor) : Governor :=
  Build_Governor (name x) (status x) (disconnected_devices x)
    (alarmed_devices x) (not_homed_devices x) (current_state x)
    (next_state x) (init_state x) (devices x) (transitions x) (config x)
    (queue x) (abort_transition x) v (disk x) (published x) (calls x)
    (log x) (sched x).

Definition with_disk (v : list RawConfig) (x : Governor) : Governor :=
  Build_Governor (name x) (status x) (disconnected_devices x)
    (alarmed_devices x) (not_homed_devices x) (current_state x)
    (next_state x) (init_state x) (devices x) (transitions x) (config x)
    (queue x) (abort_transition x) (observer x) v (published x) (calls x)
    (log x) (sched x).

Definition with_published (v : list Snapshot) (x : Governor) : Governor :=
  Build_Governor (name x) (status x) (disconnected_devices x)
    (alarmed_devices x) (not_homed_devices x) (current_state x)
    (next_state x) (init_state x) (devices x) (transitions x) (config x)
    (queue x) (abort_transition x) (observer x) (disk x) v (calls x) (log x)
    (sched x).

Definition with_calls (v : list DevCall) (x : Governor) : Governor :=
  Build_Governor (name x) (status x) (disconnected_devices x)
    (alarmed_devices x) (not_homed_devices x) (current_state x)
    (next_state x) (init_state x) (devices x) (transitions x) (config x)
    (queue x) (abort_transition x) (observer x) (disk x) (published x) v
    (log x) (sched x).

Definition with_log (v : list LogMsg) (x : Governor) : Governor :=
  Build_Governor (name x) (status x) (disconnected_devices x)
    (alarmed_devices x) (not_homed_devices x) (current_state x)
    (next_state x) (init_state x) (devices x) (transitions x) (config x)
    (queue x) (abort_transition x) (observer x) (disk x) (published x)
    (calls x) v (sched x).

Definition with_sched (v : list (list EnvAction)) (x : Governor) : Governor :=
  Build_Governor (name x) (status x) (disconnected_devices x)
    (alarmed_devices x) (not_homed_devices x) (current_state x)
    (next_state x) (init_state x) (devices x) (transitions x) (config x)
    (queue x) (abort_transition x) (observer x) (disk x) (published x)
    (calls x) (log x) v.

(** ** Computations of the engine *)

(** A method of the governor: it returns or raises, and changes the
    governor (what it changed before raising stays changed). *)
Definition M (A : Type) : Type := Governor -> Result A * Governor.

#[export] Instance M_ret : MRet M := fun A a g => (Ok a, g).

#[export] Instance M_bind : MBind M := fun A B k m g =>
  match m g with
  | (Ok a, g') => k a g'
  | (Raise e, g') => (Raise e, g')
  end.

Definition raise {A} (e : Exn) : M A := fun g => (Raise e, g).

Definition gets {A} (f : Governor -> A) : M A := fun g => (Ok (f g), g).

Definition modify (f : Governor -> Governor) : M unit :=
  fun g => (Ok tt, f g).

(** [d[key]] *)
Definition item {A} (key : string) (o : option A) : M A :=
  match o with
  | Some a => mret a
  | None => raise (KeyError key)
  end.

(** [tuple[i]] *)
Definition index {A} (l : list A) (i : nat) : M A :=
  match nth_error l i with
  | Some a => mret a
  | None => raise IndexError
  end.

(** [try: body] / [except Exception as e: handler] *)
Definition try_except {A} (body : M A) (handler : Exn -> M A) : M A :=
  fun g =>
    match body g with
    | (Ok a, g') => (Ok a, g')
    | (Raise e, g') => handler e g'
    end.

Definition logmsg (m : LogMsg) : M unit :=
  modify (fun g => with_log (app (log g) [m]) g).

(** [ConfigManager.commit]: the configuration is written to the file.
    (A failing file system is outside the model.) *)
Definition commit : M unit :=
  modify (fun g => with_disk (app (disk g) [config g]) g).

(** *** The shared configuration, read and written through the objects
        that alias it *)

(** [self._states]: one [State] per entry of [config['states']]. *)
Definition states (g : Governor) : dict StateCfg :=
  default [] (rc_states (config g)).

(** [self._states[state]] *)
Definition state (s : string) : M StateCfg :=
  sts ← gets states; item s (Dict.get s sts).

(** [State.fullname] *)
Definition fullname (s : string) : M string :=
  st ← state s; mret (default s (sc_name st)).

(** [self._states[state].targets]: device name -> [Target] object. *)
Definition targets (s : string) : M (dict Target) :=
  st ← state s;
  mret (map (fun '(d, _) => (d, {| t_state := s; t_device := d |}))
          (default [] (sc_targets st))).

(** [Target._config]: the entry of the raw configuration. *)
Definition target_config (t : Target) : M TargetCfg :=
  st ← state (t_state t);
  item (t_device t) (Dict.get (t_device t) (default [] (sc_targets st))).

Definition get_target (t : Target) : M string :=
  c ← target_config t; item "target" (tc_target c).

Definition get_limits (t : Target) : M (list Q) :=
  c ← target_config t; item "limits" (tc_limits c).

Definition get_update_after (t : Target) : M bool :=
  c ← target_config t; mret (default false (tc_updateAfter c)).

(** [config['states'][s]['targets'][d]['limits'] = l] *)
Definition cfg_set_limits (s d : string) (l : list Q) (cfg : RawConfig)
    : RawConfig :=
  match rc_states cfg with
  | None => cfg
  | Some sts =>
      match Dict.get s sts with
      | None => cfg
      | Some st =>
          match sc_targets st with
          | None => cfg
          | Some tgs =>
              match Dict.get d tgs with
              | None => cfg
              | Some tc =>
                  let tc' := {| tc_target := tc_target tc;
                                tc_limits := Some l;
                                tc_updateAfter := tc_updateAfter tc |} in
                  let st' := {| sc_name := sc_name st;
                                sc_targets := Some (Dict.set d tc' tgs) |} in
                  {| rc_name := rc_name cfg;
                     rc_init_state := rc_init_state cfg;
                     rc_devices := rc_devices cfg;
                     rc_states := Some (Dict.set s st' sts);
                     rc_transitions := rc_transitions cfg |}
              end
          end
      end
  end.

Definition set_limits (t : Target) (new_limits : list Q) : M unit :=
  _ ← target_config t;
  modify (fun g =>
    with_config (cfg_set_limits (t_state t) (t_device t) new_limits
                   (config g)) g).

(** [Device._config]: the entry of the raw configuration. *)
Definition device_config (dev : string) : M DeviceCfg :=
  cfg ← gets config;
  item dev (Dict.get dev (default [] (rc_devices cfg))).

(** [config['devices'][dev]['positions'][position] = value], for a device
    whose entry has the key ['positions']. *)
Definition cfg_set_position (dev position : string) (value : Value)
    (cfg : RawConfig) : RawConfig :=
  match rc_devices cfg with
  | None => cfg
  | Some ds =>
      match Dict.get dev ds with
      | None => cfg
      | Some dc =>
          match dc_positions dc with
          | None => cfg
          | Some ps =>
              let dc' := {| dc_type := dc_type dc; dc_name := dc_name dc;
                            dc_timeout := dc_timeout dc; dc_pv := dc_pv dc;
                            dc_tolerance := dc_tolerance dc;
                            dc_positions :=
                              Some (Dict.set position value ps) |} in
              {| rc_name := rc_name cfg;
                 rc_init_state := rc_init_state cfg;
                 rc_devices := Some (Dict.set dev dc' ds);
                 rc_states := rc_states cfg;
                 rc_transitions := rc_transitions cfg |}
          end
      end
  end.

(** *** Devices *)

(** [self._devices[dev]] *)
Definition device (dev : string) : M DeviceObj :=
  ds ← gets devices; item dev (Dict.get dev ds).

Definition update_device (dev : string) (f : DeviceObj -> DeviceObj)
    : M unit :=
  d ← device dev;
  modify (fun g => with_devices (Dict.set dev (f d) (devices g)) g).

Definition TGT_OPEN : string := "Open".
Definition TGT_CLOSED : string := "Closed".

(** The property [positions]: [Device] and [Motor] return the mapping of
    the configuration, or a new empty one when the configuration has none;
    [Valve] returns a new mapping on every read. *)
Definition positions (dev : string) : M (dict Value) :=
  d ← device dev;
  match d_class d with
  | Valve => mret [(TGT_OPEN, VNum 1); (TGT_CLOSED, VNum 0)]
  | _ => c ← device_config dev; mret (default [] (dc_positions c))
  end.

(** [positions.get(target.target, target.target)] *)
Definition position_of (dev : string) (t : Target) : M Value :=
  ps ← positions dev;
  tn ← get_target t;
  mret (default (VStr tn) (Dict.get tn ps)).

Definition target_pos (dev : string) : M (option Value) :=
  d ← device dev;
  match d_target d with
  | None => mret None
  | Some t => v ← position_of dev t; mret (Some v)
  end.

(** The property [val]: the target position for a [Device], the value of
    the process variable for a [Motor] or a [Valve]. *)
Definition val (dev : string) : M (option Value) :=
  d ← device dev;
  match d_class d with
  | Device => target_pos dev
  | _ => mret (d_value d)
  end.

Definition connected (d : DeviceObj) : bool :=
  match d_class d with
  | Device => true
  | _ => d_connected d
  end.

Definition alarmed (d : DeviceObj) : bool := false.

Definition homed (d : DeviceObj) : bool :=
  match d_class d with
  | Motor => d_homed d
  | _ => true
  end.

Definition Value_eqb (a b : option Value) : bool :=
  match a, b with
  | None, None => true
  | Some (VNum x), Some (VNum y) => Qeq_bool x y
  | Some (VStr x), Some (VStr y) => String.eqb x y
  | _, _ => false
  end.

Definition done (d : DeviceObj) : bool :=
  match d_class d with
  | Device => true
  | Motor => d_dmov d
  | Valve => Value_eqb (d_value d) (d_current_setpoint d)
  end.

(** [Governor.device_event] *)
Definition device_event (event : Event) (dev : option string) : M unit :=
  modify (fun g => with_queue (app (queue g) [(event, dev)]) g).

(** The property [limits]: the limits of the current target. *)
Definition limits (dev : string) : M (list Q) :=
  d ← device dev;
  match d_target d with
  | Some t => get_limits t
  | None => raise AttributeError
  end.

(** The property [tolerance] of a motor. *)
Definition tolerance (dev : string) : M Q :=
  c ← device_config dev; item "tolerance" (dc_tolerance c).

(** The left operand of [target_pos + limit]: [None] and a position that
    is a string cannot be added to a number. *)
Definition number (v : option Value) : M Q :=
  match v with
  | Some (VNum q) => mret q
  | _ => raise TypeError
  end.

(** [value < lower or value > upper]: [None] and a string cannot be
    compared with a number. *)
Definition out_of_band (value : option Value) (lower upper : Q) : M bool :=
  match value with
  | Some (VNum v) =>
      if negb (Qle_bool lower v) then mret true
      else mret (negb (Qle_bool v upper))
  | _ => raise TypeError
  end.

(** [Valve.TGTS] and [self.TGTS[i]]: Python counts a negative index from
    the end of the list; a number that is not integral, or a string, is
    not an index. *)
Definition TGTS : list string := [TGT_CLOSED; TGT_OPEN].

Definition tgts (i : option Value) : M string :=
  match i with
  | Some (VNum q) =>
      let q := Qred q in
      if Pos.eqb (Qden q) 1
      then
        let z := Qnum q in
        let z := if Z.ltb z 0 then (z + 2)%Z else z in
        if Z.ltb z 0 then raise IndexError else index TGTS (Z.to_nat z)
      else raise TypeError
  | _ => raise TypeError
  end.

(** [Motor._value_changed] and [Valve._value_changed]: the check of a
    value against the band of the current target, which puts a
    [LIMITS_VIOLATED_EVENT] on the queue when the value is outside.  A
    [Device] has no such method.  The arguments of the warning of the
    valve are evaluated before the event is put. *)
Definition _value_changed (dev : string) (value : option Value) : M unit :=
  d ← device dev;
  match d_class d with
  | Device => mret tt
  | Motor =>
      tp ← target_pos dev;
      if is_some tp then
        tp ← target_pos dev;
        l ← limits dev;
        l0 ← index l 0;
        p ← number tp;
        tol ← tolerance dev;
        let lower := (p + l0 - tol)%Q in
        tp ← target_pos dev;
        l ← limits dev;
        l1 ← index l 1;
        p ← number tp;
        tol ← tolerance dev;
        let upper := (p + l1 + tol)%Q in
        out ← out_of_band value lower upper;
        if (out : bool)
        then device_event LIMITS_VIOLATED_EVENT (Some dev)
        else mret tt
      else mret tt
  | Valve =>
      tp ← target_pos dev;
      if is_some tp then
        tp ← target_pos dev;
        l ← limits dev;
        l0 ← index l 0;
        p ← number tp;
        let lower := (p + l0)%Q in
        tp ← target_pos dev;
        l ← limits dev;
        l1 ← index l 1;
        p ← number tp;
        let upper := (p + l1)%Q in
        out ← out_of_band value lower upper;
        if (out : bool)
        then
          _ ← tgts value;
          tp ← target_pos dev;
          _ ← tgts tp;
          device_event LIMITS_VIOLATED_EVENT (Some dev)
        else mret tt
      else mret tt
  end.

(** The setter of the property [target].  The setter of a [Motor] or of a
    [Valve] goes on, for a target other than [None], to check the live
    value (the readback of the motor, the value of the valve) against the
    band of the new target. *)
Definition set_target (dev : string) (t : option Target) : M unit :=
  update_device dev (with_d_target t);;
  match t with
  | None => mret tt
  | Some _ =>
      d ← device dev;
      match d_class d with
      | Device => mret tt
      | Motor => _value_changed dev (d_rbv d)
      | Valve => _value_changed dev (d_value d)
      end
  end.

Definition record_call (c : DevCall) : M unit :=
  modify (fun g => with_calls (app (calls g) [c]) g).

(** [device.move(target)] (with [wait=False]) *)
Definition move (dev : string) (target : Target) : M unit :=
  record_call (CallMove dev target);;
  set_target dev None;;
  target_pos ← position_of dev target;
  d ← device dev;
  match d_class d with
  | Valve =>
      tn ← get_target target;
      if String.eqb tn TGT_OPEN || String.eqb tn TGT_CLOSED
      then update_device dev (with_d_current_setpoint (Some target_pos))
      else raise (ValueError ("Invalid target " ++ tn))
  | _ => mret tt
  end.

(** [device.stop()] *)
Definition stop (dev : string) : M unit :=
  record_call (CallStop dev).

(** *** State, status and the observer *)

Definition idle (g : Governor) : bool := Status_eqb (status g) STATUS_IDLE.
Definition busy (g : Governor) : bool := Status_eqb (status g) STATUS_BUSY.
Definition fault (g : Governor) : bool := Status_eqb (status g) STATUS_FAULT.
Definition enabled (g : Governor) : bool :=
  negb (Status_eqb (status g) STATUS_DISABLED).

Definition contains (s : string) (l : list string) : bool :=
  existsb (String.eqb s) l.

(** [reachable_states(origin)]; [None] stands for the default argument. *)
Definition reachable_states (origin : option string) : M (list string) :=
  cur ← gets current_state;
  let origin := default cur origin in
  trs ← gets transitions;
  from_origin ← item origin (Dict.get origin trs);
  mret (origin :: Dict.keys from_origin).

Definition _notify_observer : M unit :=
  obs ← gets observer;
  if negb obs then mret tt
  else
    sts ← gets states;
    state_view ← for_each sts [] (fun '(state_name, _) acc =>
      cur ← gets current_state;
      reach ← reachable_states None;
      en ← gets enabled;
      idl ← gets idle;
      tgs ← targets state_name;
      limits ← for_each tgs [] (fun '(dev_name, target) acc =>
                 l ← get_limits target; mret (app acc [(dev_name, l)]));
      mret (app acc [(state_name,
                      (String.eqb state_name cur,
                       contains state_name reach && en && idl,
                       limits))]));
    trs ← gets transitions;
    transition_view ← for_each trs [] (fun '(origin, dests) acc =>
      for_each (Dict.keys dests) acc (fun dest acc =>
        cur ← gets current_state;
        nxt ← gets next_state;
        reachable ←
          (if String.eqb origin cur
           then reach ← reachable_states None;
                en ← gets enabled;
                idl ← gets idle;
                mret (contains dest reach && en && idl)
           else mret false);
        mret (app acc [(origin, dest,
                        (String.eqb origin cur && String.eqb dest nxt,
                         reachable))])));
    ds ← gets devices;
    device_view ← for_each (Dict.keys ds) [] (fun dev_name acc =>
                    ps ← positions dev_name; mret (app acc [(dev_name, ps)]));
    nm ← gets name;
    modify (fun g =>
      with_published
        (app (published g)
           [{| snap_name := nm; snap_states := state_view;
               snap_transitions := transition_view;
               snap_devices := device_view |}]) g).

Definition set_state (s : string) (force : bool) : M unit :=
  cur ← gets current_state;
  (if negb (String.eqb cur s) || force
   then
     modify (with_current_state s);;
     modify (with_next_state s);;
     init ← gets init_state;
     if String.eqb s init
     then ds ← gets devices;
          for_each (Dict.keys ds) tt (fun dev _ => set_target dev None)
     else mret tt
   else mret tt);;
  _notify_observer.

Definition is_nonempty {A} (l : list A) : bool :=
  match l with [] => false | _ => true end.

Definition check_fault_state : M unit :=
  ds ← gets devices;
  modify (with_disconnected_devices
            (map fst (List.filter (fun '(_, d) => negb (connected d)) ds)));;
  modify (with_alarmed_devices
            (map fst (List.filter (fun '(_, d) => alarmed d) ds)));;
  modify (with_not_homed_devices
            (map fst (List.filter (fun '(_, d) => negb (homed d)) ds)));;
  en ← gets enabled;
  if (en : bool) then
    dl ← gets disconnected_devices;
    al ← gets alarmed_devices;
    nl ← gets not_homed_devices;
    if is_nonempty dl || is_nonempty al || is_nonempty nl
    then modify (with_status STATUS_FAULT);;
         init ← gets init_state;
         set_state init false
    else
      f ← gets fault;
      if (f : bool)
      then modify (with_status STATUS_IDLE);;
           init ← gets init_state;
           set_state init false
      else mret tt
  else mret tt.

(** [event in (DISCONNECT_EVENT, ALARM_EVENT, LIMITS_VIOLATED_EVENT,
    TIMEOUT_EVENT, ABORT_EVENT)] *)
Definition is_abort_event (e : Event) : bool :=
  match e with
  | DISCONNECT_EVENT | ALARM_EVENT | LIMITS_VIOLATED_EVENT
  | TIMEOUT_EVENT | ABORT_EVENT => true
  end.

Definition Event_eqb (a b : Event) : bool :=
  match a, b with
  | DISCONNECT_EVENT, DISCONNECT_EVENT | ALARM_EVENT, ALARM_EVENT
  | LIMITS_VIOLATED_EVENT, LIMITS_VIOLATED_EVENT
  | TIMEOUT_EVENT, TIMEOUT_EVENT | ABORT_EVENT, ABORT_EVENT => true
  | _, _ => false
  end.

(** One iteration of the loop of [_worker]: [queue.get(timeout=0.5)]
    returns the oldest message, or the queue stays empty and the fault
    state is checked. *)
Definition _worker_iteration : M unit :=
  q ← gets queue;
  match q with
  | [] => check_fault_state
  | (event, _) :: rest =>
      modify (with_queue rest);;
      if is_abort_event event
      then
        modify (with_abort_transition true);;
        init ← gets init_state;
        set_state init true;;
        (if Event_eqb event ABORT_EVENT
         then ds ← gets devices;
              for_each (Dict.keys ds) tt (fun dev _ => stop dev)
         else mret tt);;
        check_fault_state
      else mret tt
  end.

(** [Governor.abort] *)
Definition abort : M unit := device_event ABORT_EVENT None.

Definition set_enabled (en : bool) : M bool :=
  cur ← gets enabled;
  if Bool.eqb cur en then mret false
  else
    b ← gets busy;
    if (b : bool) then mret false
    else
      modify (with_status (if en then STATUS_IDLE else STATUS_DISABLED));;
      init ← gets init_state;
      set_state init false;;
      _notify_observer;;
      mret true.

(** *** Editing limits and positions *)

Definition set_state_device_limit (s dev : string) (limit : Limit)
    (value : Q) : M bool :=
  tgs ← targets s;
  t ← item dev (Dict.get dev tgs);
  old_limits ← get_limits t;
  new_limits ←
    match limit with
    | LIMIT_LOW => hi ← index old_limits 1; mret (value, hi)
    | LIMIT_HIGH => lo ← index old_limits 0; mret (lo, value)
    end;
  if negb (Qle_bool (fst new_limits) (snd new_limits))
  then logmsg (LogLimitExceeds s dev (fst new_limits) (snd new_limits));;
       mret false
  else
    set_limits t [fst new_limits; snd new_limits];;
    commit;;
    mret true.

Definition set_device_position (dev position : string)
    (value : option Value) : M bool :=
  match value with
  | Some v =>
      logmsg (LogSetPosition dev position v);;
      d ← device dev;
      match d_class d with
      | Valve => mret tt
      | _ =>
          modify (fun g =>
            with_config (cfg_set_position dev position v (config g)) g)
      end;;
      commit
  | None => logmsg (LogWontSetNone dev position)
  end;;
  mret true.

(** *** The other threads *)

(** The effect of one action of the environment.  The callbacks are those
    a [Motor] or a [Valve] registers on its process variables; a [Device]
    has none.  An exception raised in another thread does not reach the
    transition thread. *)
Definition env_step (a : EnvAction) (g : Governor) : Governor :=
  match a with
  | EnvConnection dev conn =>
      match Dict.get dev (devices g) with
      | Some d =>
          match d_class d with
          | Device => g
          | _ =>
              let g := with_devices
                         (Dict.set dev (with_d_connected conn d) (devices g))
                         g in
              if negb conn
              then snd (device_event DISCONNECT_EVENT (Some dev) g)
              else g
          end
      | None => g
      end
  | EnvStatus dev msta =>
      match Dict.get dev (devices g) with
      | Some d =>
          match d_class d with
          | Motor =>
              let h := negb (Z.eqb (Z.land msta 16384) 0) in
              with_devices (Dict.set dev (with_d_homed h d) (devices g)) g
          | _ => g
          end
      | None => g
      end
  | EnvValue dev v =>
      match Dict.get dev (devices g) with
      | Some d =>
          let g' :=
            with_devices (Dict.set dev (with_d_value v d) (devices g)) g in
          match d_class d with
          | Device => g
          | Motor => g'
          | Valve => snd (_value_changed dev v g')
          end
      | None => g
      end
  | EnvReadback dev v =>
      match Dict.get dev (devices g) with
      | Some d =>
          match d_class d with
          | Motor =>
              snd (_value_changed dev v
                     (with_devices
                        (Dict.set dev (with_d_rbv v d) (devices g)) g))
          | _ => g
          end
      | None => g
      end
  | EnvDone dev b =>
      match Dict.get dev (devices g) with
      | Some d =>
          match d_class d with
          | Motor =>
              with_devices (Dict.set dev (with_d_dmov b d) (devices g)) g
          | _ => g
          end
      | None => g
      end
  | EnvEvent event dev => snd (device_event event dev g)
  | EnvWorker => snd (_worker_iteration g)
  | EnvSetEnabled en => snd (set_enabled en g)
  | EnvSetLimit s dev limit value =>
      snd (set_state_device_limit s dev limit value g)
  | EnvSetPosition dev position value =>
      snd (set_device_position dev position value g)
  end.

Definition run_env (batch : list EnvAction) (g : Governor) : Governor :=
  fold_left (fun g a => env_step a g) batch g.

(** A point where the transition thread can be preempted: the next batch
    of the schedule happens. *)
Definition yield : M unit :=
  fun g =>
    match sched g with
    | [] => (Ok tt, g)
    | batch :: rest => (Ok tt, run_env batch (with_sched rest g))
    end.

(** [device.wait()]: a [Device] returns at once; a [Motor] or a [Valve]
    blocks until it is done or until its timeout elapses (with the motor
    at rest), in which case it puts a [TIMEOUT_EVENT] on the queue.  What
    the hardware and the other threads do while it blocks is the next
    batch of the schedule: the device is done after it, or the wait has
    timed out.  (A wait that never returns, on a motor that never comes to
    rest, is outside the model.) *)
Definition wait (dev : string) : M bool :=
  record_call (CallWait dev);;
  d ← device dev;
  let timed_out : M bool :=
    device_event TIMEOUT_EVENT None;; mret false in
  let timeout : M Q :=
    c ← device_config dev; item "timeout" (dc_timeout c) in
  match d_class d with
  | Device => mret true
  | Motor =>
      yield;;
      d ← device dev;
      if done d then mret true else _ ← timeout; timed_out
  | Valve =>
      _ ← timeout;
      yield;;
      d ← device dev;
      if done d then mret true else timed_out
  end.

(** *** Transitions *)

(** Which [return] of [_do_transition] was taken. *)
Inductive Exit :=
| ExitDisabled
| ExitUnreachable
| ExitSameState
| ExitFault
| ExitEnd.

(** [devices = [(self._devices[item], targets[item])]], or the list
    comprehension over the names of a parallel step. *)
Definition step_devices (tgs : dict Target) (it : SeqItem)
    : M (list (string * Target)) :=
  let one i := (_ ← device i; t ← item i (Dict.get i tgs); mret (i, t)) in
  match it with
  | Single i => p ← one i; mret [p]
  | Parallel l =>
      for_each l [] (fun i acc => p ← one i; mret (app acc [p]))
  end.

(** The first inner loop of a step. *)
Definition move_devices (devs : list (string * Target))
    (moved_devices : gset string) : M (gset string) :=
  for_each devs moved_devices (fun '(dev, target) moved_devices =>
    let moved_devices := moved_devices ∪ {[ dev ]} in
    yield;;
    a ← gets abort_transition;
    (if negb a then move dev target else mret tt);;
    mret moved_devices).

(** The second inner loop of a step. *)
Definition wait_devices (devs : list (string * Target)) : M unit :=
  for_each devs tt (fun '(dev, target) _ =>
    yield;;
    a ← gets abort_transition;
    (if negb a then _ ← wait dev; mret tt else mret tt);;
    yield;;
    a ← gets abort_transition;
    if negb a then set_target dev (Some target) else mret tt).

(** [for item in device_sequence: ...].  The result tells whether the
    loop was left by [return], and gives [moved_devices]. *)
Fixpoint run_sequence (tgs : dict Target) (device_sequence : list SeqItem)
    (moved_devices : gset string) : M (bool * gset string) :=
  match device_sequence with
  | [] => mret (false, moved_devices)
  | it :: rest =>
      f ← gets fault;
      if (f : bool) then mret (true, moved_devices)
      else
        devs ← step_devices tgs it;
        moved_devices ← move_devices devs moved_devices;
        wait_devices devs;;
        yield;;
        run_sequence tgs rest moved_devices
  end.

Definition _do_transition (dest : string) : M Exit :=
  origin ← gets current_state;
  yield;;
  en ← gets enabled;
  if negb en then logmsg (LogDisabled origin dest);; mret ExitDisabled
  else
    yield;;
    reach ← reachable_states None;
    if negb (contains dest reach)
    then logmsg (LogCantTransition origin dest);; mret ExitUnreachable
    else
      origin_fullname ← fullname origin;
      dest_fullname ← fullname dest;
      logmsg (LogTransition origin_fullname dest_fullname);;
      modify (with_next_state dest);;
      if String.eqb origin dest then mret ExitSameState
      else
        origin_targets ← targets origin;
        for_each origin_targets tt (fun '(dev, target) _ =>
          update_after ← get_update_after target;
          if (update_after : bool)
          then tn ← get_target target;
               v ← val dev;
               _ ← set_device_position dev tn v;
               mret tt
          else mret tt);;
        trs ← gets transitions;
        from_origin ← item origin (Dict.get origin trs);
        device_sequence ← item dest (Dict.get dest from_origin);
        tgs ← targets dest;
        _notify_observer;;
        ds ← gets devices;
        let all_devices : gset string := list_to_set (Dict.keys ds) in
        yield;;
        '(returned, moved_devices) ← run_sequence tgs device_sequence ∅;
        if (returned : bool) then mret ExitFault
        else
          yield;;
          f ← gets fault;
          a ← gets abort_transition;
          (if negb f && negb a then set_state dest false else mret tt);;
          let unmoved_devices := all_devices ∖ moved_devices in
          for_each (elements unmoved_devices) tt (fun dev _ =>
            set_target dev None);;
          mret ExitEnd.

Definition do_transition (dest : string) : M unit :=
  modify (with_status STATUS_BUSY);;
  _notify_observer;;
  modify (with_abort_transition false);;
  yield;;
  try_except (_ ← _do_transition dest; mret tt)
             (fun e => logmsg (LogException e));;
  yield;;
  s ← gets status;
  (if Status_eqb s STATUS_BUSY
   then modify (with_status STATUS_IDLE) else mret tt);;
  modify (with_abort_transition false);;
  _notify_observer.

(** *** The status message *)

Definition status_message (g : Governor) : string :=
  if fault g then
    let disconn := ("disconn", disconnected_devices g) in
    let alarmed := ("alarm", alarmed_devices g) in
    let not_homed := ("!homed", not_homed_devices g) in
    let err :=
      fold_left (fun err '(name, device_list) =>
                   if is_nonempty device_list
                   then app err [name ++ "(" ++ join "," device_list ++ ")"]
                   else err)
                [disconn; alarmed; not_homed] [] in
    join " " err
  else if String.eqb (next_state g) (current_state g)
  then "state " ++ current_state g
  else "transition " ++ current_state g ++ " to " ++ next_state g.

(** *** Construction *)

#[export] Instance Result_ret : MRet Result := fun A a => Ok a.

#[export] Instance Result_bind : MBind Result := fun A B k m =>
  match m with
  | Ok a => k a
  | Raise e => Raise e
  end.

Definition lookup {A} (key : string) (o : option A) : Result A :=
  match o with
  | Some a => Ok a
  | None => Raise (KeyError key)
  end.

(** What the process variables of a device report when it is created. *)
Record Hardware := {
  hw_connected : bool;
  hw_value : option Value;
  hw_dmov : bool;
  hw_rbv : option Value
}.

(** [device_types_registry[device['type']](name, device, self)]: the
    constructors of [Motor] and [Valve] read [pvname]; the one of [Valve]
    also reads its value. *)
Definition new_device (hw : Hardware) (device : DeviceCfg)
    : Result DeviceObj :=
  ty ← lookup "type" (dc_type device);
  cls ← lookup ty (device_types_registry ty);
  let obj setpoint :=
    {| d_class := cls; d_target := None; d_homed := false;
       d_current_setpoint := setpoint; d_connected := hw_connected hw;
       d_value := hw_value hw; d_dmov := hw_dmov hw;
       d_rbv := hw_rbv hw |} in
  match cls with
  | Device => mret (obj None)
  | Motor => _ ← lookup "pv" (dc_pv device); mret (obj None)
  | Valve => _ ← lookup "pv" (dc_pv device); mret (obj (hw_value hw))
  end.

(** The loop of [_parse_config] that reads the transition sequences.  The
    dictionary of an origin is created, stored, and then filled in place:
    [from_origin] is that dictionary once filled. *)
Definition parse_transitions (init : string)
    (trs : dict (dict (list SeqItem))) : dict (dict (list SeqItem)) :=
  fold_left (fun acc '(origin, transition) =>
      let empty : dict (list SeqItem) :=
        if negb (String.eqb origin init) then Dict.set init [] [] else [] in
      let from_origin :=
        fold_left (fun d '(destination, sequence) =>
                     Dict.set destination sequence d) transition empty in
      Dict.set origin from_origin acc)
    trs [].

Definition _parse_config (hw : string -> Hardware) (cfg : RawConfig)
    : Result (dict DeviceObj * string * dict (dict (list SeqItem))) :=
  device_cfgs ← lookup "devices" (rc_devices cfg);
  devs ← for_each device_cfgs [] (fun '(name, device) acc =>
           d ← new_device (hw name) device; mret (Dict.set name d acc));
  _ ← lookup "states" (rc_states cfg);
  init ← lookup "init_state" (rc_init_state cfg);
  trs ← lookup "transitions" (rc_transitions cfg);
  mret (devs, init, parse_transitions init trs).

(** [Governor(name, config)].  The call [set_state(self._init_state)] of
    the constructor finds no current state, no observer and no device
    target: it makes the initial state current. *)
Definition __init__ (hw : string -> Hardware) (nm : string)
    (cfg : RawConfig) : Result Governor :=
  '(devs, init, trs) ← _parse_config hw cfg;
  mret {| name := nm; status := STATUS_IDLE;
          disconnected_devices := []; alarmed_devices := [];
          not_homed_devices := [];
          current_state := init; next_state := init; init_state := init;
          devices := devs; transitions := trs; config := cfg;
          queue := []; abort_transition := false; observer := false;
          disk := []; published := []; calls := []; log := [];
          sched := [] |}.

(** The setter of [observer], called by the driver. *)
Definition set_observer : M unit :=
  modify (with_observer true);;
  _notify_observer.

End Engine.

(** * Sample configurations *)

Module Examples.
Import ConfigManager Engine.

Definition device_cfg (type_name : string) (pv : option string)
    (positions : option (dict Value)) : DeviceCfg :=
  {| dc_type := Some type_name; dc_name := Some "device";
     dc_timeout := Some 5%Q; dc_pv := pv; dc_tolerance := Some 0.5%Q;
     dc_positions := positions |}.

Definition target_cfg (position : string) (lower upper : Q) : TargetCfg :=
  {| tc_target := Some position; tc_limits := Some [lower; upper];
     tc_updateAfter := None |}.

Definition in_out : option (dict Value) :=
  Some [("In", VNum 12.5%Q); ("Out", VNum 0%Q)].

(** A plant with two dummy devices and three states.  [Off] is the
    initial state; [On] targets both devices but is reached by moving only
    [a]; [Mid] is declared but is the origin of no transition. *)
Definition plant : RawConfig :=
  {| rc_name := Some "plant";
     rc_init_state := Some "Off";
     rc_devices := Some [("a", device_cfg "Device" None in_out);
                         ("b", device_cfg "Device" None in_out)];
     rc_states :=
       Some [("Off", {| sc_name := None;
                        sc_targets := Some [("a", target_cfg "Out" (-1) 1)] |});
             ("On", {| sc_name := Some "Switched on";
                       sc_targets := Some [("a", target_cfg "In" (-1) 1);
                                           ("b", target_cfg "Out" (-1) 1)] |});
             ("Mid", {| sc_name := None; sc_targets := None |})];
     rc_transitions :=
       Some [("Off", [("On", [Single "a"])]);
             ("On", [("Off", [Single "a"]); ("Mid", [])])] |}.

(** The same plant with two faults: the initial state is not declared,
    and the limits of [a] in [On] are inverted. *)
Definition plant_two_errors : RawConfig :=
  {| rc_name := Some "plant";
     rc_init_state := Some "Standby";
     rc_devices := rc_devices plant;
     rc_states :=
       Some [("Off", {| sc_name := None; sc_targets := None |});
             ("On", {| sc_name := None;
                       sc_targets := Some [("a", target_cfg "In" 1 (-1))] |})];
     rc_transitions := Some [("Off", [("On", [Single "a"])])] |}.

(** The plant without the key ['transitions']. *)
Definition plant_no_transitions : RawConfig :=
  {| rc_name := rc_name plant; rc_init_state := rc_init_state plant;
     rc_devices := rc_devices plant; rc_states := rc_states plant;
     rc_transitions := None |}.

(** The plant with a transition to a state that is not declared. *)
Definition plant_bad_destination : RawConfig :=
  {| rc_name := rc_name plant; rc_init_state := rc_init_state plant;
     rc_devices := rc_devices plant; rc_states := rc_states plant;
     rc_transitions := Some [("Off", [("On", [Single "a"]);
                                      ("Park", [])])] |}.

(** A plant with a valve whose configuration declares positions of its
    own, and a motor. *)
Definition valve_plant : RawConfig :=
  {| rc_name := Some "valves";
     rc_init_state := Some "Off";
     rc_devices :=
       Some [("valve", device_cfg "Valve" (Some "XF:Vlv")
                         (Some [("Open", VNum 5%Q)]));
             ("motor", device_cfg "Motor" (Some "XF:Mtr") in_out)];
     rc_states :=
       Some [("Off", {| sc_name := None; sc_targets := None |});
             ("On", {| sc_name := None;
                       sc_targets :=
                         Some [("valve", target_cfg "Open" 0 0);
                               ("motor", target_cfg "In" (-1) 1)] |})];
     rc_transitions :=
       Some [("Off", [("On", [Single "valve"; Parallel ["motor"]])]);
             ("On", [])] |}.

Definition hardware (_ : string) : Hardware :=
  {| hw_connected := true; hw_value := Some (VNum 0%Q); hw_dmov := true;
     hw_rbv := Some (VNum 0%Q) |}.

(** The governor of a configuration, or an empty one should its
    construction raise. *)
Definition governor_of (cfg : RawConfig) : Governor :=
  match __init__ hardware "gov" cfg with
  | Ok g => g
  | Raise _ =>
      {| name := "gov"; status := STATUS_IDLE; disconnected_devices := [];
         alarmed_devices := []; not_homed_devices := [];
         current_state := ""; next_state := ""; init_state := "";
         devices := []; transitions := []; config := cfg; queue := [];
         abort_transition := false; observer := false; disk := [];
         published := []; calls := []; log := []; sched := [] |}
  end.

Definition plant_governor : Governor := governor_of plant.

(** The targets and the sequence of the transition of [valve_plant] from
    [Off] to [On]. *)
Definition on_targets : dict Target :=
  [("valve", {| t_state := "On"; t_device := "valve" |});
   ("motor", {| t_state := "On"; t_device := "motor" |})].

Definition on_sequence : list SeqItem :=
  [Single "valve"; Parallel ["motor"]].

Definition valve_governor : Governor := governor_of valve_plant.

(** The valve plant in the middle of a transition to [On], with the abort
    flag set, while the supervisor thread and the hardware stay active. *)
Definition aborted_governor : Governor :=
  with_sched [[EnvWorker]; [EnvConnection "motor" false; EnvWorker];
              [EnvSetLimit "On" "motor" LIMIT_HIGH 2];
              [EnvEvent ABORT_EVENT None; EnvWorker; EnvWorker]]
    (with_abort_transition true
       (with_status STATUS_BUSY valve_governor)).

(** The plant whose device [b] names a class that is not registered. *)
Definition plant_unknown_type : RawConfig :=
  {| rc_name := rc_name plant; rc_init_state := rc_init_state plant;
     rc_devices := Some [("a", device_cfg "Device" None in_out);
                         ("b", device_cfg "Pump" None in_out)];
     rc_states := rc_states plant;
     rc_transitions := rc_transitions plant |}.

(** The plant once it has reached [Mid], the origin of no transition,
    with an observer registered. *)
Definition stranded_governor : Governor :=
  with_observer true
    (with_next_state "Mid" (with_current_state "Mid" plant_governor)).

(** The valve plant with a request to abort on its queue. *)
Definition abort_requested_governor : Governor :=
  with_queue [(ABORT_EVENT, None)] valve_governor.

(** The valve plant as [do_transition] hands it to [_do_transition], with
    the hardware and the supervisor thread at work during the transition:
    the motor reports that it is homed; the valve reports that it is open
    while the engine waits for it; the motor starts, passes 6, arrives at
    12.5 and comes to rest while the engine waits for it.  There is one
    batch per point where the transition thread gives way. *)
Definition live_governor : Governor :=
  with_sched
    [[EnvStatus "motor" 16384; EnvWorker]; [EnvWorker]; [];
     []; [EnvWorker]; [EnvValue "valve" (Some (VNum 1)); EnvWorker]; [];
     [EnvWorker];
     [EnvWorker]; [EnvDone "motor" false];
     [EnvReadback "motor" (Some (VNum 6)); EnvWorker;
      EnvReadback "motor" (Some (VNum 12.5)); EnvDone "motor" true];
     [EnvWorker];
     []; [EnvWorker]]
    (with_status STATUS_BUSY valve_governor).

End Examples.

(** * Facts about dictionaries *)

Module DictFacts.

Lemma get_set_eq {V} k (v : V) d : Dict.get k (Dict.set k v d) = Some v.
Proof.
  induction d as [|[k' v'] r IH]; simpl.
  - now rewrite String.eqb_refl.
  - destruct (String.eqb k k') eqn:E; simpl; rewrite E; auto.
Qed.

Lemma get_set_ne {V} k k' (v : V) d :
  k <> k' -> Dict.get k' (Dict.set k v d) = Dict.get k' d.
Proof.
  intros Hne. induction d as [|[k0 v0] r IH]; simpl.
  - destruct (String.eqb k' k) eqn:E; auto.
    apply String.eqb_eq in E. congruence.
  - destruct (String.eqb k k0) eqn:E; simpl.
    + apply String.eqb_eq in E. subst k0.
      destruct (String.eqb k' k) eqn:E'; auto.
      apply String.eqb_eq in E'. congruence.
    + now rewrite IH.
Qed.

Lemma get_in {V} k (v : V) d : Dict.get k d = Some v -> In (k, v) d.
Proof.
  induction d as [|[k' v'] r IH]; simpl; [discriminate|].
  destruct (String.eqb k k') eqn:E; auto.
  apply String.eqb_eq in E. intros [= ->]. subst. auto.
Qed.

Lemma in_get {V} k (v : V) d :
  In (k, v) d -> exists v', Dict.get k d = Some v'.
Proof.
  induction d as [|[k' v'] r IH]; simpl; [tauto|].
  intros [H|H].
  - inversion H; subst. rewrite String.eqb_refl. eauto.
  - destruct (String.eqb k k'); eauto.
Qed.

Lemma get_keys {V} k (v : V) d : Dict.get k d = Some v -> In k (Dict.keys d).
Proof.
  intros H. apply get_in in H. unfold Dict.keys.
  apply in_map_iff. exists (k, v). auto.
Qed.

Lemma keys_get {V} k (d : dict V) :
  In k (Dict.keys d) -> exists v, Dict.get k d = Some v.
Proof.
  unfold Dict.keys. intros H. apply in_map_iff in H.
  destruct H as [[k' v] [E H]]. simpl in E. subst k'.
  eapply in_get; eauto.
Qed.

Lemma mem_false {V} k (d : dict V) :
  Dict.mem k d = false <-> Dict.get k d = None.
Proof.
  unfold Dict.mem. destruct (Dict.get k d); split; congruence.
Qed.

Lemma keys_set_present {V} k (v v' : V) d :
  Dict.get k d = Some v' -> Dict.keys (Dict.set k v d) = Dict.keys d.
Proof.
  unfold Dict.keys. induction d as [|[k0 v0] r IH]; simpl.
  - discriminate.
  - destruct (String.eqb k k0) eqn:E; simpl; auto.
    intros H. now rewrite IH.
Qed.

Lemma keys_set_in {V} k j (v : V) d :
  In j (Dict.keys (Dict.set k v d)) <-> j = k \/ In j (Dict.keys d).
Proof.
  unfold Dict.keys. induction d as [|[k0 v0] r IH]; simpl.
  - intuition.
  - destruct (String.eqb k k0) eqn:E; simpl.
    + apply String.eqb_eq in E. subst. intuition.
    + rewrite IH. intuition.
Qed.

End DictFacts.

(** * Facts about the validator *)

Module ConfigFacts.
Import ConfigManager.

(** A step raises. *)
Definition raises {A} (m : W A) : Prop := is_raise (fst m) = true.

(** A step raises nothing but [KeyError]. *)
Definition key_errors_only {A} (m : W A) : Prop :=
  forall e, fst m = Raise e -> exists k, e = KeyError k.

Lemma raises_bind_l {A B} (m : W A) (k : A -> W B) :
  raises m -> raises (m ≫= k).
Proof.
  unfold raises. destruct m as [[a|e] l]; simpl; [discriminate|auto].
Qed.

Lemma raises_bind_r {A B} (m : W A) (k : A -> W B) :
  (forall a, raises (k a)) -> raises (m ≫= k).
Proof.
  unfold raises. intros H. destruct m as [[a|e] l]; simpl; auto.
  specialize (H a). destruct (k a) as [r l']. exact H.
Qed.

Lemma raises_for_each {A B} (l : list A) (body : A -> B -> W B) x acc :
  In x l -> (forall acc, raises (body x acc)) -> raises (for_each l acc body).
Proof.
  revert acc. induction l as [|y r IH]; intros acc Hin Hx; [destruct Hin|].
  simpl. destruct Hin as [->|Hin].
  - apply raises_bind_l, Hx.
  - apply raises_bind_r. intros a. now apply IH.
Qed.

Lemma keo_ret {A} (a : A) : key_errors_only (mret a : W A).
Proof. intros e H. discriminate. Qed.

Lemma keo_error e : key_errors_only (error e).
Proof. intros e' H. discriminate. Qed.

Lemma keo_item {A} key (o : option A) : key_errors_only (item key o).
Proof.
  intros e. destruct o; simpl; [discriminate|].
  intros [= <-]. eauto.
Qed.

Lemma keo_bind {A B} (m : W A) (k : A -> W B) :
  key_errors_only m -> (forall a, key_errors_only (k a)) ->
  key_errors_only (m ≫= k).
Proof.
  intros Hm Hk e. destruct m as [[a|e'] l]; simpl.
  - specialize (Hk a e). destruct (k a) as [r l']. exact Hk.
  - intros [= <-]. now apply Hm.
Qed.

Lemma keo_for_each {A B} (l : list A) (body : A -> B -> W B) acc :
  (forall x acc, key_errors_only (body x acc)) ->
  key_errors_only (for_each l acc body).
Proof.
  intros H. revert acc. induction l as [|y r IH]; intros acc; simpl.
  - apply keo_ret.
  - apply keo_bind; auto.
Qed.

Lemma keo_if {A} (b : bool) (m1 m2 : W A) :
  key_errors_only m1 -> key_errors_only m2 ->
  key_errors_only (if b then m1 else m2).
Proof. now destruct b. Qed.

Create HintDb keo.

#[export] Hint Resolve keo_ret keo_error keo_item keo_bind keo_for_each
  keo_if : keo.

Lemma keo_check_transitions cfg : key_errors_only (_check_transitions cfg).
Proof.
  unfold _check_transitions.
  apply keo_bind; [apply keo_item|]. intros trs.
  apply keo_for_each. intros [origin transition] ok.
  apply keo_bind; [apply keo_item|]. intros sts.
  apply keo_bind; [auto with keo|]. intros ok1.
  apply keo_for_each. intros [destination sequence] ok2.
  repeat (first [ apply keo_bind; [auto 6 with keo|]; intro
                | apply keo_for_each; intros ??
                | solve [auto 6 with keo] ]).
Qed.

(** The steps that [run_checks] runs before it stops: the steps up to and
    including the first one that does not return [True]. *)
Fixpoint steps_run (cs : list (W bool)) : list (W bool) :=
  match cs with
  | [] => []
  | c :: rest =>
      match fst c with
      | Ok true => c :: steps_run rest
      | _ => [c]
      end
  end.

Lemma run_checks_log cs :
  snd (run_checks cs) = concat (map snd (steps_run cs)).
Proof.
  induction cs as [|[r l] rest IH]; simpl; auto.
  destruct r as [[|]|e]; simpl.
  - destruct (run_checks rest) as [r' l'] eqn:E. simpl in *. now rewrite IH.
  - now rewrite !app_nil_r.
  - now rewrite app_nil_r.
Qed.

Lemma run_checks_pass (passed : list (W bool)) rest :
  Forall (fun c => fst c = Ok true) passed ->
  run_checks (app passed rest) =
  (fst (run_checks rest),
   app (concat (map snd passed)) (snd (run_checks rest))).
Proof.
  induction 1 as [|[r l] passed Hc Hp IH]; simpl.
  - now destruct (run_checks rest).
  - simpl in Hc. subst r. simpl. rewrite IH. simpl.
    now rewrite app_assoc.
Qed.

Lemma run_checks_true cs :
  fst (run_checks cs) = Ok true <-> Forall (fun c => fst c = Ok true) cs.
Proof.
  induction cs as [|[r l] rest IH]; simpl.
  - split; auto.
  - destruct r as [[|]|e]; simpl.
    + destruct (run_checks rest) as [r' l'] eqn:E. simpl in *.
      rewrite IH. split; [intros H; constructor; auto|].
      intros H. now inversion H.
    + split; [discriminate|]. intros H. inversion H. discriminate.
    + split; [discriminate|]. intros H. inversion H. discriminate.
Qed.

Lemma raises_bind_ok {A B} (m : W A) (k : A -> W B) a l :
  m = (Ok a, l) -> raises (k a) -> raises (m ≫= k).
Proof.
  intros -> H. unfold raises in *. simpl. now destruct (k a).
Qed.

Lemma raises_check_transitions cfg trs sts origin transition destination
    sequence :
  rc_transitions cfg = Some trs ->
  rc_states cfg = Some sts ->
  In (origin, transition) trs ->
  In (destination, sequence) transition ->
  Dict.mem destination sts = false ->
  raises (_check_transitions cfg).
Proof.
  intros Ht Hs Hot Hds Hmem. unfold _check_transitions.
  rewrite Ht, Hs.
  eapply raises_bind_ok; [reflexivity|].
  eapply raises_for_each; [exact Hot|]. intros ok. cbv beta iota.
  eapply raises_bind_ok; [reflexivity|].
  apply raises_bind_r. intros ok1.
  eapply raises_for_each; [exact Hds|]. intros ok2. cbv beta iota.
  eapply raises_bind_ok; [reflexivity|].
  do 3 (apply raises_bind_r; intro).
  eapply raises_bind_ok; [reflexivity|].
  apply DictFacts.mem_false in Hmem. rewrite Hmem.
  apply raises_bind_l. reflexivity.
Qed.

(** C2 (as amended).  [check_config] runs the validation steps in the
    order root keys, init_state, devices, states, limits, transitions, and
    stops at the first step that fails: when the steps [passed] return
    [True] and the next step [failing] returns [False], the result is
    [False] and the errors reported are exactly those of [passed] and of
    [failing]; the steps after it ([skipped]) are not run and report
    nothing. *)
Theorem check_config_stops_at_first_failure (cfg : RawConfig)
    (passed : list (W bool)) (failing : W bool) (skipped : list (W bool)) :
  checks cfg = app passed (failing :: skipped) ->
  Forall (fun c => fst c = Ok true) passed ->
  fst failing = Ok false ->
  check_config cfg =
  (Ok false, app (concat (map snd passed)) (snd failing)).
Proof.
  intros Hsplit Hpassed Hfail. unfold check_config. rewrite Hsplit.
  rewrite run_checks_pass by exact Hpassed.
  destruct failing as [r l]. simpl in Hfail. subst r. simpl.
  now rewrite app_nil_r.
Qed.

Lemma check_config_stops_at_first_failure_witness :
  check_config Examples.plant_two_errors =
  (Ok false, [InvalidInitState "Standby"]).
Proof.
  apply (check_config_stops_at_first_failure Examples.plant_two_errors
           [_check_root_mandatory Examples.plant_two_errors]
           (_check_init_state Examples.plant_two_errors)
           [_check_devices Examples.plant_two_errors;
            _check_states Examples.plant_two_errors;
            _check_limits Examples.plant_two_errors;
            _check_transitions Examples.plant_two_errors]).
  - reflexivity.
  - repeat constructor.
  - reflexivity.
Defined.

(** C2 (as stated) fails: in [plant_two_errors] the step [_check_limits]
    is one of the steps, it fails and reports the inverted limits of
    [On]/[a], yet a run of [check_config] does not report that error. *)
Lemma check_config_hides_later_errors :
  let cfg := Examples.plant_two_errors in
  let e := LimitsInverted "On" "a" "In" 1 (-1) in
  In (_check_limits cfg) (checks cfg) /\
  _check_limits cfg = (Ok false, [e]) /\
  ~ In e (snd (check_config cfg)).
Proof.
  simpl. split; [|split].
  - unfold checks. simpl. auto 10.
  - reflexivity.
  - change (check_config Examples.plant_two_errors)
      with (Ok false, [InvalidInitState "Standby"]).
    simpl. intros [H|[]]. discriminate.
Qed.



End ConfigFacts.

(** * Reasoning about the methods of the engine *)

Module EngineFacts.
Import Engine.

(** [hoare P m Q]: from a governor that satisfies [P], the computation
    [m] ends (by a return or by an exception) with a result and a governor
    that satisfy [Q]. *)
Definition hoare {A} (P : Governor -> Prop) (m : M A)
    (Q : Result A -> Governor -> Prop) : Prop :=
  forall g, P g -> Q (fst (m g)) (snd (m g)).

(** [preserves I m]: [m] maintains [I], however it ends. *)
Definition preserves {A} (I : Governor -> Prop) (m : M A) : Prop :=
  hoare I m (fun _ g => I g).

(** [pure m]: [m] only reads. *)
Definition pure {A} (m : M A) : Prop := forall g, snd (m g) = g.

Lemma run_bind {A B} (m : M A) (k : A -> M B) g :
  (m ≫= k) g =
  match m g with
  | (Ok a, g') => k a g'
  | (Raise e, g') => (Raise e, g')
  end.
Proof. reflexivity. Qed.

Lemma hoare_weaken {A} (P P' : Governor -> Prop) (m : M A)
    (Q Q' : Result A -> Governor -> Prop) :
  hoare P' m Q' -> (forall g, P g -> P' g) ->
  (forall r g, Q' r g -> Q r g) -> hoare P m Q.
Proof. unfold hoare. auto. Qed.

Lemma hoare_false {A} (P : Governor -> Prop) (m : M A) Q :
  (forall g, P g -> False) -> hoare P m Q.
Proof. intros H g Hg. destruct (H g Hg). Qed.

Lemma hoare_bind {A B} P (m : M A) (k : A -> M B) Q1 Q2 :
  hoare P m Q1 ->
  (forall a, hoare (Q1 (Ok a)) (k a) Q2) ->
  (forall e g, Q1 (Raise e) g -> Q2 (Raise e) g) ->
  hoare P (m ≫= k) Q2.
Proof.
  intros Hm Hk He g Hg. rewrite run_bind. specialize (Hm g Hg).
  destruct (m g) as [[a|e] g']; simpl in *; auto.
  apply Hk, Hm.
Qed.

Lemma preserves_bind {A B} I (m : M A) (k : A -> M B) :
  preserves I m -> (forall a, preserves I (k a)) -> preserves I (m ≫= k).
Proof.
  intros Hm Hk. eapply hoare_bind; [exact Hm | exact Hk | auto].
Qed.

Lemma preserves_ret {A} I (a : A) : preserves I (mret a).
Proof. intros g Hg. exact Hg. Qed.

Lemma preserves_raise {A} I e : preserves I (@raise A e).
Proof. intros g Hg. exact Hg. Qed.

Lemma preserves_gets {A} I (f : Governor -> A) : preserves I (gets f).
Proof. intros g Hg. exact Hg. Qed.

Lemma preserves_item {A} I key (o : option A) : preserves I (item key o).
Proof. destruct o; intros g Hg; exact Hg. Qed.

Lemma preserves_index {A} I (l : list A) i : preserves I (index l i).
Proof. unfold index. destruct (nth_error l i); intros g Hg; exact Hg. Qed.

Lemma preserves_modify (I : Governor -> Prop) f :
  (forall g, I g -> I (f g)) -> preserves I (modify f).
Proof. intros H g Hg. apply H, Hg. Qed.

Lemma preserves_for_each {A B} I (l : list A) (body : A -> B -> M B) acc :
  (forall x acc, preserves I (body x acc)) ->
  preserves I (for_each l acc body).
Proof.
  intros H. revert acc. induction l as [|x r IH]; intros acc; simpl.
  - apply preserves_ret.
  - apply preserves_bind; auto.
Qed.

Lemma preserves_try_except {A} I (m : M A) h :
  preserves I m -> (forall e, preserves I (h e)) ->
  preserves I (try_except m h).
Proof.
  intros Hm Hh g Hg. unfold try_except. specialize (Hm g Hg).
  destruct (m g) as [[a|e] g']; simpl in *; auto.
  apply Hh, Hm.
Qed.

(** A read followed by a computation that may rely on the value read. *)
Lemma preserves_gets_bind {A B} (I : Governor -> Prop)
    (f : Governor -> A) (k : A -> M B) :
  (forall v, hoare (fun g => I g /\ f g = v) (k v) (fun _ g => I g)) ->
  preserves I (gets f ≫= k).
Proof.
  intros H g Hg. rewrite run_bind. simpl. apply (H (f g)). auto.
Qed.

Lemma pure_preserves {A} I (m : M A) : pure m -> preserves I m.
Proof. intros H g Hg. now rewrite H. Qed.

Lemma pure_bind {A B} (m : M A) (k : A -> M B) :
  pure m -> (forall a, pure (k a)) -> pure (m ≫= k).
Proof.
  intros Hm Hk g. rewrite run_bind. specialize (Hm g).
  destruct (m g) as [[a|e] g']; simpl in *; subst; [apply Hk|reflexivity].
Qed.

Lemma pure_ret {A} (a : A) : pure (mret a : M A).
Proof. intros g. reflexivity. Qed.

Lemma pure_gets {A} (f : Governor -> A) : pure (gets f).
Proof. intros g. reflexivity. Qed.

Lemma pure_item {A} key (o : option A) : pure (item key o).
Proof. destruct o; intros g; reflexivity. Qed.

Lemma pure_index {A} (l : list A) i : pure (index l i).
Proof. unfold index. destruct (nth_error l i); intros g; reflexivity. Qed.

Lemma pure_raise {A} e : pure (@raise A e).
Proof. intros g. reflexivity. Qed.

Lemma pure_for_each {A B} (l : list A) (body : A -> B -> M B) acc :
  (forall x acc, pure (body x acc)) -> pure (for_each l acc body).
Proof.
  intros H. revert acc. induction l as [|x r IH]; intros acc; simpl.
  - apply pure_ret.
  - apply pure_bind; auto.
Qed.

Create HintDb pure.

#[export] Hint Resolve pure_bind pure_ret pure_gets pure_item pure_index
  pure_raise pure_for_each : pure.

Ltac pure_tac :=
  repeat first
    [ apply pure_bind; [|intro]
    | apply pure_ret | apply pure_gets | apply pure_item | apply pure_index
    | apply pure_raise
    | apply pure_for_each; intros
    | match goal with
      | |- pure (match ?x with _ => _ end) => destruct x
      | |- pure (let '(_, _) := ?x in _) => destruct x
      end
    | solve [auto with pure] ].

Lemma pure_state s : pure (state s).
Proof. unfold state. pure_tac. Qed.

Lemma pure_fullname s : pure (fullname s).
Proof. unfold fullname. pure_tac. Qed.

Lemma pure_targets s : pure (targets s).
Proof. unfold targets. pure_tac. Qed.

Lemma pure_target_config t : pure (target_config t).
Proof. unfold target_config. pure_tac. Qed.

Lemma pure_get_target t : pure (get_target t).
Proof. unfold get_target. pure_tac. Qed.

Lemma pure_get_limits t : pure (get_limits t).
Proof. unfold get_limits. pure_tac. Qed.

Lemma pure_get_update_after t : pure (get_update_after t).
Proof. unfold get_update_after. pure_tac. Qed.

Lemma pure_device dev : pure (device dev).
Proof. unfold device. pure_tac. Qed.

Lemma pure_device_config dev : pure (device_config dev).
Proof. unfold device_config. pure_tac. Qed.

Lemma pure_positions dev : pure (positions dev).
Proof. unfold positions. pure_tac. Qed.

Lemma pure_position_of dev t : pure (position_of dev t).
Proof. unfold position_of. pure_tac. Qed.

Lemma pure_target_pos dev : pure (target_pos dev).
Proof. unfold target_pos. pure_tac. Qed.

Lemma pure_val dev : pure (val dev).
Proof. unfold val. pure_tac. Qed.

Lemma pure_limits dev : pure (limits dev).
Proof. unfold limits. pure_tac. Qed.

Lemma pure_tolerance dev : pure (tolerance dev).
Proof. unfold tolerance. pure_tac. Qed.

Lemma pure_number v : pure (number v).
Proof. unfold number. pure_tac. Qed.

Lemma pure_out_of_band value lower upper :
  pure (out_of_band value lower upper).
Proof. unfold out_of_band. pure_tac. Qed.

Lemma pure_tgts i : pure (tgts i).
Proof. unfold tgts. pure_tac. Qed.

Lemma pure_reachable_states origin : pure (reachable_states origin).
Proof. unfold reachable_states. pure_tac. Qed.

Lemma pure_step_devices tgs it : pure (step_devices tgs it).
Proof. unfold step_devices. destruct it; pure_tac. Qed.

#[export] Hint Resolve pure_state pure_fullname pure_targets
  pure_target_config pure_get_target pure_get_limits pure_get_update_after
  pure_device pure_device_config pure_positions pure_position_of
  pure_target_pos pure_val pure_limits pure_tolerance pure_number
  pure_out_of_band pure_tgts pure_reachable_states pure_step_devices : pure.

(** ** Abort and fault during the move phase (C4) *)

Definition is_move (c : DevCall) : bool :=
  match c with
  | CallMove _ _ => true
  | _ => false
  end.

(** The calls of [move] the devices have received. *)
Definition moves_issued (g : Governor) : list DevCall :=
  List.filter is_move (calls g).

(** The abort flag is set and the moves issued so far are [k]. *)
Definition aborting (k : list DevCall) (g : Governor) : Prop :=
  abort_transition g = true /\ moves_issued g = k.

Ltac aborting_modify :=
  let g := fresh "g" in
  let H := fresh "H" in
  intros g H; unfold aborting, moves_issued in *; simpl;
  destruct H; split; auto;
  rewrite ?List.filter_app; simpl; rewrite ?app_nil_r; auto.

Create HintDb pres.

(** Proves [preserves I m] by following the structure of [m]; the
    argument proves that an assignment maintains [I]. *)
Ltac pres_tac solver :=
  repeat first
    [ solve [auto with pres]
    | apply pure_preserves; solve [auto with pure]
    | match goal with
      | |- preserves _ (mret _) => apply preserves_ret
      | |- preserves _ (raise _) => apply preserves_raise
      | |- preserves _ (gets _) => apply preserves_gets
      | |- preserves _ (item _ _) => apply preserves_item
      | |- preserves _ (index _ _) => apply preserves_index
      | |- preserves _ (modify _) => apply preserves_modify; solver
      | |- preserves _ (logmsg _) => unfold logmsg
      | |- preserves _ commit => unfold commit
      | |- preserves _ (record_call _) => unfold record_call
      | |- preserves _ (device_event _ _) => unfold device_event
      | |- preserves _ (update_device _ _) => unfold update_device
      | |- preserves _ (_value_changed _ _) => unfold _value_changed
      | |- preserves _ (for_each _ _ _) => apply preserves_for_each; intros
      | |- preserves _ (try_except _ _) =>
          apply preserves_try_except; [|intro]
      | |- preserves _ (_ ≫= _) => apply preserves_bind; [|intro]
      | |- preserves _ (match ?x with _ => _ end) => destruct x
      | |- preserves _ ((match ?x with _ => _ end) _) => destruct x
      end ].

Ltac aborting_tac := pres_tac ltac:(idtac; aborting_modify).

Lemma aborting_notify k : preserves (aborting k) _notify_observer.
Proof. unfold _notify_observer. aborting_tac. Qed.

#[export] Hint Resolve aborting_notify : pres.

Lemma aborting_set_target k dev t : preserves (aborting k) (set_target dev t).
Proof. unfold set_target, update_device. aborting_tac. Qed.

#[export] Hint Resolve aborting_set_target : pres.

Lemma aborting_set_state k s force : preserves (aborting k) (set_state s force).
Proof. unfold set_state. aborting_tac. Qed.

#[export] Hint Resolve aborting_set_state : pres.

Lemma aborting_check_fault_state k : preserves (aborting k) check_fault_state.
Proof. unfold check_fault_state. aborting_tac. Qed.

#[export] Hint Resolve aborting_check_fault_state : pres.

Lemma aborting_device_event k e dev :
  preserves (aborting k) (device_event e dev).
Proof. unfold device_event. aborting_tac. Qed.

#[export] Hint Resolve aborting_device_event : pres.

Lemma aborting_stop k dev : preserves (aborting k) (stop dev).
Proof. unfold stop, record_call. aborting_tac. Qed.

#[export] Hint Resolve aborting_stop : pres.

(** The supervisor thread sets the abort flag, never clears it, and never
    moves a device; nor do the methods the driver calls. *)
Lemma aborting_worker k : preserves (aborting k) _worker_iteration.
Proof. unfold _worker_iteration. aborting_tac. Qed.

Lemma aborting_set_enabled k en : preserves (aborting k) (set_enabled en).
Proof. unfold set_enabled. aborting_tac. Qed.

Lemma aborting_set_state_device_limit k s dev limit value :
  preserves (aborting k) (set_state_device_limit s dev limit value).
Proof. unfold set_state_device_limit, set_limits. aborting_tac. Qed.

Lemma aborting_set_device_position k dev position value :
  preserves (aborting k) (set_device_position dev position value).
Proof. unfold set_device_position. aborting_tac. Qed.

Lemma aborting_value_changed k dev value :
  preserves (aborting k) (_value_changed dev value).
Proof. aborting_tac. Qed.

Lemma aborting_env_step k a g : aborting k g -> aborting k (env_step a g).
Proof.
  intros Hg.
  destruct a as [dev conn|dev msta|dev v|dev v|dev b|event dev| |en
                |s dev limit value|dev position value]; simpl.
  - destruct (Dict.get dev (devices g)) as [d|]; auto.
    destruct (d_class d); auto; destruct conn; simpl; auto.
  - destruct (Dict.get dev (devices g)) as [d|]; auto.
    destruct (d_class d); auto.
  - destruct (Dict.get dev (devices g)) as [d|]; auto.
    destruct (d_class d); auto.
    apply (aborting_value_changed k dev v). exact Hg.
  - destruct (Dict.get dev (devices g)) as [d|]; auto.
    destruct (d_class d); auto.
    apply (aborting_value_changed k dev v). exact Hg.
  - destruct (Dict.get dev (devices g)) as [d|]; auto.
    destruct (d_class d); auto.
  - apply (aborting_device_event k event dev g Hg).
  - apply (aborting_worker k g Hg).
  - apply (aborting_set_enabled k en g Hg).
  - apply (aborting_set_state_device_limit k s dev limit value g Hg).
  - apply (aborting_set_device_position k dev position value g Hg).
Qed.

Lemma aborting_run_env k batch g : aborting k g -> aborting k (run_env batch g).
Proof.
  unfold run_env. revert g. induction batch as [|a r IH]; intros g Hg; simpl.
  - exact Hg.
  - apply IH, aborting_env_step, Hg.
Qed.

Lemma aborting_yield k : preserves (aborting k) yield.
Proof.
  intros g Hg. unfold yield. destruct (sched g) as [|batch rest]; simpl.
  - exact Hg.
  - apply aborting_run_env. exact Hg.
Qed.

Lemma aborting_wait k dev : preserves (aborting k) (wait dev).
Proof.
  pose proof (aborting_yield k). unfold wait, record_call. aborting_tac.
Qed.

(** Under the abort flag the guard of [move] is false. *)
Lemma aborting_guard {A B} k (m skip : M A) (rest : A -> M B) :
  preserves (aborting k) skip ->
  (forall x, preserves (aborting k) (rest x)) ->
  preserves (aborting k)
    (a ← gets abort_transition;
     x ← (if negb a then m else skip);
     rest x).
Proof.
  intros Hskip Hrest. apply preserves_gets_bind. intros [|]; simpl.
  - eapply hoare_weaken with (P' := aborting k);
      [apply preserves_bind; [exact Hskip|exact Hrest]| |auto].
    now intros g [Hg _].
  - apply hoare_false. intros g [[Hg _] Hf]. congruence.
Qed.

Lemma aborting_move_devices k devs moved :
  preserves (aborting k) (move_devices devs moved).
Proof.
  unfold move_devices. apply preserves_for_each. intros [dev target] acc.
  apply preserves_bind; [apply aborting_yield|]. intros _.
  apply aborting_guard; intros; apply preserves_ret.
Qed.

#[export] Hint Resolve aborting_yield aborting_wait : pres.

Lemma aborting_wait_devices k devs :
  preserves (aborting k) (wait_devices devs).
Proof.
  unfold wait_devices. apply preserves_for_each. intros [dev target] acc.
  aborting_tac.
Qed.

Lemma aborting_run_sequence k tgs device_sequence moved :
  preserves (aborting k) (run_sequence tgs device_sequence moved).
Proof.
  revert moved. induction device_sequence as [|it rest IH]; intros moved.
  - apply preserves_ret.
  - simpl. apply preserves_bind; [apply preserves_gets|]. intros f.
    destruct f; [apply preserves_ret|].
    apply preserves_bind;
      [apply pure_preserves, pure_step_devices|]. intros devs.
    apply preserves_bind; [apply aborting_move_devices|]. intros moved'.
    apply preserves_bind; [apply aborting_wait_devices|]. intros _.
    apply preserves_bind; [apply aborting_yield|]. intros _.
    apply IH.
Qed.

(** [drain n g]: [g] once the next [n] batches of the schedule have
    happened. *)
Fixpoint drain (n : nat) (g : Governor) : Governor :=
  match n with
  | O => g
  | S n => drain n (snd (yield g))
  end.

Lemma drain_yield n g : snd (yield (drain n g)) = drain (S n) g.
Proof.
  revert g. induction n as [|n IH]; intros g; [reflexivity|].
  simpl. rewrite IH. reflexivity.
Qed.

(** The abort flag is set, and [g] differs from [g0] by what the other
    threads did. *)
Definition inert (g0 g : Governor) : Prop :=
  abort_transition g = true /\ exists n, g = drain n g0.

Lemma inert_yield g0 : preserves (inert g0) yield.
Proof.
  intros g [Ha [n ->]]. split.
  - apply (aborting_yield (moves_issued (drain n g0)) (drain n g0)).
    split; [exact Ha|reflexivity].
  - exists (S n). apply drain_yield.
Qed.

(** Under the abort flag a guarded call is skipped. *)
Lemma inert_guard {A B} g0 (m skip : M A) (rest : A -> M B) :
  preserves (inert g0) skip ->
  (forall x, preserves (inert g0) (rest x)) ->
  preserves (inert g0)
    (a ← gets abort_transition;
     x ← (if negb a then m else skip);
     rest x).
Proof.
  intros Hskip Hrest. apply preserves_gets_bind. intros [|]; simpl.
  - eapply hoare_weaken with (P' := inert g0);
      [apply preserves_bind; [exact Hskip|exact Hrest]| |auto].
    now intros g [Hg _].
  - apply hoare_false. intros g [[Hg _] Hf]. congruence.
Qed.

Lemma inert_guard_last {A} g0 (m skip : M A) :
  preserves (inert g0) skip ->
  preserves (inert g0)
    (a ← gets abort_transition; if negb a then m else skip).
Proof.
  intros Hskip. apply preserves_gets_bind. intros [|]; simpl.
  - eapply hoare_weaken with (P' := inert g0); [exact Hskip| |auto].
    now intros g [Hg _].
  - apply hoare_false. intros g [[Hg _] Hf]. congruence.
Qed.

Lemma inert_move_devices g0 devs moved :
  preserves (inert g0) (move_devices devs moved).
Proof.
  unfold move_devices. apply preserves_for_each. intros [dev target] acc.
  apply preserves_bind; [apply inert_yield|]. intros _.
  apply inert_guard; intros; apply preserves_ret.
Qed.

Lemma inert_wait_devices g0 devs :
  preserves (inert g0) (wait_devices devs).
Proof.
  unfold wait_devices. apply preserves_for_each. intros [dev target] acc.
  apply preserves_bind; [apply inert_yield|]. intros _.
  apply inert_guard; [apply preserves_ret|]. intros _.
  apply preserves_bind; [apply inert_yield|]. intros _.
  apply inert_guard_last, preserves_ret.
Qed.

Lemma inert_run_sequence g0 tgs device_sequence moved :
  preserves (inert g0) (run_sequence tgs device_sequence moved).
Proof.
  revert moved. induction device_sequence as [|it rest IH]; intros moved.
  - apply preserves_ret.
  - simpl. apply preserves_bind; [apply preserves_gets|]. intros f.
    destruct f; [apply preserves_ret|].
    apply preserves_bind;
      [apply pure_preserves, pure_step_devices|]. intros devs.
    apply preserves_bind; [apply inert_move_devices|]. intros moved'.
    apply preserves_bind; [apply inert_wait_devices|]. intros _.
    apply preserves_bind; [apply inert_yield|]. intros _.
    apply IH.
Qed.

(** C4.  At the start of a step of the sequence (the head of the loop of
    [_do_transition], for the steps that remain), if the abort flag is set
    or the status is Fault, then whatever the hardware and the supervisor
    thread do meanwhile, no device of that step or of a later step
    receives a [move].  On Fault the loop is left at once, with nothing
    changed.  Under the abort flag the loop goes through the remaining
    steps without acting: the governor changes only by what the other
    threads do. *)
Theorem no_move_once_aborted_or_faulted (tgs : dict Target)
    (device_sequence : list SeqItem) (moved : gset string) (g : Governor) :
  abort_transition g = true \/ status g = STATUS_FAULT ->
  moves_issued (snd (run_sequence tgs device_sequence moved g))
  = moves_issued g /\
  (status g = STATUS_FAULT -> device_sequence <> [] ->
   run_sequence tgs device_sequence moved g = (Ok (true, moved), g)) /\
  (abort_transition g = true ->
   exists n, snd (run_sequence tgs device_sequence moved g) = drain n g).
Proof.
  intros H. split; [|split].
  - destruct H as [Ha|Hf].
    + apply (aborting_run_sequence (moves_issued g) tgs device_sequence
               moved g).
      split; [exact Ha|reflexivity].
    + destruct device_sequence as [|it rest]; [reflexivity|].
      simpl. rewrite run_bind. unfold gets, fault. now rewrite Hf.
  - intros Hf Hne. destruct device_sequence as [|it rest]; [congruence|].
    simpl. rewrite run_bind. unfold gets, fault. now rewrite Hf.
  - intros Ha.
    apply (inert_run_sequence g tgs device_sequence moved g).
    split; [exact Ha|]. now exists O.
Qed.

(** C4 at work: with the abort flag set no device of [valve_plant] is
    moved, although the sequence names both. *)
Lemma no_move_once_aborted_or_faulted_witness :
  let r := run_sequence Examples.on_targets Examples.on_sequence ∅
             Examples.aborted_governor in
  moves_issued (snd r) = moves_issued Examples.aborted_governor /\
  (status Examples.aborted_governor = STATUS_FAULT ->
   Examples.on_sequence <> [] ->
   r = (Ok (true, ∅), Examples.aborted_governor)) /\
  (abort_transition Examples.aborted_governor = true ->
   exists n, snd r = drain n Examples.aborted_governor).
Proof.
  apply (no_move_once_aborted_or_faulted Examples.on_targets
           Examples.on_sequence ∅ Examples.aborted_governor).
  left. reflexivity.
Defined.

(** Without the abort flag and with a quiet schedule the same loop moves
    the valve, then the motor. *)
Example moves_without_abort :
  moves_issued
    (snd (run_sequence Examples.on_targets Examples.on_sequence ∅
            (with_sched [] (with_abort_transition false
                              Examples.aborted_governor))))
  = [CallMove "valve" {| t_state := "On"; t_device := "valve" |};
     CallMove "motor" {| t_state := "On"; t_device := "motor" |}].
Proof. vm_compute. reflexivity. Qed.

(** ** Runs without interference *)

(** No activity of the other threads is pending. *)
Definition quiet (g : Governor) : Prop := sched g = [].

Ltac quiet_modify :=
  let g := fresh "g" in
  let H := fresh "H" in
  intros g H; unfold quiet in *; simpl; exact H.

Ltac quiet_tac := pres_tac ltac:(idtac; quiet_modify).

Lemma yield_quiet g : sched g = [] -> yield g = (Ok tt, g).
Proof. intros H. unfold yield. now rewrite H. Qed.

Lemma quiet_yield : preserves quiet yield.
Proof. intros g Hg. now rewrite yield_quiet. Qed.

#[export] Hint Resolve quiet_yield : pres.

Lemma quiet_notify : preserves quiet _notify_observer.
Proof. unfold _notify_observer. quiet_tac. Qed.

#[export] Hint Resolve quiet_notify : pres.

Lemma quiet_set_target dev t : preserves quiet (set_target dev t).
Proof. unfold set_target. quiet_tac. Qed.

#[export] Hint Resolve quiet_set_target : pres.

Lemma quiet_set_state s force : preserves quiet (set_state s force).
Proof. unfold set_state. quiet_tac. Qed.

#[export] Hint Resolve quiet_set_state : pres.

Lemma quiet_move dev t : preserves quiet (move dev t).
Proof. unfold move. quiet_tac. Qed.

Lemma quiet_wait dev : preserves quiet (wait dev).
Proof. unfold wait. quiet_tac. Qed.

Lemma quiet_set_device_position dev position value :
  preserves quiet (set_device_position dev position value).
Proof. unfold set_device_position. quiet_tac. Qed.

#[export] Hint Resolve quiet_move quiet_wait quiet_set_device_position
  : pres.

Lemma quiet_move_devices devs moved :
  preserves quiet (move_devices devs moved).
Proof. unfold move_devices. quiet_tac. Qed.

Lemma quiet_wait_devices devs : preserves quiet (wait_devices devs).
Proof. unfold wait_devices. quiet_tac. Qed.

#[export] Hint Resolve quiet_move_devices quiet_wait_devices : pres.

Lemma quiet_run_sequence tgs device_sequence moved :
  preserves quiet (run_sequence tgs device_sequence moved).
Proof.
  revert moved. induction device_sequence as [|it rest IH]; intros moved;
    simpl; quiet_tac.
Qed.

#[export] Hint Resolve quiet_run_sequence : pres.

Lemma quiet__do_transition dest : preserves quiet (_do_transition dest).
Proof. unfold _do_transition. quiet_tac. Qed.

#[export] Hint Resolve quiet__do_transition : pres.

Lemma quiet_do_transition dest : preserves quiet (do_transition dest).
Proof. unfold do_transition. quiet_tac. Qed.

(** *** Evaluation of the reads *)

Lemma run_gets {A B} (f : Governor -> A) (k : A -> M B) g :
  (gets f ≫= k) g = k (f g) g.
Proof. reflexivity. Qed.

Lemma run_modify {B} f (k : unit -> M B) g : (modify f ≫= k) g = k tt (f g).
Proof. reflexivity. Qed.

Lemma run_yield_quiet {B} (k : unit -> M B) g :
  sched g = [] -> (yield ≫= k) g = k tt g.
Proof. intros H. rewrite run_bind, yield_quiet by exact H. reflexivity. Qed.

Lemma run_item {A} key (o : option A) g :
  item key o g =
  (match o with Some a => Ok a | None => Raise (KeyError key) end, g).
Proof. now destruct o. Qed.

Lemma run_state s g :
  state s g =
  (match Dict.get s (states g) with
   | Some st => Ok st
   | None => Raise (KeyError s)
   end, g).
Proof. unfold state. rewrite run_gets. apply run_item. Qed.

Lemma run_fullname s g :
  fullname s g =
  (match Dict.get s (states g) with
   | Some st => Ok (default s (sc_name st))
   | None => Raise (KeyError s)
   end, g).
Proof.
  unfold fullname. rewrite run_bind, run_state.
  now destruct (Dict.get s (states g)).
Qed.

Lemma run_reachable_states origin g :
  reachable_states origin g =
  (let o := default (current_state g) origin in
   match Dict.get o (transitions g) with
   | Some from_origin => Ok (o :: Dict.keys from_origin)
   | None => Raise (KeyError o)
   end, g).
Proof.
  unfold reachable_states. rewrite !run_gets, run_bind, run_item. simpl.
  now destruct (Dict.get _ (transitions g)).
Qed.

Lemma run_device dev g :
  device dev g =
  (match Dict.get dev (devices g) with
   | Some d => Ok d
   | None => Raise (KeyError dev)
   end, g).
Proof. unfold device. rewrite run_gets. apply run_item. Qed.

Lemma contains_head s l : contains s (s :: l) = true.
Proof. unfold contains. simpl. now rewrite String.eqb_refl. Qed.

(** ** A transition to the current state (C6) *)

(** [_do_transition] towards the current state, without interference. *)
Lemma same_state_run g dest :
  sched g = [] -> current_state g = dest -> enabled g = true ->
  _do_transition dest g =
  match Dict.get dest (transitions g) with
  | None => (Raise (KeyError dest), g)
  | Some _ =>
      match Dict.get dest (states g) with
      | None => (Raise (KeyError dest), g)
      | Some st =>
          let fn := default dest (sc_name st) in
          (Ok ExitSameState,
           with_next_state dest
             (with_log (app (log g) [LogTransition fn fn]) g))
      end
  end.
Proof.
  intros Hs Hc He. unfold _do_transition.
  rewrite run_gets, Hc.
  rewrite run_yield_quiet by exact Hs.
  rewrite run_gets, He. cbn [negb].
  rewrite run_yield_quiet by exact Hs.
  rewrite run_bind, run_reachable_states, Hc. cbn [default].
  destruct (Dict.get dest (transitions g)) as [from|]; [|reflexivity].
  cbv zeta. rewrite contains_head. cbn [negb].
  rewrite run_bind, run_fullname.
  destruct (Dict.get dest (states g)) as [st|] eqn:Est; [|reflexivity].
  rewrite run_bind, run_fullname, Est.
  unfold logmsg. rewrite !run_modify. rewrite String.eqb_refl. reflexivity.
Qed.

Lemma disabled_run g dest :
  sched g = [] -> enabled g = false ->
  _do_transition dest g =
  (Ok ExitDisabled,
   with_log (app (log g) [LogDisabled (current_state g) dest]) g).
Proof.
  intros Hs He. unfold _do_transition.
  rewrite run_gets, run_yield_quiet by exact Hs.
  rewrite run_gets, He. reflexivity.
Qed.

(** What a transition to the current state leaves as it was: the calls
    received by the devices, the file, the configuration, the current
    state and the devices. *)
Definition unchanged (g0 g : Governor) : Prop :=
  calls g = calls g0 /\ disk g = disk g0 /\ config g = config g0 /\
  current_state g = current_state g0 /\ devices g = devices g0 /\
  sched g = [].

Ltac unchanged_modify :=
  let g := fresh "g" in
  let H := fresh "H" in
  intros g H; unfold unchanged in *; simpl; exact H.

Ltac unchanged_tac := pres_tac ltac:(idtac; unchanged_modify).

Lemma unchanged_yield g0 : preserves (unchanged g0) yield.
Proof.
  intros g Hg. rewrite yield_quiet; [exact Hg|]. apply Hg.
Qed.

Lemma unchanged_notify g0 : preserves (unchanged g0) _notify_observer.
Proof. unfold _notify_observer. unchanged_tac. Qed.

#[export] Hint Resolve unchanged_yield unchanged_notify : pres.

Lemma unchanged__do_transition g0 dest :
  current_state g0 = dest -> preserves (unchanged g0) (_do_transition dest).
Proof.
  intros Hc g Hg.
  assert (Hs : sched g = []) by apply Hg.
  assert (Hcur : current_state g = dest).
  { destruct Hg as (_ & _ & _ & H & _). congruence. }
  destruct (enabled g) eqn:He.
  - rewrite same_state_run by assumption.
    destruct (Dict.get dest (transitions g)); [|exact Hg].
    destruct (Dict.get dest (states g)); [|exact Hg].
    unfold unchanged in *. simpl. intuition congruence.
  - rewrite disabled_run by assumption. exact Hg.
Qed.

Lemma unchanged_do_transition g0 dest :
  current_state g0 = dest -> preserves (unchanged g0) (do_transition dest).
Proof.
  intros Hc. pose proof (unchanged__do_transition g0 dest Hc).
  unfold do_transition. unchanged_tac.
Qed.

(** C6.  Without interference, [do_transition(dest)] with [dest] the
    current state issues no call to a device, writes nothing to the file,
    and leaves the configuration, the current state and the devices as
    they were; [_do_transition] (which [do_transition] runs with the
    status Busy, hence enabled) takes the same-state [return], unless the
    lookup of the state or of its transitions raises.  So, of two
    consecutive calls of [do_transition(dest)] of which the first ends in
    [dest], the second changes none of these. *)
Theorem do_transition_same_state (g : Governor) (dest : string) :
  sched g = [] ->
  (current_state g = dest ->
   unchanged g (snd (do_transition dest g)) /\
   (enabled g = true ->
    fst (_do_transition dest g) = Ok ExitSameState \/
    fst (_do_transition dest g) = Raise (KeyError dest))) /\
  (let g1 := snd (do_transition dest g) in
   current_state g1 = dest ->
   unchanged g1 (snd (do_transition dest g1))).
Proof.
  intros Hs.
  assert (Hnoop : forall g', sched g' = [] -> current_state g' = dest ->
                    unchanged g' (snd (do_transition dest g'))).
  { intros g' Hs' Hc'. apply (unchanged_do_transition g' dest Hc' g').
    unfold unchanged. auto 10. }
  split.
  - intros Hc. split; [now apply Hnoop|].
    intros He. rewrite same_state_run by assumption.
    destruct (Dict.get dest (transitions g)); [|now right].
    destruct (Dict.get dest (states g)); [now left|now right].
  - intros g1 Hc1. apply Hnoop; [|exact Hc1].
    apply (quiet_do_transition dest g Hs).
Qed.

(** C6 at work on [plant]: after a transition from [Off] to [On], a
    second [do_transition "On"] is a no-op. *)
Lemma do_transition_same_state_witness :
  let g0 := Examples.plant_governor in
  let g1 := snd (do_transition "On" g0) in
  current_state g0 = "Off" /\ current_state g1 = "On" /\
  unchanged g1 (snd (do_transition "On" g1)) /\
  (fst (_do_transition "On" g1) = Ok ExitSameState \/
   fst (_do_transition "On" g1) = Raise (KeyError "On")).
Proof.
  cbv zeta. split; [reflexivity|]. split; [vm_compute; reflexivity|].
  split.
  - apply (proj2 (do_transition_same_state Examples.plant_governor "On"
                    eq_refl)).
    vm_compute. reflexivity.
  - apply (proj1 (do_transition_same_state
                    (snd (do_transition "On" Examples.plant_governor)) "On"
                    ltac:(vm_compute; reflexivity)));
      vm_compute; reflexivity.
Defined.

(** ** Editing limits and positions (C5, C7, C10) *)

Lemma get_targets_map s dev (tgs : dict TargetCfg) :
  Dict.get dev
    (map (fun '(d, _) => (d, {| t_state := s; t_device := d |})) tgs)
  = match Dict.get dev tgs with
    | Some _ => Some {| t_state := s; t_device := dev |}
    | None => None
    end.
Proof.
  induction tgs as [|[k tc] r IH]; simpl; auto.
  destruct (String.eqb dev k) eqn:E; auto.
  apply String.eqb_eq in E. now subst.
Qed.

Lemma run_targets s g :
  targets s g =
  (match Dict.get s (states g) with
   | Some st =>
       Ok (map (fun '(d, _) => (d, {| t_state := s; t_device := d |}))
             (default [] (sc_targets st)))
   | None => Raise (KeyError s)
   end, g).
Proof.
  unfold targets. rewrite run_bind, run_state.
  now destruct (Dict.get s (states g)).
Qed.

Lemma run_target_config t g :
  target_config t g =
  (match Dict.get (t_state t) (states g) with
   | Some st =>
       match Dict.get (t_device t) (default [] (sc_targets st)) with
       | Some tc => Ok tc
       | None => Raise (KeyError (t_device t))
       end
   | None => Raise (KeyError (t_state t))
   end, g).
Proof.
  unfold target_config. rewrite run_bind, run_state.
  destruct (Dict.get (t_state t) (states g)); [|reflexivity].
  apply run_item.
Qed.

Lemma run_get_limits t g st tc l :
  Dict.get (t_state t) (states g) = Some st ->
  Dict.get (t_device t) (default [] (sc_targets st)) = Some tc ->
  tc_limits tc = Some l ->
  get_limits t g = (Ok l, g).
Proof.
  intros Hs Ht Hl. unfold get_limits.
  rewrite run_bind, run_target_config, Hs, Ht, run_item, Hl. reflexivity.
Qed.

(** Reading the limits back after [cfg_set_limits]. *)
Lemma states_cfg_set_limits s dev l g st tc :
  Dict.get s (states g) = Some st ->
  Dict.get dev (default [] (sc_targets st)) = Some tc ->
  exists st' tc',
    Dict.get s (states (with_config (cfg_set_limits s dev l (config g)) g))
    = Some st' /\
    Dict.get dev (default [] (sc_targets st')) = Some tc' /\
    tc_limits tc' = Some l /\ tc_target tc' = tc_target tc.
Proof.
  unfold states. intros Hs Ht. simpl. unfold cfg_set_limits.
  destruct (rc_states (config g)) as [sts|]; [|discriminate].
  simpl in Hs. rewrite Hs.
  destruct (sc_targets st) as [tgs|]; [|discriminate].
  simpl in Ht. rewrite Ht. simpl.
  eexists. eexists. rewrite DictFacts.get_set_eq. split; [reflexivity|].
  simpl. rewrite DictFacts.get_set_eq. auto.
Qed.

(** C7.  For a state [s] that has a target for [dev] with limits
    [lower], [upper]: [set_state_device_limit] builds the new pair from
    [value] and the bound it keeps.  When its lower bound exceeds its upper
    bound the call returns [False], logs the error, and changes neither the
    configuration in memory nor the file.  Otherwise it returns [True], the
    limits read through the target are the new pair (the edited bound is
    [value]), and the configuration that holds them is written to the
    file. *)
Theorem set_state_device_limit_checks_order (g : Governor) (s dev : string)
    (limit : Limit) (value : Q) (st : StateCfg) (tc : TargetCfg)
    (lower upper : Q) (rest : list Q) :
  Dict.get s (states g) = Some st ->
  Dict.get dev (default [] (sc_targets st)) = Some tc ->
  tc_limits tc = Some (lower :: upper :: rest) ->
  let new_limits :=
    match limit with
    | LIMIT_LOW => (value, upper)
    | LIMIT_HIGH => (lower, value)
    end in
  let t := {| t_state := s; t_device := dev |} in
  let r := set_state_device_limit s dev limit value g in
  ((snd new_limits < fst new_limits)%Q ->
   r = (Ok false,
        with_log (app (log g)
                    [LogLimitExceeds s dev (fst new_limits)
                       (snd new_limits)]) g)) /\
  ((fst new_limits <= snd new_limits)%Q ->
   fst r = Ok true /\
   get_limits t (snd r)
   = (Ok [fst new_limits; snd new_limits], snd r) /\
   nth_error [fst new_limits; snd new_limits]
     (match limit with LIMIT_LOW => 0 | LIMIT_HIGH => 1 end) = Some value /\
   disk (snd r) = app (disk g) [config (snd r)]).
Proof.
  intros Hs Ht Hl new_limits t r.
  assert (Hr : r =
    if negb (Qle_bool (fst new_limits) (snd new_limits))
    then (Ok false,
          with_log (app (log g)
                      [LogLimitExceeds s dev (fst new_limits)
                         (snd new_limits)]) g)
    else (Ok true,
          let g1 := with_config
                      (cfg_set_limits s dev
                         [fst new_limits; snd new_limits] (config g)) g in
          with_disk (app (disk g1) [config g1]) g1)).
  { unfold r, set_state_device_limit.
    rewrite run_bind, run_targets, Hs.
    rewrite run_bind, run_item, get_targets_map, Ht.
    rewrite run_bind,
      (run_get_limits {| t_state := s; t_device := dev |} g st tc _ Hs Ht Hl).
    assert (Hnew :
      (match limit with
       | LIMIT_LOW => hi ← index (lower :: upper :: rest) 1; mret (value, hi)
       | LIMIT_HIGH => lo ← index (lower :: upper :: rest) 0; mret (lo, value)
       end) g = (Ok new_limits, g)) by now destruct limit.
    rewrite run_bind, Hnew.
    destruct (negb (Qle_bool new_limits.1 new_limits.2)); [reflexivity|].
    unfold set_limits.
    rewrite !run_bind, run_target_config. simpl t_state. simpl t_device.
    rewrite Hs, Ht. reflexivity. }
  split.
  - intros Hlt. rewrite Hr.
    destruct (Qle_bool (fst new_limits) (snd new_limits)) eqn:E;
      [|reflexivity].
    apply Qle_bool_iff in E. exfalso. revert E. apply Qlt_not_le, Hlt.
  - intros Hle. apply Qle_bool_iff in Hle. rewrite Hr, Hle. simpl negb.
    cbv iota. split; [reflexivity|]. simpl snd. split; [|split].
    + destruct (states_cfg_set_limits s dev
                  [fst new_limits; snd new_limits] g st tc Hs Ht)
        as (st' & tc' & Hs' & Ht' & Hl' & _).
      eapply run_get_limits; simpl; eauto.
    + now destruct limit.
    + reflexivity.
Qed.

(** C7 at work on [plant]: raising the lower limit of [a] in [On] above
    the upper limit 1 is rejected; lowering it to -2 is installed. *)
Lemma set_state_device_limit_checks_order_witness :
  let g := Examples.plant_governor in
  let t := {| t_state := "On"; t_device := "a" |} in
  set_state_device_limit "On" "a" LIMIT_LOW 5 g
  = (Ok false, with_log [LogLimitExceeds "On" "a" 5 1] g) /\
  let r := set_state_device_limit "On" "a" LIMIT_LOW (-2) g in
  fst r = Ok true /\
  get_limits t (snd r) = (Ok [(-2)%Q; 1%Q], snd r) /\
  nth_error [(-2)%Q; 1%Q] 0 = Some (-2)%Q /\
  disk (snd r) = [config (snd r)].
Proof.
  cbv zeta. split.
  - apply (set_state_device_limit_checks_order Examples.plant_governor
             "On" "a" LIMIT_LOW 5
             {| sc_name := Some "Switched on";
                sc_targets :=
                  Some [("a", Examples.target_cfg "In" (-1) 1);
                        ("b", Examples.target_cfg "Out" (-1) 1)] |}
             (Examples.target_cfg "In" (-1) 1) (-1) 1 []);
      reflexivity.
  - apply (set_state_device_limit_checks_order Examples.plant_governor
             "On" "a" LIMIT_LOW (-2)
             {| sc_name := Some "Switched on";
                sc_targets :=
                  Some [("a", Examples.target_cfg "In" (-1) 1);
                        ("b", Examples.target_cfg "Out" (-1) 1)] |}
             (Examples.target_cfg "In" (-1) 1) (-1) 1 []);
      try reflexivity.
    simpl. discriminate.
Defined.

(** C5: what the code does when the value is missing.  The call logs a
    warning, changes neither the configuration nor the file, and returns
    [True]: it does not return failure. *)
Theorem set_device_position_none_returns_true (g : Governor)
    (dev position : string) :
  set_device_position dev position None g
  = (Ok true, with_log (app (log g) [LogWontSetNone dev position]) g).
Proof.
  unfold set_device_position, logmsg. rewrite run_modify. reflexivity.
Qed.

Definition valve_positions : dict Value :=
  [("Open", VNum 1); ("Closed", VNum 0)].

Lemma run_positions_valve dev d g :
  Dict.get dev (devices g) = Some d -> d_class d = Valve ->
  positions dev g = (Ok valve_positions, g).
Proof.
  intros Hd Hc. unfold positions. rewrite run_bind, run_device, Hd, Hc.
  reflexivity.
Qed.

(** C10.  For a device of the class [Valve], [set_device_position] with
    a value returns [True] and writes the configuration to the file, but
    the configuration it writes is the one it found, and the positions of
    the device are [{"Open": 1, "Closed": 0}] before and after the call,
    whatever the configuration declares: the value written is lost. *)
Theorem valve_position_write_is_lost (g : Governor) (dev position : string)
    (v : Value) (d : DeviceObj) :
  Dict.get dev (devices g) = Some d ->
  d_class d = Valve ->
  let r := set_device_position dev position (Some v) g in
  fst r = Ok true /\
  disk (snd r) = app (disk g) [config g] /\
  config (snd r) = config g /\
  devices (snd r) = devices g /\
  positions dev g = (Ok valve_positions, g) /\
  positions dev (snd r) = (Ok valve_positions, snd r).
Proof.
  intros Hd Hc r.
  assert (Hr : r = (Ok true,
                    with_disk (app (disk g) [config g])
                      (with_log (app (log g) [LogSetPosition dev position v])
                         g))).
  { unfold r, set_device_position, logmsg, commit.
    rewrite run_bind, run_modify, run_bind, run_device. simpl devices.
    rewrite Hd, Hc. reflexivity. }
  rewrite Hr. simpl. repeat split; eauto using run_positions_valve.
Qed.

(** C10 at work: writing 7.5 to the position [Open] of the valve of
    [valve_plant], whose configuration declares [Open] as 5. *)
Lemma valve_position_write_is_lost_witness :
  let g := Examples.valve_governor in
  let r := set_device_position "valve" "Open" (Some (VNum 7.5)) g in
  fst r = Ok true /\
  disk (snd r) = [Examples.valve_plant] /\
  config (snd r) = Examples.valve_plant /\
  devices (snd r) = devices g /\
  positions "valve" g = (Ok valve_positions, g) /\
  positions "valve" (snd r) = (Ok valve_positions, snd r).
Proof.
  apply (valve_position_write_is_lost Examples.valve_governor "valve" "Open"
           (VNum 7.5)
           {| d_class := Valve; d_target := None; d_homed := false;
              d_current_setpoint := Some (VNum 0); d_connected := true;
              d_value := Some (VNum 0); d_dmov := true;
              d_rbv := Some (VNum 0) |});
    reflexivity.
Defined.

(** For a [Motor] the same call does change the configuration. *)
Example motor_position_write_is_kept :
  let r := set_device_position "motor" "In" (Some (VNum 7.5))
             Examples.valve_governor in
  fst (positions "motor" (snd r)) = Ok [("In", VNum 7.5); ("Out", VNum 0)].
Proof. reflexivity. Qed.

(** ** The status message (C8) *)

(** A fault set with its tag, as [tag(name,name,...)]. *)
Definition render_fault (p : string * list string) : string :=
  fst p ++ "(" ++ join "," (snd p) ++ ")".

(** C8.  [status_message] is, under the status Fault, the non-empty fault
    sets among disconnected, alarmed and not homed, in that order, each as
    its tag ([disconn], [alarm], [!homed]) followed by the comma-joined
    names in brackets, joined by spaces; otherwise ["state <current>"]
    when the next state is the current one, and
    ["transition <current> to <next>"] when it is not. *)
Theorem status_message_cases (g : Governor) :
  status_message g =
  match status g with
  | STATUS_FAULT =>
      join " "
        (map render_fault
           (List.filter (fun p => is_nonempty (snd p))
              [("disconn", disconnected_devices g);
               ("alarm", alarmed_devices g);
               ("!homed", not_homed_devices g)]))
  | _ =>
      if String.eqb (next_state g) (current_state g)
      then "state " ++ current_state g
      else "transition " ++ current_state g ++ " to " ++ next_state g
  end.
Proof.
  unfold status_message, fault.
  destruct (status g); try reflexivity.
  change (Status_eqb STATUS_FAULT STATUS_FAULT) with true. cbv iota.
  destruct (disconnected_devices g) as [|d dl],
           (alarmed_devices g) as [|a al],
           (not_homed_devices g) as [|n nl]; reflexivity.
Qed.

Example status_message_fault :
  status_message
    (with_not_homed_devices ["motor"]
       (with_disconnected_devices ["valve"; "motor"]
          (with_status STATUS_FAULT Examples.valve_governor)))
  = "disconn(valve,motor) !homed(motor)".
Proof. reflexivity. Qed.

Example status_message_state :
  status_message Examples.plant_governor = "state Off".
Proof. reflexivity. Qed.

Example status_message_transition :
  status_message (with_next_state "On" Examples.plant_governor)
  = "transition Off to On".
Proof. reflexivity. Qed.

(** ** The implicit transition to the initial state (C3) *)

(** The sequence [seq] stored for [origin] -> [init] is the empty one the
    engine adds, or one the configuration [trs] declares. *)
Definition reset_sequence (trs : dict (dict (list SeqItem)))
    (origin init : string) (seq : list SeqItem) : Prop :=
  seq = [] \/ exists transition,
    In (origin, transition) trs /\ In (init, seq) transition.

Lemma fill_keeps_reset trs origin init transition d :
  (forall p, In p transition -> exists tr,
       In (origin, tr) trs /\ In p tr) ->
  (exists seq, Dict.get init d = Some seq /\
               reset_sequence trs origin init seq) ->
  exists seq,
    Dict.get init
      (fold_left (fun d '(destination, sequence) =>
                    Dict.set destination sequence d) transition d)
    = Some seq /\ reset_sequence trs origin init seq.
Proof.
  revert d. induction transition as [|[dst sq] r IH]; intros d Hin Hd.
  - exact Hd.
  - simpl. apply IH.
    + intros p Hp. apply Hin. now right.
    + destruct (String.eqb_spec dst init) as [->|Hne].
      * exists sq. rewrite DictFacts.get_set_eq. split; [reflexivity|].
        right. destruct (Hin (init, sq)) as [tr Htr]; [now left|].
        exists tr. exact Htr.
      * rewrite DictFacts.get_set_ne by exact Hne. exact Hd.
Qed.

(** Every origin stored so far, other than [init], has a sequence to
    [init]. *)
Definition has_reset (trs : dict (dict (list SeqItem))) (init : string)
    (acc : dict (dict (list SeqItem))) : Prop :=
  forall origin from_origin,
    Dict.get origin acc = Some from_origin -> origin <> init ->
    exists seq, Dict.get init from_origin = Some seq /\
                reset_sequence trs origin init seq.

Definition parse_step (init : string) (acc : dict (dict (list SeqItem)))
    (p : string * dict (list SeqItem)) : dict (dict (list SeqItem)) :=
  let '(origin, transition) := p in
  let empty : dict (list SeqItem) :=
    if negb (String.eqb origin init) then Dict.set init [] [] else [] in
  let from_origin :=
    fold_left (fun d '(destination, sequence) =>
                 Dict.set destination sequence d) transition empty in
  Dict.set origin from_origin acc.

Lemma parse_transitions_fold init trs :
  parse_transitions init trs = fold_left (parse_step init) trs [].
Proof.
  unfold parse_transitions. f_equal.
Qed.

Lemma parse_step_has_reset trs init acc origin transition :
  In (origin, transition) trs ->
  has_reset trs init acc ->
  has_reset trs init (parse_step init acc (origin, transition)).
Proof.
  intros Hin Hacc o from Hget Hne. simpl in Hget.
  destruct (String.eqb_spec origin o) as [->|Hno].
  - rewrite DictFacts.get_set_eq in Hget. injection Hget as <-.
    apply fill_keeps_reset.
    + intros p Hp. exists transition. auto.
    + destruct (String.eqb_spec o init) as [->|_]; [congruence|].
      simpl. exists []. rewrite String.eqb_refl. split; [reflexivity|].
      now left.
  - rewrite DictFacts.get_set_ne in Hget by exact Hno.
    eapply Hacc; eauto.
Qed.

Lemma fold_parse_has_reset trs init l acc :
  (forall p, In p l -> In p trs) ->
  has_reset trs init acc ->
  has_reset trs init (fold_left (parse_step init) l acc).
Proof.
  revert acc. induction l as [|[origin transition] r IH]; intros acc Hl Hacc.
  - exact Hacc.
  - simpl. apply IH.
    + intros p Hp. apply Hl. now right.
    + apply parse_step_has_reset; [apply Hl; now left|exact Hacc].
Qed.

Lemma fold_parse_keys init l acc origin :
  In origin (Dict.keys l) \/ In origin (Dict.keys acc) ->
  In origin (Dict.keys (fold_left (parse_step init) l acc)).
Proof.
  revert acc. induction l as [|[o transition] r IH]; intros acc H.
  - simpl. destruct H as [[]|H]. exact H.
  - simpl. apply IH. simpl in H.
    destruct H as [[->|H]|H]; auto; right;
      apply DictFacts.keys_set_in; auto.
Qed.

Lemma init_transitions hw nm cfg g :
  __init__ hw nm cfg = Ok g ->
  exists init trs,
    rc_init_state cfg = Some init /\ rc_transitions cfg = Some trs /\
    init_state g = init /\ current_state g = init /\
    transitions g = parse_transitions init trs /\ config g = cfg.
Proof.
  unfold __init__, _parse_config. intros H.
  destruct (rc_devices cfg) as [dcs|]; [|discriminate]. simpl in H.
  destruct (for_each dcs [] _) as [devs|e]; [|discriminate]. simpl in H.
  destruct (rc_states cfg) as [sts|]; [|discriminate]. simpl in H.
  destruct (rc_init_state cfg) as [init|]; [|discriminate]. simpl in H.
  destruct (rc_transitions cfg) as [trs|]; [|discriminate]. simpl in H.
  injection H as <-. exists init, trs. simpl. auto 10.
Qed.

(** C3 (as amended).  For every origin [O] of the mapping ['transitions']
    of the configuration, other than the initial state, the engine holds a
    transition from [O] to the initial state, whose sequence is empty
    unless the configuration declares one from [O] to the initial state;
    so [reachable_states(O)] returns, and its result contains the initial
    state. *)
Theorem reset_edge_of_declared_origins (hw : string -> Hardware)
    (nm : string) (cfg : RawConfig) (g : Governor)
    (trs : dict (dict (list SeqItem))) (O : string) :
  __init__ hw nm cfg = Ok g ->
  rc_transitions cfg = Some trs ->
  In O (Dict.keys trs) ->
  O <> init_state g ->
  exists from_origin seq,
    Dict.get O (transitions g) = Some from_origin /\
    Dict.get (init_state g) from_origin = Some seq /\
    reset_sequence trs O (init_state g) seq /\
    reachable_states (Some O) g = (Ok (O :: Dict.keys from_origin), g) /\
    In (init_state g) (O :: Dict.keys from_origin).
Proof.
  intros Hinit Htrs HO Hne.
  destruct (init_transitions hw nm cfg g Hinit)
    as (init & trs' & Hi & Ht & Hig & _ & Htg & _).
  rewrite Htrs in Ht. injection Ht as <-. rewrite Hig in *.
  rewrite Htg, parse_transitions_fold.
  destruct (DictFacts.keys_get O (fold_left (parse_step init) trs []))
    as [from Hfrom].
  { apply fold_parse_keys. now left. }
  assert (Hreset : has_reset trs init (fold_left (parse_step init) trs [])).
  { apply fold_parse_has_reset; [auto|]. intros o f Hf. discriminate. }
  destruct (Hreset O from Hfrom Hne) as [seq [Hseq Hrs]].
  exists from, seq. split; [exact Hfrom|]. split; [exact Hseq|].
  split; [exact Hrs|]. split.
  - rewrite run_reachable_states. cbn [default]. cbv zeta. unfold id.
    rewrite Htg, parse_transitions_fold, Hfrom. reflexivity.
  - right. eapply DictFacts.get_keys. exact Hseq.
Qed.

(** C3 at work on [plant]: [On] is an origin, and the sequence of its
    transition to [Off] is the one the configuration declares. *)
Lemma reset_edge_of_declared_origins_witness :
  exists from_origin seq,
    Dict.get "On" (transitions Examples.plant_governor) = Some from_origin /\
    Dict.get (init_state Examples.plant_governor) from_origin = Some seq /\
    reset_sequence
      [("Off", [("On", [Single "a"])]);
       ("On", [("Off", [Single "a"]); ("Mid", [])])]
      "On" (init_state Examples.plant_governor) seq /\
    reachable_states (Some "On") Examples.plant_governor
    = (Ok ("On" :: Dict.keys from_origin), Examples.plant_governor) /\
    In (init_state Examples.plant_governor) ("On" :: Dict.keys from_origin).
Proof.
  apply (reset_edge_of_declared_origins Examples.hardware "gov"
           Examples.plant Examples.plant_governor).
  - reflexivity.
  - reflexivity.
  - simpl. auto.
  - discriminate.
Defined.

(** C3 (as stated) fails on [plant], a configuration that [check_config]
    accepts: [Mid] is a declared state other than the initial state, yet
    the engine holds no transition from it and [reachable_states("Mid")]
    raises; and the transition the engine holds from [On] to the initial
    state does not have the empty sequence. *)
Lemma reset_edge_missing_for_state_without_transitions :
  let g := Examples.plant_governor in
  ConfigManager.check_config Examples.plant = (Ok true, []) /\
  __init__ Examples.hardware "gov" Examples.plant = Ok g /\
  Dict.mem "Mid" (states g) = true /\
  "Mid" <> init_state g /\
  Dict.get "Mid" (transitions g) = None /\
  fst (reachable_states (Some "Mid") g) = Raise (KeyError "Mid") /\
  Dict.get "On" (transitions g)
  = Some [("Off", [Single "a"]); ("Mid", [])].
Proof.
  cbv zeta. repeat split; try reflexivity. discriminate.
Qed.

(** ** What the calls on the devices change *)

(** A sequence of two computations that returns normally is made of two
    computations that return normally. *)
Lemma bind_ok_inv {A B} (m : M A) (k : A -> M B) g b g' :
  (m ≫= k) g = (Ok b, g') ->
  exists a g1, m g = (Ok a, g1) /\ k a g1 = (Ok b, g').
Proof.
  rewrite run_bind. destruct (m g) as [[a|e] g1]; [eauto|discriminate].
Qed.

(** A computation that only reads returns the state it was given. *)
Lemma pure_inv {A} (m : M A) g r g' : pure m -> m g = (r, g') -> g' = g.
Proof. intros Hp H. specialize (Hp g). rewrite H in Hp. exact Hp. Qed.

(** [inv_bind] splits a run of [m ≫= k] into the run of [m] and the run
    of [k]; [inv_pure] does the same when [m] only reads, and identifies
    the two states. *)
Tactic Notation "inv_bind" hyp(H) "as" ident(a) ident(g1) ident(H1) :=
  apply bind_ok_inv in H; destruct H as (a & g1 & H1 & H).

Tactic Notation "inv_pure" hyp(H) "as" ident(a) ident(H1) :=
  let g1 := fresh "g" in
  let E := fresh "E" in
  apply bind_ok_inv in H; destruct H as (a & g1 & H1 & H);
  pose proof H1 as E; apply pure_inv in E; [|solve [auto with pure]];
  subst g1.

(** The target of a device, when the device exists. *)
Definition target_of (g : Governor) (dev : string) : option (option Target) :=
  option_map d_target (Dict.get dev (devices g)).

(** What the calls on devices leave as it was. *)
Definition frame (g g' : Governor) : Prop :=
  sched g' = sched g /\ status g' = status g /\
  abort_transition g' = abort_transition g /\
  current_state g' = current_state g /\ next_state g' = next_state g /\
  init_state g' = init_state g /\
  config g' = config g /\ transitions g' = transitions g /\
  observer g' = observer g /\ Dict.keys (devices g') = Dict.keys (devices g).

Lemma frame_refl g : frame g g.
Proof. unfold frame. auto 12. Qed.

Lemma frame_trans g1 g2 g3 : frame g1 g2 -> frame g2 g3 -> frame g1 g3.
Proof. unfold frame. intuition congruence. Qed.

Lemma update_device_spec dev f g a g' :
  update_device dev f g = (Ok a, g') ->
  exists d, Dict.get dev (devices g) = Some d /\
            g' = with_devices (Dict.set dev (f d) (devices g)) g.
Proof.
  unfold update_device. rewrite run_bind, run_device.
  destruct (Dict.get dev (devices g)) as [d|]; [|discriminate].
  intros [= _ <-]. eauto.
Qed.

Lemma target_of_set dev d ds g x :
  target_of (with_devices (Dict.set dev d ds) g) x =
  if String.eqb x dev then Some (d_target d)
  else option_map d_target (Dict.get x ds).
Proof.
  unfold target_of. simpl. destruct (String.eqb_spec x dev) as [->|Hne].
  - now rewrite DictFacts.get_set_eq.
  - rewrite DictFacts.get_set_ne; auto.
Qed.

Lemma update_device_effect dev f g a g' :
  update_device dev f g = (Ok a, g') ->
  frame g g' /\
  (exists d, Dict.get dev (devices g) = Some d /\
             target_of g' dev = Some (d_target (f d))) /\
  (forall x, x <> dev -> target_of g' x = target_of g x).
Proof.
  intros H. apply update_device_spec in H. destruct H as (d & Hd & ->).
  split; [|split].
  - unfold frame. simpl. repeat split.
    eapply DictFacts.keys_set_present; eauto.
  - exists d. split; [exact Hd|]. rewrite target_of_set.
    now rewrite String.eqb_refl.
  - intros x Hx. rewrite target_of_set.
    destruct (String.eqb_spec x dev); [congruence|reflexivity].
Qed.

(** Clearing a target is the assignment alone. *)
Lemma set_target_none dev g :
  set_target dev None g = update_device dev (with_d_target None) g.
Proof.
  unfold set_target. rewrite run_bind.
  now destruct (update_device dev (with_d_target None) g) as [[[]|e] g1].
Qed.

Lemma with_queue_id g : with_queue (queue g) g = g.
Proof. now destruct g. Qed.

(** The check of a value against the band changes the queue only. *)
Lemma value_changed_effect dev value g r g' :
  _value_changed dev value g = (r, g') -> exists q, g' = with_queue q g.
Proof.
  intros H.
  assert (Hp : preserves (fun g1 => exists q, g1 = with_queue q g)
                 (_value_changed dev value)).
  { pres_tac ltac:(idtac; intros ? [? ->]; simpl; eexists; reflexivity). }
  specialize (Hp g). rewrite H in Hp. apply Hp.
  exists (queue g). now rewrite with_queue_id.
Qed.

Lemma set_target_effect dev t g a g' :
  set_target dev t g = (Ok a, g') ->
  frame g g' /\ target_of g' dev = Some t /\
  (forall x, x <> dev -> target_of g' x = target_of g x).
Proof.
  unfold set_target. intros H. inv_bind H as u g1 H1.
  apply update_device_effect in H1.
  destruct H1 as (Hf & (d & Hd & Ht) & Ho).
  assert (Hq : exists q, g' = with_queue q g1).
  { destruct t as [t|].
    - inv_pure H as d1 Hd1.
      destruct (d_class d1);
        [injection H as _ <-; exists (queue g1); now rewrite with_queue_id
        |eapply value_changed_effect; exact H..].
    - injection H as _ <-. exists (queue g1). now rewrite with_queue_id. }
  destruct Hq as [q ->]. auto.
Qed.

Lemma record_call_frame c g : frame g (snd (record_call c g)).
Proof. unfold frame. simpl. auto 12. Qed.

Lemma move_effect dev t g a g' :
  move dev t g = (Ok a, g') ->
  frame g g' /\ (forall x, x <> dev -> target_of g' x = target_of g x).
Proof.
  unfold move. intros H.
  inv_bind H as u g1 H1. unfold record_call, modify in H1.
  injection H1 as _ <-.
  inv_bind H as u2 g2 H2. apply set_target_effect in H2.
  destruct H2 as (Hf1 & _ & Ho1).
  inv_pure H as pos Hpos. inv_pure H as d Hd.
  assert (Hf0 : frame g g2).
  { eapply frame_trans; [|exact Hf1]. apply (record_call_frame _ g). }
  assert (Ho0 : forall x, x <> dev -> target_of g2 x = target_of g x).
  { intros x Hx. rewrite Ho1 by exact Hx. reflexivity. }
  destruct (d_class d).
  - injection H as _ <-. auto.
  - injection H as _ <-. auto.
  - inv_pure H as tn Htn.
    destruct (_ || _); [|discriminate].
    apply update_device_effect in H. destruct H as (Hf2 & _ & Ho2).
    split; [eapply frame_trans; eauto|].
    intros x Hx. rewrite Ho2, Ho0; auto.
Qed.

Lemma preserves_run {A} I (m : M A) g r g' :
  preserves I m -> I g -> m g = (r, g') -> I g'.
Proof. intros Hp Hg H. specialize (Hp g Hg). now rewrite H in Hp. Qed.

(** The names of one step of a sequence, and of a sequence. *)
Definition item_names (it : SeqItem) : list string :=
  match it with
  | Single d => [d]
  | Parallel ds => ds
  end.

Definition sequence_names (seq : list SeqItem) : list string :=
  concat (map item_names seq).

Lemma step_devices_parallel (tgs : dict Target) l acc g devs g' :
  for_each l acc (fun i acc =>
    p ← (_ ← device i; t ← item i (Dict.get i tgs); mret (i, t));
    mret (app acc [p])) g = (Ok devs, g') ->
  g' = g /\ exists new, devs = app acc new /\ map fst new = l /\
    forall dev t, In (dev, t) new -> Dict.get dev tgs = Some t.
Proof.
  revert acc g. induction l as [|i r IH]; intros acc g H.
  - injection H as <- <-. split; [reflexivity|]. exists [].
    rewrite app_nil_r. simpl. tauto.
  - simpl in H. inv_bind H as acc1 g1 H1.
    inv_bind H1 as p g2 H2. injection H1 as <- <-.
    inv_pure H2 as d Hd. rewrite run_bind, run_item in H2.
    destruct (Dict.get i tgs) as [t|] eqn:Et; [|discriminate].
    injection H2 as <- <-.
    apply IH in H. destruct H as (-> & new & -> & Hn & Hg).
    split; [reflexivity|]. exists ((i, t) :: new).
    rewrite <- app_assoc. split; [reflexivity|]. simpl. split; [congruence|].
    intros dev t' [[= <- <-]|Hin]; auto.
Qed.

Lemma step_devices_effect tgs it g devs g' :
  step_devices tgs it g = (Ok devs, g') ->
  g' = g /\ map fst devs = item_names it /\
  forall dev t, In (dev, t) devs -> Dict.get dev tgs = Some t.
Proof.
  unfold step_devices. destruct it as [i|l]; intros H.
  - inv_bind H as p g1 H1. injection H as <- <-.
    inv_pure H1 as d Hd. rewrite run_bind, run_item in H1.
    destruct (Dict.get i tgs) as [t|] eqn:Et; [|discriminate].
    injection H1 as <- <-. split; [reflexivity|]. simpl.
    split; [reflexivity|]. intros dev t' [[= <- <-]|[]]. exact Et.
  - apply step_devices_parallel in H.
    destruct H as (-> & new & -> & Hn & Hg). simpl. auto.
Qed.

Lemma clear_targets_effect L g u g' :
  for_each L tt (fun dev _ => set_target dev None) g = (Ok u, g') ->
  frame g g' /\
  (forall x, In x L -> target_of g' x = Some None) /\
  (forall x, ~ In x L -> target_of g' x = target_of g x).
Proof.
  revert u g. induction L as [|dev r IH]; intros u g H.
  - injection H as _ <-. split; [apply frame_refl|]. simpl. split; tauto.
  - simpl in H. inv_bind H as u1 g1 H1. destruct u1.
    apply set_target_effect in H1. destruct H1 as (Hf1 & Ht1 & Ho1).
    apply IH in H. destruct H as (Hf & Hi & Ho).
    split; [eapply frame_trans; eauto|]. split.
    + intros x Hx.
      destruct (in_dec string_dec x r) as [Hr|Hr]; [now apply Hi|].
      destruct Hx as [<-|Hx]; [|contradiction].
      rewrite Ho by exact Hr. exact Ht1.
    + intros x Hx. simpl in Hx. rewrite Ho, Ho1; intuition congruence.
Qed.

Lemma with_published_id g : with_published (published g) g = g.
Proof. now destruct g. Qed.

Lemma notify_effect g r g' :
  _notify_observer g = (r, g') -> exists p, g' = with_published p g.
Proof.
  intros H.
  assert (Hp : preserves (fun g1 => exists p, g1 = with_published p g)
                 _notify_observer).
  { unfold _notify_observer.
    pres_tac ltac:(idtac; intros ? [? ->]; simpl; eexists; reflexivity). }
  specialize (Hp g). rewrite H in Hp. apply Hp.
  exists (published g). now rewrite with_published_id.
Qed.

Lemma notify_frame g r g' :
  _notify_observer g = (r, g') ->
  frame g g' /\ devices g' = devices g.
Proof.
  intros H. apply notify_effect in H. destruct H as [p ->].
  split; [|reflexivity]. unfold frame. simpl. auto 12.
Qed.

Lemma set_state_effect s g u g' :
  current_state g <> s ->
  set_state s false g = (Ok u, g') ->
  current_state g' = s /\ sched g' = sched g /\
  init_state g' = init_state g /\ config g' = config g /\
  Dict.keys (devices g') = Dict.keys (devices g) /\
  (s <> init_state g -> forall x, target_of g' x = target_of g x) /\
  (s = init_state g ->
   forall x t, target_of g' x = Some t -> t = None).
Proof.
  intros Hne H. unfold set_state in H. rewrite run_gets in H.
  destruct (String.eqb_spec (current_state g) s) as [|_]; [contradiction|].
  simpl negb in H. cbv iota in H. simpl orb in H. cbv iota in H.
  inv_bind H as u1 g1 H1.
  rewrite !run_modify, (run_gets init_state) in H1.
  change (init_state (with_next_state s (with_current_state s g)))
    with (init_state g) in H1.
  apply notify_frame in H. destruct H as (Hf & Hd).
  destruct (String.eqb_spec s (init_state g)) as [Hi|Hi].
  - cbv iota in H1. rewrite (run_gets devices) in H1. simpl devices in H1.
    apply clear_targets_effect in H1. destruct H1 as (Hf1 & Hin & Ho).
    assert (Hf2 := frame_trans _ _ _ Hf1 Hf).
    unfold frame in Hf2. simpl in Hf2.
    destruct Hf2 as (? & ? & ? & ? & ? & ? & ? & ? & ? & ?).
    repeat split; auto; [congruence|].
    intros _ x t Ht. unfold target_of in Ht. rewrite Hd in Ht.
    fold (target_of g1 x) in Ht.
    destruct (in_dec string_dec x (Dict.keys (devices g))) as [Hk|Hk].
    + rewrite Hin in Ht by exact Hk. congruence.
    + rewrite Ho in Ht by exact Hk. unfold target_of in Ht. simpl in Ht.
      destruct (Dict.get x (devices g)) as [d|] eqn:E; [|discriminate].
      exfalso. apply Hk. eapply DictFacts.get_keys. exact E.
  - cbv iota in H1. injection H1 as _ <-.
    unfold frame in Hf. simpl in Hf.
    destruct Hf as (? & ? & ? & ? & ? & ? & ? & ? & ? & ?).
    repeat split; auto.
    + intros _ x. unfold target_of. now rewrite Hd.
    + intros E. congruence.
Qed.

Lemma rc_states_cfg_set_position dev position v cfg :
  rc_states (cfg_set_position dev position v cfg) = rc_states cfg.
Proof.
  unfold cfg_set_position. destruct (rc_devices cfg) as [ds|]; auto.
  destruct (Dict.get dev ds) as [dc|]; auto.
  destruct (dc_positions dc); auto.
Qed.

Lemma In_sequence_devices_acc seq (acc : gset string) x :
  x ∈ fold_left (fun acc device_name =>
                   match device_name with
                   | Single d => acc ∪ {[ d ]}
                   | Parallel ds => acc ∪ list_to_set ds
                   end) seq acc
  <-> x ∈ acc \/ In x (sequence_names seq).
Proof.
  revert acc. induction seq as [|it rest IH]; intros acc.
  - simpl. tauto.
  - simpl. rewrite IH. unfold sequence_names. simpl.
    fold (sequence_names rest). rewrite in_app_iff.
    destruct it as [d|ds]; simpl.
    + rewrite elem_of_union, elem_of_singleton. intuition congruence.
    + rewrite elem_of_union, elem_of_list_to_set, list_elem_of_In. tauto.
Qed.

Lemma In_sequence_devices seq x :
  x ∈ ConfigManager.sequence_devices seq <-> In x (sequence_names seq).
Proof.
  unfold ConfigManager.sequence_devices. rewrite In_sequence_devices_acc.
  rewrite elem_of_empty. tauto.
Qed.

Lemma targets_of_state g s tgs dev t :
  targets s g = (Ok tgs, g) -> Dict.get dev tgs = Some t ->
  t = {| t_state := s; t_device := dev |}.
Proof.
  rewrite run_targets. destruct (Dict.get s (states g)); [|discriminate].
  intros [= <-]. rewrite get_targets_map.
  destruct (Dict.get dev _); congruence.
Qed.

End EngineFacts.

(** * More about the methods of the engine *)

Module MethodFacts.
Import Engine EngineFacts.

Lemma run_ret {A B} (a : A) (k : A -> M B) g : (mret a ≫= k) g = k a g.
Proof. reflexivity. Qed.

Lemma run_bind_assoc {A B C} (m : M A) (f : A -> M B) (k : B -> M C) g :
  ((m ≫= f) ≫= k) g = (m ≫= fun a => f a ≫= k) g.
Proof. rewrite !run_bind. destruct (m g) as [[a|e] g1]; reflexivity. Qed.

Lemma yield_returns g : yield g = (Ok tt, snd (yield g)).
Proof. unfold yield. now destruct (sched g). Qed.

(** Proves that a computation only reads, loops over pairs included. *)
Ltac reads_tac :=
  repeat first
    [ solve [auto with pure]
    | apply pure_bind; [|intro]
    | apply pure_for_each; intros
    | match goal with
      | |- pure (match ?x with _ => _ end) => destruct x
      | |- pure ((match ?x with _ => _ end) _) => destruct x
      end ].

Ltac field_tac :=
  pres_tac ltac:(idtac; intros ? ?; simpl; assumption).

(** *** What the other threads maintain *)

(** An invariant of the governor that the callbacks, the supervisor thread
    and the methods the driver calls maintain is maintained at every point
    where the transition thread gives way. *)
Lemma preserves_yield (I : Governor -> Prop) :
  (forall g ds, I g -> I (with_devices ds g)) ->
  (forall g s, I g -> I (with_sched s g)) ->
  (forall event dev, preserves I (device_event event dev)) ->
  preserves I _worker_iteration ->
  (forall en, preserves I (set_enabled en)) ->
  (forall s dev limit value,
     preserves I (set_state_device_limit s dev limit value)) ->
  (forall dev position value,
     preserves I (set_device_position dev position value)) ->
  preserves I yield.
Proof.
  intros Hdev Hsched Hev Hw Hen Hlim Hpos.
  assert (Hvc : forall dev v, preserves I (_value_changed dev v)).
  { intros dev v. pres_tac ltac:(fail). }
  assert (Hstep : forall a g, I g -> I (env_step a g)).
  { intros a g Hg.
    destruct a as [dev conn|dev msta|dev v|dev v|dev b|event dev| |en
                  |s dev limit value|dev position value];
      unfold env_step.
    - destruct (Dict.get dev (devices g)) as [d|]; auto.
      destruct (d_class d); auto; destruct conn; cbn [negb]; auto;
        apply (Hev DISCONNECT_EVENT (Some dev)); auto.
    - destruct (Dict.get dev (devices g)) as [d|]; auto.
      destruct (d_class d); auto.
    - destruct (Dict.get dev (devices g)) as [d|]; auto.
      cbv zeta. destruct (d_class d); auto. apply Hvc. auto.
    - destruct (Dict.get dev (devices g)) as [d|]; auto.
      destruct (d_class d); auto. apply Hvc. auto.
    - destruct (Dict.get dev (devices g)) as [d|]; auto.
      destruct (d_class d); auto.
    - apply (Hev event dev g Hg).
    - apply (Hw g Hg).
    - apply (Hen en g Hg).
    - apply (Hlim s dev limit value g Hg).
    - apply (Hpos dev position value g Hg). }
  intros g Hg. unfold yield. destruct (sched g) as [|batch rest]; [exact Hg|].
  simpl. unfold run_env.
  assert (Hg' : I (with_sched rest g)) by auto.
  revert Hg'. generalize (with_sched rest g). clear g Hg.
  induction batch as [|a r IH]; intros g Hg; simpl; auto.
Qed.

End MethodFacts.

(** * Facts about the supervisor thread *)

Module SupervisionFacts.
Import Engine EngineFacts MethodFacts.

(** The names of the devices of [ds] that satisfy [bad]. *)
Definition names_where (bad : DeviceObj -> bool) (ds : dict DeviceObj)
    : list string :=
  map fst (List.filter (fun '(_, d) => bad d) ds).

(** What [set_state] and the observer leave as it was. *)
Definition supervised (s : Status) (dl al nl : list string)
    (g : Governor) : Prop :=
  status g = s /\ disconnected_devices g = dl /\ alarmed_devices g = al /\
  not_homed_devices g = nl.

Ltac supervised_modify :=
  let g := fresh "g" in
  let H := fresh "H" in
  intros g H; unfold supervised in *; simpl; exact H.

Ltac supervised_tac := pres_tac ltac:(idtac; supervised_modify).

Lemma supervised_set_state s dl al nl st force :
  preserves (supervised s dl al nl) (set_state st force).
Proof. unfold set_state, _notify_observer, set_target. supervised_tac. Qed.

Lemma names_where_nonempty bad ds :
  is_nonempty (names_where bad ds) = true <->
  exists dev d, In (dev, d) ds /\ bad d = true.
Proof.
  unfold names_where. induction ds as [|[k d] r IH]; simpl.
  - split; [discriminate|]. intros (? & ? & [] & _).
  - destruct (bad d) eqn:E; simpl.
    + split; [|reflexivity]. intros _. exists k, d. auto.
    + rewrite IH. split.
      * intros (dev & d' & Hin & Hb). exists dev, d'. auto.
      * intros (dev & d' & [[= -> ->]|Hin] & Hb); [congruence|].
        exists dev, d'. auto.
Qed.

(** No device class overrides [alarmed]. *)
Lemma no_alarmed (ds : dict DeviceObj) :
  map fst (List.filter (fun '(_, d) => alarmed d) ds) = [].
Proof. induction ds as [|[k d] r IH]; [reflexivity|exact IH]. Qed.

Lemma check_fault_state_run g :
  let dl := names_where (fun d => negb (connected d)) (devices g) in
  let nl := names_where (fun d => negb (homed d)) (devices g) in
  supervised
    (if enabled g
     then if is_nonempty dl || is_nonempty nl then STATUS_FAULT
          else if fault g then STATUS_IDLE else status g
     else status g)
    dl [] nl (snd (check_fault_state g)).
Proof.
  intros dl nl. unfold check_fault_state.
  rewrite (run_gets devices), !run_modify, (run_gets enabled).
  rewrite no_alarmed.
  change (map fst (List.filter (fun '(_, d) => negb (connected d))
                     (devices g))) with dl.
  change (map fst (List.filter (fun '(_, d) => negb (homed d))
                     (devices g))) with nl.
  set (g1 := with_not_homed_devices nl
               (with_alarmed_devices []
                  (with_disconnected_devices dl g))).
  change (enabled g1) with (enabled g).
  destruct (enabled g); [|unfold supervised; simpl; auto].
  cbv iota. rewrite !run_gets.
  change (disconnected_devices g1) with dl.
  change (alarmed_devices g1) with (@nil string).
  change (not_homed_devices g1) with nl.
  cbn [is_nonempty orb]. rewrite orb_false_r.
  destruct (is_nonempty dl || is_nonempty nl); cbv iota.
  - rewrite run_modify, run_gets.
    apply (supervised_set_state STATUS_FAULT dl [] nl).
    unfold supervised. simpl. auto.
  - rewrite run_gets. change (fault g1) with (fault g).
    destruct (fault g); cbv iota.
    + rewrite run_modify, run_gets.
      apply (supervised_set_state STATUS_IDLE dl [] nl).
      unfold supervised. simpl. auto.
    + unfold supervised. simpl. auto.
Qed.

Lemma set_state_current s force g :
  current_state (snd (set_state s force g)) = s.
Proof.
  unfold set_state. rewrite (run_gets current_state).
  assert (Hn : preserves (fun g1 => current_state g1 = s) _notify_observer).
  { unfold _notify_observer.
    pres_tac ltac:(idtac; intros ? ?; simpl; assumption). }
  assert (Hchange :
    current_state
      (snd (((modify (with_current_state s);;
              modify (with_next_state s);;
              init ← gets init_state;
              if String.eqb s init
              then ds ← gets devices;
                   for_each (Dict.keys ds) tt
                     (fun dev _ => set_target dev None)
              else mret tt);; _notify_observer) g)) = s).
  { rewrite run_bind_assoc, run_modify.
    match goal with |- current_state (snd (?m ?g1)) = s =>
      assert (Hp : preserves (fun g2 => current_state g2 = s) m);
        [|exact (Hp g1 eq_refl)]
    end.
    unfold set_target.
    pres_tac ltac:(idtac; intros ? ?; simpl; assumption). }
  destruct (String.eqb_spec (current_state g) s) as [Hc|Hc];
    destruct force; cbn [negb orb]; cbv iota; try exact Hchange.
  apply (preserves_bind (fun g1 => current_state g1 = s) (mret tt)
           (fun _ => _notify_observer)); [apply preserves_ret|auto|exact Hc].
Qed.

Lemma check_fault_state_faulty g :
  let dl := names_where (fun d => negb (connected d)) (devices g) in
  let nl := names_where (fun d => negb (homed d)) (devices g) in
  enabled g = true -> is_nonempty dl || is_nonempty nl = true ->
  check_fault_state g
  = set_state (init_state g) false
      (with_status STATUS_FAULT
         (with_not_homed_devices nl
            (with_alarmed_devices []
               (with_disconnected_devices dl g)))).
Proof.
  intros dl nl Hen Hbad. unfold check_fault_state.
  rewrite (run_gets devices), !run_modify, (run_gets enabled).
  rewrite no_alarmed.
  change (map fst (List.filter (fun '(_, d) => negb (connected d))
                     (devices g))) with dl.
  change (map fst (List.filter (fun '(_, d) => negb (homed d))
                     (devices g))) with nl.
  set (g1 := with_not_homed_devices nl
               (with_alarmed_devices []
                  (with_disconnected_devices dl g))).
  change (enabled g1) with (enabled g). rewrite Hen. cbv iota.
  rewrite !run_gets.
  change (disconnected_devices g1) with dl.
  change (alarmed_devices g1) with (@nil string).
  change (not_homed_devices g1) with nl.
  cbn [is_nonempty orb]. rewrite orb_false_r, Hbad. cbv iota.
  rewrite run_modify, run_gets. reflexivity.
Qed.

(** X1.  [check_fault_state] recomputes the lists of faulty devices from
    the devices themselves: the disconnected ones, the ones that are not
    homed, and no alarmed one, since no device class reports an alarm.  A
    disabled governor keeps its status.  An enabled governor with a
    disconnected or not homed device takes the status [FAULT] and returns
    to its initial state; without one it leaves [FAULT] for [IDLE] and
    keeps any other status. *)
Theorem check_fault_state_status (g : Governor) :
  let g' := snd (check_fault_state g) in
  let faulty :=
    exists dev d, In (dev, d) (devices g) /\
                  (connected d = false \/ homed d = false) in
  (status g = STATUS_DISABLED -> status g' = STATUS_DISABLED) /\
  (status g <> STATUS_DISABLED -> faulty ->
   status g' = STATUS_FAULT /\ current_state g' = init_state g) /\
  (status g <> STATUS_DISABLED -> ~ faulty ->
   status g' = if fault g then STATUS_IDLE else status g) /\
  disconnected_devices g'
  = names_where (fun d => negb (connected d)) (devices g) /\
  alarmed_devices g' = [] /\
  not_homed_devices g'
  = names_where (fun d => negb (homed d)) (devices g).
Proof.
  intros g' faulty.
  destruct (check_fault_state_run g) as (Hs & Hd & Ha & Hn).
  fold g' in Hs, Hd, Ha, Hn.
  set (dl := names_where (fun d => negb (connected d)) (devices g)) in *.
  set (nl := names_where (fun d => negb (homed d)) (devices g)) in *.
  assert (Hbad : is_nonempty dl || is_nonempty nl = true <-> faulty).
  { rewrite orb_true_iff. unfold dl, nl. rewrite !names_where_nonempty.
    split.
    - intros [(dev & d & Hin & Hb)|(dev & d & Hin & Hb)];
        exists dev, d; apply negb_true_iff in Hb; auto.
    - intros (dev & d & Hin & [Hb|Hb]); [left|right];
        exists dev, d; rewrite Hb; auto. }
  assert (Hen : status g <> STATUS_DISABLED -> enabled g = true).
  { unfold enabled. destruct (status g); simpl; congruence. }
  split; [|split; [|split; [|auto]]].
  - intros Hdis. rewrite Hs. unfold enabled. now rewrite Hdis.
  - intros Hne Hf. apply Hbad in Hf. split.
    + rewrite Hs, Hen, Hf by assumption. reflexivity.
    + unfold g'. rewrite check_fault_state_faulty; auto.
      apply set_state_current.
  - intros Hne Hf. rewrite Hs, Hen by assumption.
    destruct (is_nonempty dl || is_nonempty nl) eqn:E; [|reflexivity].
    exfalso. apply Hf, Hbad. reflexivity.
Qed.

(** *** An event on the queue *)

(** After an event: the queue is [rest], the abort flag is set, the
    governor is in its initial state [init], and no device has a target. *)
Definition halted (init : string) (rest : list (Event * option string))
    (c : list DevCall) (g : Governor) : Prop :=
  queue g = rest /\ abort_transition g = true /\
  current_state g = init /\ init_state g = init /\ calls g = c /\
  forall dev d, Dict.get dev (devices g) = Some d -> d_target d = None.

Ltac halted_modify :=
  let g := fresh "g" in
  let H := fresh "H" in
  intros g H; unfold halted in *; simpl;
  destruct H as (? & ? & ? & ? & ? & ?); repeat split; auto.

Ltac halted_tac := pres_tac ltac:(idtac; halted_modify).

Lemma halted_set_target init rest c dev :
  preserves (halted init rest c) (set_target dev None).
Proof.
  intros g Hg. rewrite set_target_none. unfold update_device.
  rewrite run_bind, run_device.
  destruct (Dict.get dev (devices g)) as [d|] eqn:Ed; [|exact Hg].
  destruct Hg as (? & ? & ? & ? & ? & Ht). unfold halted. simpl.
  repeat split; auto. intros x dx.
  destruct (String.eqb_spec dev x) as [->|Hne].
  - rewrite DictFacts.get_set_eq. now intros [= <-].
  - rewrite DictFacts.get_set_ne by exact Hne. apply Ht.
Qed.

#[export] Hint Resolve halted_set_target : pres.

Lemma halted_notify init rest c :
  preserves (halted init rest c) _notify_observer.
Proof. unfold _notify_observer. halted_tac. Qed.

#[export] Hint Resolve halted_notify : pres.

Lemma halted_set_state init rest c force :
  preserves (halted init rest c) (set_state init force).
Proof. unfold set_state. halted_tac. Qed.

Lemma halted_reset init rest c force :
  preserves (halted init rest c)
    (i ← gets init_state; set_state i force).
Proof.
  apply preserves_gets_bind. intros v g [Hg Hv].
  assert (v = init) as -> by (destruct Hg as (_ & _ & _ & Hi & _); congruence).
  apply halted_set_state. exact Hg.
Qed.

#[export] Hint Resolve halted_reset : pres.

Lemma halted_check_fault_state init rest c :
  preserves (halted init rest c) check_fault_state.
Proof. unfold check_fault_state. halted_tac. Qed.

(** Clearing the targets of devices that exist does not raise. *)
Lemma clear_targets_returns L g :
  (forall x, In x L -> In x (Dict.keys (devices g))) ->
  exists g', for_each L tt (fun dev _ => set_target dev None) g = (Ok tt, g').
Proof.
  revert g. induction L as [|dev r IH]; intros g HL; [eexists; reflexivity|].
  cbn [for_each]. rewrite run_bind.
  destruct (DictFacts.keys_get dev (devices g)) as [d Hd];
    [apply HL; now left|].
  assert (Hset : set_target dev None g
                 = (Ok tt, with_devices
                             (Dict.set dev (with_d_target None d) (devices g))
                             g)).
  { rewrite set_target_none. unfold update_device.
    rewrite run_bind, run_device, Hd. reflexivity. }
  rewrite Hset. apply IH. intros x Hx. simpl.
  apply DictFacts.keys_set_in. right. apply HL. now right.
Qed.

(** What the forced [set_state] to the initial state does not touch. *)
Definition flagged (init : string) (rest : list (Event * option string))
    (c : list DevCall) (g : Governor) : Prop :=
  queue g = rest /\ abort_transition g = true /\
  current_state g = init /\ init_state g = init /\ calls g = c.

Lemma flagged_clear init rest c L :
  preserves (flagged init rest c)
    (for_each L tt (fun dev _ => set_target dev None)).
Proof.
  unfold set_target.
  pres_tac ltac:(idtac; intros ? ?; unfold flagged in *; simpl; assumption).
Qed.

Lemma set_state_forced_halts rest c g :
  queue g = rest -> abort_transition g = true -> calls g = c ->
  halted (init_state g) rest c (snd (set_state (init_state g) true g)) /\
  Dict.keys (devices (snd (set_state (init_state g) true g)))
  = Dict.keys (devices g).
Proof.
  intros Hq Ha Hc. unfold set_state. rewrite (run_gets current_state).
  rewrite orb_true_r. cbv iota.
  rewrite run_bind_assoc, run_modify, run_bind_assoc, run_modify.
  rewrite run_bind_assoc, (run_gets init_state).
  set (g1 := with_next_state (init_state g)
               (with_current_state (init_state g) g)).
  change (init_state g1) with (init_state g).
  rewrite String.eqb_refl. cbv iota.
  rewrite run_bind_assoc, (run_gets devices).
  change (devices g1) with (devices g).
  destruct (clear_targets_returns (Dict.keys (devices g)) g1) as [g2 Hrun];
    [auto|].
  rewrite run_bind, Hrun.
  assert (Hf : flagged (init_state g) rest c g2).
  { eapply preserves_run; [apply flagged_clear| |exact Hrun].
    unfold flagged, g1. simpl. auto. }
  apply clear_targets_effect in Hrun. destruct Hrun as (Hfr & Hin & _).
  assert (Hk : Dict.keys (devices g2) = Dict.keys (devices g)).
  { destruct Hfr as (_ & _ & _ & _ & _ & _ & _ & _ & _ & Hk). exact Hk. }
  assert (Hh : halted (init_state g) rest c g2).
  { destruct Hf as (? & ? & ? & ? & ?). unfold halted.
    repeat split; auto. intros dev d Hd.
    assert (Hkey : In dev (Dict.keys (devices g))).
    { rewrite <- Hk. eapply DictFacts.get_keys. exact Hd. }
    specialize (Hin dev Hkey). unfold target_of in Hin.
    rewrite Hd in Hin. simpl in Hin. congruence. }
  split.
  - apply (halted_notify _ _ _ g2 Hh).
  - destruct (_notify_observer g2) as [r g3] eqn:En.
    apply notify_frame in En. destruct En as [_ Hd]. simpl. now rewrite Hd.
Qed.

Lemma run_stops L g :
  for_each L tt (fun dev _ => stop dev) g
  = (Ok tt, with_calls (app (calls g) (map CallStop L)) g).
Proof.
  revert g. induction L as [|dev r IH]; intros g.
  - simpl. rewrite app_nil_r. now destruct g.
  - cbn [for_each]. rewrite run_bind.
    change (stop dev g)
      with (Ok tt, with_calls (app (calls g) [CallStop dev]) g).
    cbv beta iota. rewrite IH. simpl. now rewrite <- app_assoc.
Qed.

(** X2.  Whatever event the supervisor thread takes from the queue, it
    removes the event, sets the abort flag, forces the governor into its
    initial state and clears the target of every device.  When the step
    does not raise, the devices are told to stop for an [ABORT_EVENT], and
    for no other event. *)
Theorem worker_event_halts_governor (g : Governor) (event : Event)
    (source : option string) (rest : list (Event * option string)) :
  queue g = (event, source) :: rest ->
  let r := _worker_iteration g in
  queue (snd r) = rest /\
  abort_transition (snd r) = true /\
  current_state (snd r) = init_state g /\
  (forall dev d, Dict.get dev (devices (snd r)) = Some d ->
                 d_target d = None) /\
  (fst r = Ok tt ->
   calls (snd r)
   = app (calls g)
       (if Event_eqb event ABORT_EVENT
        then map CallStop (Dict.keys (devices g)) else [])).
Proof.
  intros Hq r. unfold r, _worker_iteration.
  rewrite (run_gets queue), Hq, run_modify.
  replace (is_abort_event event) with true by now destruct event.
  cbv iota. rewrite run_modify, (run_gets init_state).
  set (g1 := with_abort_transition true (with_queue rest g)).
  change (init_state g1) with (init_state g).
  destruct (set_state_forced_halts rest (calls g) g1) as [Hh Hk];
    try reflexivity.
  change (init_state g1) with (init_state g) in Hh, Hk.
  change (devices g1) with (devices g) in Hk.
  rewrite run_bind.
  destruct (set_state (init_state g) true g1) as [[[]|e] g2]; cbn [snd] in *.
  2: { destruct Hh as (? & ? & ? & ? & ? & ?). repeat split; auto.
       discriminate. }
  assert (Hstops :
    (if Event_eqb event ABORT_EVENT
     then ds ← gets devices;
          for_each (Dict.keys ds) tt (fun dev _ => stop dev)
     else mret tt) g2
    = (Ok tt,
       with_calls
         (app (calls g2)
            (if Event_eqb event ABORT_EVENT
             then map CallStop (Dict.keys (devices g)) else [])) g2)).
  { destruct (Event_eqb event ABORT_EVENT).
    - rewrite (run_gets devices), run_stops, Hk. reflexivity.
    - rewrite app_nil_r. now destruct g2. }
  rewrite run_bind, Hstops.
  match goal with |- context [with_calls ?c g2] => set (c' := c) end.
  assert (Hh' : halted (init_state g) rest c' (with_calls c' g2)).
  { destruct Hh as (? & ? & ? & ? & ? & ?). unfold halted. simpl.
    repeat split; auto. }
  apply halted_check_fault_state in Hh'.
  destruct Hh' as (? & ? & ? & ? & Hc & ?). repeat split; auto.
  intros _. rewrite Hc. unfold c'.
  destruct Hh as (_ & _ & _ & _ & -> & _). reflexivity.
Qed.

Lemma worker_event_halts_governor_witness :
  queue Examples.abort_requested_governor = [(ABORT_EVENT, None)] /\
  queue (snd (_worker_iteration Examples.abort_requested_governor)) = [] /\
  abort_transition (snd (_worker_iteration Examples.abort_requested_governor))
  = true /\
  calls (snd (_worker_iteration Examples.abort_requested_governor))
  = [CallStop "valve"; CallStop "motor"].
Proof.
  destruct (worker_event_halts_governor Examples.abort_requested_governor
              ABORT_EVENT None [] eq_refl) as (Hq & Ha & _ & _ & Hc).
  split; [reflexivity|].
  split; [exact Hq|]. split; [exact Ha|exact (Hc eq_refl)].
Defined.

End SupervisionFacts.

(** * Facts about transitions *)

Module TransitionFacts.
Import Engine EngineFacts MethodFacts.

(** No observer is attached. *)
Definition unobserved (g : Governor) : Prop := observer g = false.

Ltac unobserved_tac :=
  pres_tac ltac:(idtac; intros ? ?; unfold unobserved in *; simpl;
                 assumption).

Lemma unobserved_notify : preserves unobserved _notify_observer.
Proof. unfold _notify_observer. unobserved_tac. Qed.

#[export] Hint Resolve unobserved_notify : pres.

Lemma unobserved_set_state s force : preserves unobserved (set_state s force).
Proof. unfold set_state, set_target. unobserved_tac. Qed.

#[export] Hint Resolve unobserved_set_state : pres.

Lemma unobserved_yield : preserves unobserved yield.
Proof.
  apply preserves_yield.
  - intros g ds H. exact H.
  - intros g s H. exact H.
  - intros. unfold device_event. unobserved_tac.
  - unfold _worker_iteration, check_fault_state, stop. unobserved_tac.
  - intros. unfold set_enabled. unobserved_tac.
  - intros. unfold set_state_device_limit, set_limits. unobserved_tac.
  - intros. unfold set_device_position. unobserved_tac.
Qed.

#[export] Hint Resolve unobserved_yield : pres.

Lemma unobserved__do_transition dest :
  preserves unobserved (_do_transition dest).
Proof.
  assert (Hseq : forall tgs seq moved,
            preserves unobserved (run_sequence tgs seq moved)).
  { intros tgs seq. induction seq as [|it rest IH]; intros moved; simpl.
    - apply preserves_ret.
    - unfold move_devices, wait_devices, move, wait, set_target.
      unobserved_tac. }
  unfold _do_transition, set_device_position, set_target. unobserved_tac.
Qed.

Lemma notify_unobserved g :
  observer g = false -> _notify_observer g = (Ok tt, g).
Proof.
  intros H. unfold _notify_observer. rewrite (run_gets observer), H.
  reflexivity.
Qed.

(** *** Exceptions *)

(** A computation that changes nothing when it raises. *)
Definition raise_pure {A} (m : M A) : Prop :=
  forall g e g', m g = (Raise e, g') -> g' = g.

Lemma raise_pure_bind {A B} (m : M A) (k : A -> M B) :
  pure m -> (forall a, raise_pure (k a)) -> raise_pure (m ≫= k).
Proof.
  intros Hm Hk g e g' H. rewrite run_bind in H. specialize (Hm g).
  destruct (m g) as [[a|e'] g1]; simpl in Hm; subst g1.
  - eapply Hk. exact H.
  - now injection H as _ <-.
Qed.

Lemma notify_raise_pure : raise_pure _notify_observer.
Proof.
  unfold _notify_observer.
  apply raise_pure_bind; [auto with pure|]. intros obs.
  destruct (negb obs); [intros g e g' H; discriminate|].
  repeat (apply raise_pure_bind; [reads_tac|]; intro).
  intros ? ? ? H. discriminate.
Qed.

Lemma try_except_log (m : M Exit) g :
  try_except (_ ← m; mret tt) (fun e => logmsg (LogException e)) g
  = (Ok tt, snd (try_except (_ ← m; mret tt)
                   (fun e => logmsg (LogException e)) g)).
Proof.
  unfold try_except. rewrite run_bind.
  destruct (m g) as [[a|e] g1]; reflexivity.
Qed.

(** X3.  [do_transition] raises only what a notification of the observer
    raises.  If the first notification, sent with the status [BUSY],
    raises, the exception leaves [do_transition] with the status still
    [BUSY] and nothing else changed.  Otherwise what [_do_transition]
    raises is caught, and [do_transition] ends as its last notification
    does, sent with a status other than [BUSY] and with the abort flag
    cleared.  Without an observer it returns normally. *)
Theorem do_transition_ends_as_its_notification (g : Governor)
    (dest : string) :
  let first := _notify_observer (with_status STATUS_BUSY g) in
  let r := do_transition dest g in
  (forall e, fst first = Raise e ->
             r = (Raise e, with_status STATUS_BUSY g)) /\
  (fst first = Ok tt ->
   exists g1,
     status g1 <> STATUS_BUSY /\ abort_transition g1 = false /\
     r = _notify_observer g1) /\
  (observer g = false ->
   fst r = Ok tt /\ status (snd r) <> STATUS_BUSY /\
   abort_transition (snd r) = false).
Proof.
  intros first r. subst first.
  set (first := _notify_observer (with_status STATUS_BUSY g)).
  assert (Hrun : forall g0, first = (Ok tt, g0) ->
            exists g1,
              status g1 <> STATUS_BUSY /\ abort_transition g1 = false /\
              r = _notify_observer g1 /\
              (observer g0 = false -> observer g1 = false)).
  { intros g0 Hfirst. unfold r, do_transition.
    rewrite run_modify, run_bind. fold first. rewrite Hfirst.
    rewrite run_modify, run_bind, yield_returns.
    set (g2 := snd (yield (with_abort_transition false g0))).
    rewrite run_bind, try_except_log.
    set (g3 := snd (try_except _ _ g2)).
    rewrite run_bind, yield_returns.
    set (g4 := snd (yield g3)).
    rewrite (run_gets status).
    assert (Hobs : observer g0 = false -> observer g4 = false).
    { intros H0. apply (unobserved_yield g3).
      apply (preserves_try_except unobserved
               (_ ← _do_transition dest; mret tt)
               (fun e => logmsg (LogException e))).
      - apply preserves_bind; [apply unobserved__do_transition|].
        intros. apply preserves_ret.
      - intros. unfold logmsg. unobserved_tac.
      - apply (unobserved_yield (with_abort_transition false g0)).
        exact H0. }
    exists (with_abort_transition false
              (if Status_eqb (status g4) STATUS_BUSY
               then with_status STATUS_IDLE g4 else g4)).
    destruct (status g4) eqn:Es; cbn [Status_eqb]; cbv iota; simpl;
      rewrite ?Es; repeat split; auto; discriminate. }
  split; [|split].
  - intros e He. unfold r, do_transition. rewrite run_modify, run_bind.
    fold first. destruct first as [r0 g0] eqn:Ef. cbn [fst] in He. subst r0.
    apply notify_raise_pure in Ef. now subst g0.
  - intros Hok. destruct first as [r0 g0] eqn:Ef. cbn [fst] in Hok. subst r0.
    destruct (Hrun g0 eq_refl) as (g1 & ? & ? & ? & _). eauto.
  - intros Hobs.
    assert (Hfirst : first = (Ok tt, with_status STATUS_BUSY g))
      by (apply notify_unobserved; exact Hobs).
    destruct (Hrun _ Hfirst) as (g1 & Hs & Ha & Hr & Ho).
    rewrite Hr, notify_unobserved by (apply Ho; exact Hobs). auto.
Qed.

(** *** A state without transitions *)

Lemma notify_without_transitions g :
  observer g = true -> states g <> [] ->
  Dict.get (current_state g) (transitions g) = None ->
  _notify_observer g = (Raise (KeyError (current_state g)), g).
Proof.
  intros Hobs Hst Hnone. unfold _notify_observer.
  rewrite (run_gets observer), Hobs. cbn [negb]. cbv iota.
  rewrite (run_gets states).
  destruct (states g) as [|[s st] rest]; [congruence|].
  rewrite run_bind. cbn [for_each]. rewrite run_bind.
  rewrite (run_gets current_state), run_bind, run_reachable_states.
  cbn [default]. cbv zeta. rewrite Hnone. reflexivity.
Qed.

Lemma do_transition_first_notification g dest e :
  fst (_notify_observer (with_status STATUS_BUSY g)) = Raise e ->
  do_transition dest g = (Raise e, with_status STATUS_BUSY g).
Proof.
  intros He. unfold do_transition. rewrite run_modify, run_bind.
  destruct (_notify_observer (with_status STATUS_BUSY g)) as [r0 g0] eqn:Ef.
  cbn [fst] in He. subst r0. apply notify_raise_pure in Ef. now subst g0.
Qed.

(** X4.  With an observer registered and a state declared, in a current
    state that is the origin of no entry of the transition table the
    notification raises [KeyError]: [do_transition] raises that error and
    leaves the governor in the status [BUSY]. *)
Theorem do_transition_from_state_without_transitions (g : Governor)
    (dest : string) :
  observer g = true -> states g <> [] ->
  Dict.get (current_state g) (transitions g) = None ->
  _notify_observer g = (Raise (KeyError (current_state g)), g) /\
  do_transition dest g
  = (Raise (KeyError (current_state g)), with_status STATUS_BUSY g).
Proof.
  intros Hobs Hst Hnone. split.
  - now apply notify_without_transitions.
  - apply do_transition_first_notification.
    now rewrite (notify_without_transitions (with_status STATUS_BUSY g)).
Qed.

Lemma do_transition_from_state_without_transitions_witness :
  Dict.get "Mid" (transitions Examples.stranded_governor) = None /\
  do_transition "On" Examples.stranded_governor
  = (Raise (KeyError "Mid"),
     with_status STATUS_BUSY Examples.stranded_governor).
Proof.
  split; [reflexivity|].
  apply (do_transition_from_state_without_transitions
           Examples.stranded_governor "On");
    [reflexivity|discriminate|reflexivity].
Defined.

(** *** Enabling and disabling *)

Lemma status_set_state s st force :
  preserves (fun g => status g = s) (set_state st force).
Proof. unfold set_state, _notify_observer, set_target. field_tac. Qed.

Lemma status_notify s : preserves (fun g => status g = s) _notify_observer.
Proof. unfold _notify_observer. field_tac. Qed.

Lemma current_state_notify s :
  preserves (fun g => current_state g = s) _notify_observer.
Proof. unfold _notify_observer. field_tac. Qed.


(** *** The status after a transition *)

(** No other thread is active and the status is [s]. *)
Definition steady (s : Status) (g : Governor) : Prop :=
  status g = s /\ sched g = [].

Ltac steady_tac := field_tac.

Lemma steady_yield s : preserves (steady s) yield.
Proof. intros g Hg. rewrite yield_quiet; [exact Hg|apply Hg]. Qed.

#[export] Hint Resolve steady_yield : pres.

Lemma steady_notify s : preserves (steady s) _notify_observer.
Proof. unfold _notify_observer. steady_tac. Qed.

#[export] Hint Resolve steady_notify : pres.

Lemma steady__do_transition s dest : preserves (steady s) (_do_transition dest).
Proof.
  assert (Hseq : forall tgs seq moved,
            preserves (steady s) (run_sequence tgs seq moved)).
  { intros tgs seq. induction seq as [|it rest IH]; intros moved; simpl.
    - apply preserves_ret.
    - unfold move_devices, wait_devices, move, wait, set_target.
      steady_tac. }
  unfold _do_transition, set_device_position, set_state, set_target.
  steady_tac.
Qed.

(** X6.  When no other thread acts during the transition and the first
    notification does not raise, [do_transition] leaves the governor in
    the status [IDLE], whatever the status was before: a disabled or
    faulty governor is idle afterwards. *)
Theorem do_transition_leaves_idle (g : Governor) (dest : string) :
  sched g = [] ->
  fst (_notify_observer (with_status STATUS_BUSY g)) = Ok tt ->
  status (snd (do_transition dest g)) = STATUS_IDLE.
Proof.
  intros Hs Hfirst. unfold do_transition. rewrite run_modify, run_bind.
  pose proof (steady_notify STATUS_BUSY (with_status STATUS_BUSY g)
                (conj eq_refl Hs)) as H1.
  destruct (_notify_observer (with_status STATUS_BUSY g)) as [r1 g1].
  cbn [fst snd] in *. subst r1.
  rewrite run_modify, run_yield_quiet by apply H1.
  rewrite run_bind, try_except_log.
  set (g2 := snd (try_except _ _ (with_abort_transition false g1))).
  assert (H2 : steady STATUS_BUSY g2).
  { apply (preserves_try_except (steady STATUS_BUSY)
             (_ ← _do_transition dest; mret tt)
             (fun e => logmsg (LogException e))).
    - apply preserves_bind; [apply steady__do_transition|].
      intros. apply preserves_ret.
    - intros. unfold logmsg. steady_tac.
    - exact H1. }
  rewrite run_yield_quiet by apply H2.
  rewrite (run_gets status). destruct H2 as [-> _].
  cbn [Status_eqb]. cbv iota. rewrite !run_modify.
  apply (status_notify STATUS_IDLE). reflexivity.
Qed.

Lemma do_transition_leaves_idle_witness :
  status
    (snd (do_transition "On"
            (with_status STATUS_DISABLED Examples.plant_governor)))
  = STATUS_IDLE.
Proof.
  apply (do_transition_leaves_idle
           (with_status STATUS_DISABLED Examples.plant_governor) "On");
    reflexivity.
Defined.

(** *** A destination that is not reachable *)

(** X7.  On a governor that is not disabled, with no other thread acting,
    [_do_transition] to a destination that is neither the current state
    nor a destination of the current state in the transition table logs
    that the transition cannot be made, and changes nothing else. *)
Theorem transition_to_unreachable_state_is_refused (g : Governor)
    (dest : string) (from_origin : dict (list SeqItem)) :
  sched g = [] -> status g <> STATUS_DISABLED ->
  Dict.get (current_state g) (transitions g) = Some from_origin ->
  dest <> current_state g -> Dict.get dest from_origin = None ->
  _do_transition dest g
  = (Ok ExitUnreachable,
     with_log (app (log g) [LogCantTransition (current_state g) dest]) g).
Proof.
  intros Hs Hen Hfrom Hne Hnone. unfold _do_transition.
  rewrite (run_gets current_state), run_yield_quiet by exact Hs.
  rewrite (run_gets enabled).
  replace (enabled g) with true
    by (unfold enabled; destruct (status g); simpl; congruence).
  cbn [negb]. cbv iota. rewrite run_yield_quiet by exact Hs.
  rewrite run_bind, run_reachable_states. cbn [default]. cbv zeta.
  rewrite Hfrom.
  assert (Hc : contains dest (current_state g :: Dict.keys from_origin)
               = false).
  { unfold contains. cbn [existsb].
    destruct (String.eqb_spec dest (current_state g)) as [|_];
      [contradiction|].
    cbn [orb]. apply not_true_is_false. intros H.
    apply existsb_exists in H. destruct H as (x & Hx & Heq).
    apply String.eqb_eq in Heq. subst x.
    apply DictFacts.keys_get in Hx. destruct Hx as [v Hv]. congruence. }
  rewrite Hc. reflexivity.
Qed.

Lemma transition_to_unreachable_state_is_refused_witness :
  _do_transition "Mid" Examples.plant_governor
  = (Ok ExitUnreachable,
     with_log [LogCantTransition "Off" "Mid"] Examples.plant_governor).
Proof.
  apply (transition_to_unreachable_state_is_refused
           Examples.plant_governor "Mid" [("On", [Single "a"])]);
    [reflexivity|discriminate|reflexivity|discriminate|reflexivity].
Defined.

End TransitionFacts.

(** * Facts about the devices *)

Module DeviceFacts.
Import Engine EngineFacts MethodFacts.

(** The setpoint of a device, when the device exists. *)
Definition setpoint_of (g : Governor) (dev : string)
    : option (option Value) :=
  option_map d_current_setpoint (Dict.get dev (devices g)).

Lemma run_get_target t g :
  get_target t g =
  (match Dict.get (t_state t) (states g) with
   | Some st =>
       match Dict.get (t_device t) (default [] (sc_targets st)) with
       | Some tc =>
           match tc_target tc with
           | Some tn => Ok tn
           | None => Raise (KeyError "target")
           end
       | None => Raise (KeyError (t_device t))
       end
   | None => Raise (KeyError (t_state t))
   end, g).
Proof.
  unfold get_target. rewrite run_bind, run_target_config.
  destruct (Dict.get (t_state t) (states g)); [|reflexivity].
  destruct (Dict.get (t_device t) _); [|reflexivity].
  apply run_item.
Qed.

Lemma get_target_same_states t g g' :
  states g' = states g -> fst (get_target t g') = fst (get_target t g).
Proof. intros H. rewrite !run_get_target, H. reflexivity. Qed.

(** X8.  [move] on a valve, with a target that has a name, clears the
    target of the valve.  For the name [Open] it returns and the setpoint
    becomes 1, for [Closed] it returns and the setpoint becomes 0; for any
    other name it raises [ValueError] and the setpoint is as before. *)
Theorem valve_move_accepts_open_and_closed (g : Governor) (dev : string)
    (d : DeviceObj) (target : Target) (tn : string) :
  Dict.get dev (devices g) = Some d -> d_class d = Valve ->
  fst (get_target target g) = Ok tn ->
  let r := move dev target g in
  target_of (snd r) dev = Some None /\
  (tn = TGT_OPEN ->
   fst r = Ok tt /\ setpoint_of (snd r) dev = Some (Some (VNum 1))) /\
  (tn = TGT_CLOSED ->
   fst r = Ok tt /\ setpoint_of (snd r) dev = Some (Some (VNum 0))) /\
  (tn <> TGT_OPEN -> tn <> TGT_CLOSED ->
   fst r = Raise (ValueError ("Invalid target " ++ tn)) /\
   setpoint_of (snd r) dev = Some (d_current_setpoint d)).
Proof.
  intros Hd Hc Ht r.
  set (g0 := with_calls (app (calls g) [CallMove dev target]) g).
  set (d1 := with_d_target None d).
  set (g1 := with_devices (Dict.set dev d1 (devices g0)) g0).
  set (pos := default (VStr tn)
                (Dict.get tn [(TGT_OPEN, VNum 1); (TGT_CLOSED, VNum 0)])).
  set (g2 := with_devices
               (Dict.set dev (with_d_current_setpoint (Some pos) d1)
                  (devices g1)) g1).
  assert (E1 : set_target dev None g0 = (Ok tt, g1)).
  { rewrite set_target_none. unfold update_device.
    rewrite run_bind, run_device.
    change (devices g0) with (devices g). rewrite Hd. reflexivity. }
  assert (E3 : device dev g1 = (Ok d1, g1)).
  { rewrite run_device. unfold g1. simpl devices.
    now rewrite DictFacts.get_set_eq. }
  assert (E4 : get_target target g1 = (Ok tn, g1)).
  { pose proof (get_target_same_states target g g1 eq_refl) as E.
    rewrite Ht in E. pose proof (pure_get_target target g1) as Hp.
    destruct (get_target target g1) as [r1 g1']. simpl in *. congruence. }
  assert (E2 : position_of dev target g1 = (Ok pos, g1)).
  { unfold position_of, positions.
    rewrite run_bind_assoc, run_bind, E3.
    change (d_class d1) with (d_class d). rewrite Hc.
    rewrite run_ret, run_bind, E4. reflexivity. }
  assert (E5 : update_device dev (with_d_current_setpoint (Some pos)) g1
               = (Ok tt, g2)).
  { unfold update_device. rewrite run_bind, E3. reflexivity. }
  assert (Hrun : r = if String.eqb tn TGT_OPEN || String.eqb tn TGT_CLOSED
                     then (Ok tt, g2)
                     else (Raise (ValueError ("Invalid target " ++ tn)), g1)).
  { unfold r, move. rewrite run_bind.
    change (record_call (CallMove dev target) g) with (Ok tt, g0).
    cbv beta iota. rewrite run_bind, E1. rewrite run_bind, E2.
    rewrite run_bind, E3. change (d_class d1) with (d_class d). rewrite Hc.
    rewrite run_bind, E4.
    destruct (String.eqb tn TGT_OPEN || String.eqb tn TGT_CLOSED);
      [exact E5|reflexivity]. }
  assert (Ht1 : target_of g1 dev = Some None).
  { unfold target_of, g1. simpl devices. now rewrite DictFacts.get_set_eq. }
  assert (Ht2 : target_of g2 dev = Some None).
  { unfold target_of, g2. simpl devices. now rewrite DictFacts.get_set_eq. }
  assert (Hs1 : setpoint_of g1 dev = Some (d_current_setpoint d)).
  { unfold setpoint_of, g1. simpl devices.
    now rewrite DictFacts.get_set_eq. }
  assert (Hs2 : setpoint_of g2 dev = Some (Some pos)).
  { unfold setpoint_of, g2. simpl devices.
    now rewrite DictFacts.get_set_eq. }
  rewrite Hrun. split; [|split; [|split]].
  - destruct (String.eqb tn TGT_OPEN || String.eqb tn TGT_CLOSED); assumption.
  - intros E. unfold pos in Hs2. rewrite E in *. auto.
  - intros E. unfold pos in Hs2. rewrite E in *. auto.
  - intros Ho Hcl.
    destruct (String.eqb_spec tn TGT_OPEN) as [|_]; [contradiction|].
    destruct (String.eqb_spec tn TGT_CLOSED) as [|_]; [contradiction|].
    auto.
Qed.

Lemma valve_move_accepts_open_and_closed_witness :
  fst (get_target {| t_state := "On"; t_device := "valve" |}
         Examples.valve_governor) = Ok "Open" /\
  setpoint_of
    (snd (move "valve" {| t_state := "On"; t_device := "valve" |}
            Examples.valve_governor)) "valve"
  = Some (Some (VNum 1)).
Proof.
  split; [reflexivity|].
  destruct (valve_move_accepts_open_and_closed Examples.valve_governor
              "valve" _ {| t_state := "On"; t_device := "valve" |} "Open"
              eq_refl eq_refl eq_refl) as (_ & Hopen & _).
  exact (proj2 (Hopen eq_refl)).
Defined.

(** *** Writing a position *)

Lemma run_device_config dev g :
  device_config dev g =
  (match Dict.get dev (default [] (rc_devices (config g))) with
   | Some c => Ok c
   | None => Raise (KeyError dev)
   end, g).
Proof. unfold device_config. rewrite (run_gets config). apply run_item. Qed.

(** X10.  For a device other than a valve that has an entry in the
    configuration, [set_device_position] with a value returns [True] and
    writes the configuration back.  If the entry declares positions, the
    positions read afterwards are the declared ones with the new value at
    that position; if it declares none, the configuration is as before and
    the positions read afterwards are empty: the value is lost. *)
Theorem set_device_position_is_read_back (g : Governor)
    (dev position : string) (v : Value) (d : DeviceObj)
    (device_cfgs : dict DeviceCfg) (dc : DeviceCfg) :
  Dict.get dev (devices g) = Some d -> d_class d <> Valve ->
  rc_devices (config g) = Some device_cfgs ->
  Dict.get dev device_cfgs = Some dc ->
  let r := set_device_position dev position (Some v) g in
  fst r = Ok true /\
  disk (snd r) = app (disk g) [config (snd r)] /\
  match dc_positions dc with
  | Some ps =>
      positions dev (snd r) = (Ok (Dict.set position v ps), snd r)
  | None =>
      config (snd r) = config g /\ positions dev (snd r) = (Ok [], snd r)
  end.
Proof.
  intros Hd Hc Hds Hdc r.
  set (g0 := with_log (app (log g) [LogSetPosition dev position v]) g).
  set (g1 := with_config (cfg_set_position dev position v (config g)) g0).
  set (g2 := with_disk (app (disk g1) [config g1]) g1).
  assert (Hr : r = (Ok true, g2)).
  { unfold r, set_device_position, logmsg, commit.
    rewrite run_bind_assoc, run_modify.
    rewrite run_bind_assoc, run_bind, run_device.
    simpl devices. rewrite Hd.
    destruct (d_class d); try contradiction; reflexivity. }
  rewrite Hr. cbn [fst snd]. split; [reflexivity|]. split; [reflexivity|].
  assert (Hpos : forall c,
            Dict.get dev (default [] (rc_devices (config g2))) = Some c ->
            positions dev g2 = (Ok (default [] (dc_positions c)), g2)).
  { intros c Hcfg. unfold positions.
    rewrite run_bind, run_device. change (devices g2) with (devices g).
    rewrite Hd.
    destruct (d_class d); try contradiction;
      now rewrite run_bind, run_device_config, Hcfg. }
  assert (Hcfg : config g2 = cfg_set_position dev position v (config g))
    by reflexivity.
  unfold cfg_set_position in Hcfg. rewrite Hds, Hdc in Hcfg.
  destruct (dc_positions dc) as [ps|] eqn:Eps.
  - rewrite (Hpos {| dc_type := dc_type dc; dc_name := dc_name dc;
                     dc_timeout := dc_timeout dc; dc_pv := dc_pv dc;
                     dc_tolerance := dc_tolerance dc;
                     dc_positions := Some (Dict.set position v ps) |});
      [reflexivity|].
    rewrite Hcfg. simpl. apply DictFacts.get_set_eq.
  - split; [exact Hcfg|]. rewrite (Hpos dc); [now rewrite Eps|].
    now rewrite Hcfg, Hds.
Qed.

Lemma set_device_position_is_read_back_witness :
  positions "motor"
    (snd (set_device_position "motor" "In" (Some (VNum 3))
            Examples.valve_governor))
  = (Ok [("In", VNum 3); ("Out", VNum 0)],
     snd (set_device_position "motor" "In" (Some (VNum 3))
            Examples.valve_governor)).
Proof.
  destruct (set_device_position_is_read_back Examples.valve_governor
              "motor" "In" (VNum 3) _ _ _ eq_refl ltac:(discriminate)
              eq_refl eq_refl) as (_ & _ & H).
  exact H.
Defined.

(** *** The status word of a motor *)

Lemma land_bit (a : Z) (n : Z) :
  (0 <= n)%Z ->
  negb (Z.eqb (Z.land a (2 ^ n)) 0) = Z.testbit a n.
Proof.
  intros Hn. destruct (Z.testbit a n) eqn:Eb.
  - apply negb_true_iff, Z.eqb_neq. intros E.
    apply (f_equal (fun z => Z.testbit z n)) in E.
    rewrite Z.land_spec, Eb, Z.pow2_bits_true, Z.bits_0 in E by exact Hn.
    discriminate.
  - apply negb_false_iff, Z.eqb_eq. apply Z.bits_inj'. intros m Hm.
    rewrite Z.land_spec, Z.bits_0.
    destruct (Z.eq_dec m n) as [->|Hne].
    + now rewrite Eb.
    + rewrite (Z.pow2_bits_false n m) by auto. apply andb_false_r.
Qed.

(** X11.  A status word received for a motor sets its homed flag to bit 14
    of the word; a status word for a device of another class changes
    nothing. *)
Theorem motor_homed_is_bit_14_of_status (g : Governor) (dev : string)
    (d : DeviceObj) (msta : Z) :
  Dict.get dev (devices g) = Some d ->
  let g' := env_step (EnvStatus dev msta) g in
  match d_class d with
  | Motor =>
      Dict.get dev (devices g')
      = Some (with_d_homed (Z.testbit msta 14) d) /\
      forall d', Dict.get dev (devices g') = Some d' ->
                 homed d' = Z.testbit msta 14
  | _ => g' = g
  end.
Proof.
  intros Hd g'. unfold g', env_step. rewrite Hd.
  destruct (d_class d) eqn:Ec; try reflexivity.
  simpl devices. rewrite DictFacts.get_set_eq.
  change 16384%Z with (2 ^ 14)%Z. rewrite land_bit by discriminate.
  split; [reflexivity|]. intros d' [= <-]. unfold homed. simpl.
  now rewrite Ec.
Qed.

Lemma motor_homed_is_bit_14_of_status_witness :
  option_map homed
    (Dict.get "motor"
       (devices
          (env_step (EnvStatus "motor" 16385) Examples.valve_governor)))
  = Some true.
Proof.
  rewrite (proj1 (motor_homed_is_bit_14_of_status Examples.valve_governor
                    "motor" _ 16385 eq_refl)).
  reflexivity.
Defined.

End DeviceFacts.

(** * Facts about what the observer is told *)

Module ObserverFacts.
Import Engine EngineFacts MethodFacts.

(** A loop whose body only reads, and appends entries that satisfy [R]. *)
Lemma for_each_appends {A B} (R : B -> Prop) (l : list A)
    (body : A -> list B -> M (list B)) acc g r g' :
  (forall x acc r g', In x l -> body x acc g = (Ok r, g') ->
     g' = g /\ exists ys, r = app acc ys /\ List.Forall R ys) ->
  for_each l acc body g = (Ok r, g') ->
  g' = g /\ exists ys, r = app acc ys /\ List.Forall R ys.
Proof.
  revert acc. induction l as [|x rest IH]; intros acc Hbody H.
  - injection H as <- <-. split; [reflexivity|]. exists [].
    rewrite app_nil_r. auto.
  - cbn [for_each] in H. inv_bind H as acc1 g1 H1.
    apply Hbody in H1; [|now left].
    destruct H1 as (-> & ys1 & -> & Hys1).
    apply IH in H; [|intros; eapply Hbody; eauto; now right].
    destruct H as (-> & ys2 & -> & Hys2). split; [reflexivity|].
    exists (app ys1 ys2). rewrite app_assoc. split; [reflexivity|].
    apply List.Forall_app. auto.
Qed.

(** A loop whose body only reads, and appends one entry per element. *)
Lemma for_each_maps {A B} (P : A -> B -> Prop) (l : list A)
    (body : A -> list B -> M (list B)) acc g r g' :
  (forall x acc r g', In x l -> body x acc g = (Ok r, g') ->
     g' = g /\ exists y, r = app acc [y] /\ P x y) ->
  for_each l acc body g = (Ok r, g') ->
  g' = g /\ exists ys, r = app acc ys /\ List.Forall2 P l ys.
Proof.
  revert acc. induction l as [|x rest IH]; intros acc Hbody H.
  - injection H as <- <-. split; [reflexivity|]. exists [].
    rewrite app_nil_r. auto.
  - cbn [for_each] in H. inv_bind H as acc1 g1 H1.
    apply Hbody in H1; [|now left].
    destruct H1 as (-> & y & -> & Hy).
    apply IH in H; [|intros; eapply Hbody; eauto; now right].
    destruct H as (-> & ys & -> & Hys). split; [reflexivity|].
    exists (y :: ys). rewrite <- app_assoc. split; [reflexivity|].
    constructor; auto.
Qed.

(** What the observer is told about a state. *)
Definition state_flags (g : Governor) (s : string)
    (y : string * (bool * bool * dict (list Q))) : Prop :=
  let '(state_name, (active, reachable, _)) := y in
  state_name = s /\
  active = String.eqb s (current_state g) /\
  (reachable = true ->
   status g = STATUS_IDLE /\
   (s = current_state g \/
    exists from_origin,
      Dict.get (current_state g) (transitions g) = Some from_origin /\
      In s (Dict.keys from_origin))).

(** What the observer is told about a transition. *)
Definition transition_flags (g : Governor)
    (y : string * string * (bool * bool)) : Prop :=
  let '(origin, dest, (active, reachable)) := y in
  active = String.eqb origin (current_state g)
           && String.eqb dest (next_state g) /\
  (reachable = true ->
   status g = STATUS_IDLE /\ origin = current_state g).

Lemma idle_status g : idle g = true -> status g = STATUS_IDLE.
Proof. unfold idle. destruct (status g); simpl; congruence. Qed.

Lemma contains_In s l : contains s l = true -> In s l.
Proof.
  unfold contains. intros H. apply existsb_exists in H.
  destruct H as (x & Hx & E). apply String.eqb_eq in E. now subst.
Qed.

Lemma reachable_inv g reach g' :
  reachable_states None g = (Ok reach, g') ->
  g' = g /\ exists from_origin,
    Dict.get (current_state g) (transitions g) = Some from_origin /\
    reach = current_state g :: Dict.keys from_origin.
Proof.
  rewrite run_reachable_states. cbn [default]. cbv zeta.
  destruct (Dict.get _ (transitions g)) as [from|]; [|discriminate].
  intros [= <- <-]. eauto.
Qed.

(** X12.  A notification that returns, with an observer registered,
    publishes one snapshot with the name of the governor and one entry per
    declared state, in order.  A state is flagged active exactly when it
    is the current state, and reachable only if the governor is idle and
    the state is the current one or a destination of the current one; a
    transition is flagged active exactly when it goes from the current
    state to the next state, and reachable only if the governor is idle
    and its origin is the current state. *)
Theorem published_snapshot_flags (g g' : Governor) :
  observer g = true ->
  _notify_observer g = (Ok tt, g') ->
  exists snap,
    published g' = app (published g) [snap] /\
    snap_name snap = name g /\
    List.Forall2 (fun p y => state_flags g (fst p) y)
      (states g) (snap_states snap) /\
    List.Forall (transition_flags g) (snap_transitions snap).
Proof.
  intros Hobs H. unfold _notify_observer in H.
  rewrite (run_gets observer), Hobs in H. cbn [negb] in H. cbv iota in H.
  rewrite (run_gets states) in H.
  inv_bind H as sv g1 H1.
  apply (for_each_maps (fun p y => state_flags g (fst p) y)) in H1.
  2: { clear. intros [s st] acc r g' _ H. cbv beta iota in H. cbn [fst].
       rewrite (run_gets current_state) in H.
       inv_bind H as reach g1 H1. apply reachable_inv in H1.
       destruct H1 as (-> & from & Hfrom & ->).
       rewrite (run_gets enabled), (run_gets idle) in H.
       inv_pure H as tgs Htgs. inv_bind H as lims g1 H1.
       assert (g1 = g) as ->.
       { eapply (pure_inv _ _ _ _ _ H1). Unshelve.
         apply pure_for_each. intros [d t] a. pure_tac. }
       injection H as <- <-. split; [reflexivity|]. eexists.
       split; [reflexivity|]. unfold state_flags.
       split; [reflexivity|]. split; [reflexivity|].
       intros Hr. apply andb_true_iff in Hr. destruct Hr as [Hr Hi].
       apply andb_true_iff in Hr. destruct Hr as [Hc _].
       split; [now apply idle_status|].
       apply orb_true_iff in Hc. destruct Hc as [Hc|Hc].
       - apply String.eqb_eq in Hc. now left.
       - apply contains_In in Hc. eauto. }
  destruct H1 as (-> & ys & -> & Hstates). cbn [app] in *.
  rewrite (run_gets transitions) in H.
  inv_bind H as tv g1 H1.
  apply (for_each_appends (transition_flags g)) in H1.
  2: { clear. intros [origin dests] acc r g' _ H. cbv beta iota in H.
       apply (for_each_maps (fun _ y => transition_flags g y)) in H.
       - destruct H as (-> & ys & -> & Hys). split; [reflexivity|].
         exists ys. split; [reflexivity|].
         clear -Hys. induction Hys; constructor; auto.
       - clear. intros dest acc r g' _ H.
         rewrite (run_gets current_state), (run_gets next_state) in H.
         inv_bind H as reachable g1 H1.
         assert (g1 = g /\
                 (reachable = true ->
                  status g = STATUS_IDLE /\ origin = current_state g))
           as [-> Hr].
         { destruct (String.eqb_spec origin (current_state g)) as [->|Hne].
           - inv_bind H1 as reach g2 H2. apply reachable_inv in H2.
             destruct H2 as (-> & _).
             rewrite (run_gets enabled), (run_gets idle) in H1.
             injection H1 as <- <-. split; [reflexivity|]. intros Hr.
             apply andb_true_iff in Hr. destruct Hr as [_ Hi].
             split; [now apply idle_status|reflexivity].
           - injection H1 as <- <-. split; [reflexivity|discriminate]. }
         injection H as <- <-. split; [reflexivity|]. eexists.
         split; [reflexivity|]. unfold transition_flags. auto. }
  destruct H1 as (-> & ts & -> & Htrans). cbn [app] in *.
  rewrite (run_gets devices) in H.
  inv_bind H as dv g1 H1.
  assert (g1 = g) as ->.
  { eapply (pure_inv _ _ _ _ _ H1). Unshelve.
    apply pure_for_each. intros d a. pure_tac. }
  rewrite (run_gets name) in H. unfold modify in H. injection H as <-.
  eexists. simpl. split; [reflexivity|]. auto.
Qed.

Lemma published_snapshot_flags_witness :
  exists snap,
    published
      (snd (_notify_observer (with_observer true Examples.plant_governor)))
    = [snap] /\
    snap_name snap = "gov" /\
    List.Forall2
      (fun p y =>
         state_flags (with_observer true Examples.plant_governor) (fst p) y)
      (states Examples.plant_governor) (snap_states snap) /\
    List.Forall
      (transition_flags (with_observer true Examples.plant_governor))
      (snap_transitions snap).
Proof.
  apply (published_snapshot_flags
           (with_observer true Examples.plant_governor));
    reflexivity.
Defined.

End ObserverFacts.

(** * Facts about the validation steps *)

Module ValidationFacts.
Import ConfigManager.

(** *** Runs of the validation steps *)

Lemma W_bind_run {A B} (m : W A) (k : A -> W B) :
  m ≫= k =
  match m with
  | (Ok a, l) => (fst (k a), app l (snd (k a)))
  | (Raise e, l) => (Raise e, l)
  end.
Proof.
  destruct m as [[a|e] l]; simpl; [|reflexivity]. now destruct (k a).
Qed.

Lemma W_bind_inv {A B} (m : W A) (k : A -> W B) b l :
  m ≫= k = (Ok b, l) ->
  exists a l1 l2, m = (Ok a, l1) /\ k a = (Ok b, l2) /\ l = app l1 l2.
Proof.
  rewrite W_bind_run. destruct m as [[a|e] l1]; [|discriminate].
  destruct (k a) as [r l2] eqn:E. simpl. intros [= -> <-]. eauto 6.
Qed.

Lemma W_ret_bind {A B} (a : A) (k : A -> W B) : mret a ≫= k = k a.
Proof. rewrite W_bind_run. simpl. now destruct (k a). Qed.

Lemma W_ok_bind {A B} (a : A) (k : A -> W B) :
  ((Ok a, []) : W A) ≫= k = k a.
Proof. apply W_ret_bind. Qed.

Lemma W_item_bind {A B} key (o : option A) (k : A -> W B) :
  item key o ≫= k =
  match o with
  | Some a => k a
  | None => (Raise (KeyError key), [])
  end.
Proof. destruct o; [apply W_ret_bind|reflexivity]. Qed.

Lemma W_error_bind {B} e (k : unit -> W B) :
  error e ≫= k = (fst (k tt), e :: snd (k tt)).
Proof. rewrite W_bind_run. reflexivity. Qed.

Lemma W_fail_bind {B} e (k : bool -> W B) :
  (error e;; mret false) ≫= k = (fst (k false), e :: snd (k false)).
Proof. rewrite W_bind_run, W_error_bind. reflexivity. Qed.

(** Runs the reads and returns at the head of a step. *)
Ltac w_run :=
  repeat (progress (rewrite ?W_item_bind, ?W_ret_bind; cbv beta iota)).

Ltac w_run_in H :=
  repeat (progress (rewrite ?W_item_bind, ?W_ret_bind in H;
                    cbv beta iota in H)).

(** The parameters of [mandatory_params] that the mapping lacks. *)
Definition missing (mandatory_params : list string) (has : string -> bool)
    : list string :=
  List.filter (fun param => negb (has param)) mandatory_params.

Lemma check_mandatory_from mandatory_params has where_ acc :
  for_each mandatory_params acc (fun param ok =>
    if negb (has param)
    then error (MissingMandatory param where_);; mret false
    else mret ok)
  = (Ok (acc && forallb has mandatory_params),
     map (fun param => MissingMandatory param where_)
       (missing mandatory_params has)).
Proof.
  revert acc. induction mandatory_params as [|p r IH]; intros acc.
  - simpl. now rewrite andb_true_r.
  - cbn [for_each]. unfold missing. cbn [List.filter forallb].
    destruct (has p); cbn [negb andb map].
    + rewrite W_ret_bind. apply IH.
    + rewrite W_fail_bind, IH. cbn [fst snd andb]. now rewrite andb_false_r.
Qed.

Lemma check_mandatory_run mandatory_params has where_ :
  _check_mandatory mandatory_params has where_
  = (Ok (forallb has mandatory_params),
     map (fun param => MissingMandatory param where_)
       (missing mandatory_params has)).
Proof. apply check_mandatory_from. Qed.

(** X13.  [_check_mandatory] does not raise and does not stop at the first
    missing parameter: it returns [True] exactly when every mandatory
    parameter is present, and logs one error for each missing parameter,
    in the order of the parameters. *)
Theorem check_mandatory_reports_missing (mandatory_params : list string)
    (has : string -> bool) (where_ : string) :
  _check_mandatory mandatory_params has where_
  = (Ok (forallb has mandatory_params),
     map (fun param => MissingMandatory param where_)
       (missing mandatory_params has)).
Proof. apply check_mandatory_from. Qed.

(** *** The result of a step and its log *)

(** A step that threads the flag [ok], entered with [ok = acc]: it
    returns [True] only if it was entered with [True] and logged nothing;
    it returns [False] only if it was entered with [False] or logged
    something. *)
Definition reports (acc : bool) (m : W bool) : Prop :=
  forall b l, m = (Ok b, l) ->
    if b then acc = true /\ l = [] else acc = false \/ l <> [].

Lemma reports_ret acc : reports acc (mret acc).
Proof. intros b l [= <- <-]. destruct acc; auto. Qed.

Lemma reports_false (m : W bool) :
  (forall l, m <> (Ok true, l)) -> reports false m.
Proof. intros H [|] l E; [destruct (H l E)|auto]. Qed.

Lemma reports_fail acc e : reports acc (error e;; mret false).
Proof. intros b l [= <- <-]. right. discriminate. Qed.

Lemma reports_raise acc e l : reports acc (Raise e, l).
Proof. intros b l' H. discriminate. Qed.

Lemma reports_item {A} acc key (o : option A) (k : A -> W bool) :
  (forall a, reports acc (k a)) -> reports acc (item key o ≫= k).
Proof.
  intros H. rewrite W_item_bind. destruct o; [apply H|apply reports_raise].
Qed.

Lemma W_bind_assoc {A B C} (m : W A) (f : A -> W B) (g : B -> W C) :
  (m ≫= f) ≫= g = m ≫= (fun a => f a ≫= g).
Proof.
  rewrite !W_bind_run. destruct m as [[a|e] l]; [|reflexivity].
  rewrite W_bind_run. destruct (f a) as [[b|e] l1]; simpl; [|reflexivity].
  now rewrite app_assoc.
Qed.

Lemma reports_index {A} acc (l : list A) i (k : A -> W bool) :
  (forall a, reports acc (k a)) -> reports acc (index l i ≫= k).
Proof.
  intros H. unfold index. destruct (nth_error l i).
  - rewrite W_ret_bind. apply H.
  - apply reports_raise.
Qed.

(** A step that carries the flag on. *)
Lemma reports_seq acc (m : W bool) (k : bool -> W bool) :
  reports acc m -> (forall acc', reports acc' (k acc')) ->
  reports acc (m ≫= k).
Proof.
  intros Hm Hk b l H. apply W_bind_inv in H.
  destruct H as (a & l1 & l2 & H1 & H2 & ->).
  specialize (Hm _ _ H1). specialize (Hk _ _ _ H2).
  destruct b.
  - destruct Hk as [-> ->]. destruct Hm as [-> ->]. auto.
  - destruct Hk as [->|Hk].
    + destruct Hm as [Hm|Hm]; [auto|]. right.
      intros E. apply app_eq_nil in E. tauto.
    + right. intros E. apply app_eq_nil in E. tauto.
Qed.

(** A check of its own, whose result is then combined with the flag. *)
Lemma reports_sub acc (m : W bool) (k : bool -> W bool) :
  reports true m -> (forall b, reports (acc && b) (k b)) ->
  reports acc (m ≫= k).
Proof.
  intros Hm Hk b l H. apply W_bind_inv in H.
  destruct H as (a & l1 & l2 & H1 & H2 & ->).
  specialize (Hm _ _ H1). specialize (Hk _ _ _ H2).
  destruct b.
  - destruct Hk as [Hk ->]. apply andb_true_iff in Hk. destruct Hk as [-> ->].
    destruct Hm as [_ ->]. auto.
  - destruct Hk as [Hk|Hk].
    + apply andb_false_iff in Hk. destruct Hk as [-> | ->]; [auto|].
      destruct Hm as [Hm|Hm]; [discriminate|]. right.
      intros E. apply app_eq_nil in E. tauto.
    + right. intros E. apply app_eq_nil in E. tauto.
Qed.

Lemma reports_for_each {A} (l : list A) (body : A -> bool -> W bool) acc :
  (forall x acc, reports acc (body x acc)) ->
  reports acc (for_each l acc body).
Proof.
  intros H. revert acc. induction l as [|x r IH]; intros acc.
  - apply reports_ret.
  - cbn [for_each]. apply reports_seq; auto.
Qed.

Lemma reports_check_mandatory mandatory_params has where_ :
  reports true (_check_mandatory mandatory_params has where_).
Proof.
  rewrite check_mandatory_run. intros b l [= <- <-].
  unfold missing.
  induction mandatory_params as [|p r IH]; simpl; [auto|].
  destruct (has p); simpl; [exact IH|]. right. discriminate.
Qed.

Lemma reports_check_root_mandatory cfg :
  reports true (_check_root_mandatory cfg).
Proof. apply reports_check_mandatory. Qed.

Lemma reports_check_init_state cfg : reports true (_check_init_state cfg).
Proof.
  unfold _check_init_state. do 2 (apply reports_item; intro).
  destruct (negb _); [apply reports_fail|apply reports_ret].
Qed.

Lemma reports_check_type name device :
  reports true (_check_type name device).
Proof.
  unfold _check_type. apply reports_item; intro.
  destruct (negb _); [apply reports_fail|apply reports_ret].
Qed.

Lemma reports_check_devices cfg : reports true (_check_devices cfg).
Proof.
  unfold _check_devices. apply reports_item; intro.
  apply reports_for_each. intros [name device] acc.
  apply reports_sub; [apply reports_check_mandatory|]. intros [|]; cbn [negb].
  - apply reports_sub; [apply reports_check_type|]. intros type_ok.
    do 2 (apply reports_item; intro).
    apply reports_sub; [apply reports_check_mandatory|]. intros fields_ok.
    destruct acc, type_ok, fields_ok; apply reports_ret.
  - rewrite andb_false_r. apply reports_ret.
Qed.

Lemma reports_check_states cfg : reports true (_check_states cfg).
Proof.
  unfold _check_states. apply reports_item; intro.
  apply reports_for_each. intros [name state] acc.
  apply reports_for_each. intros [device_name device_target] ok.
  apply reports_item; intro.
  destruct (negb _); [apply reports_fail|].
  apply reports_sub; [apply reports_check_mandatory|].
  assert (Hrest : forall ok target_name,
    reports ok
      (devices ← item "devices" (rc_devices cfg);
       dcfg ← item device_name (Dict.get device_name devices);
       match dc_positions dcfg with
       | Some positions =>
           if negb (Dict.mem target_name positions)
           then t ← item "target" (tc_target device_target);
                error (InvalidTarget name device_name t);;
                mret false
           else mret ok
       | None => mret ok
       end)).
  { intros ok' target_name. do 2 (apply reports_item; intro).
    destruct (dc_positions _); [|apply reports_ret].
    destruct (negb _); [|apply reports_ret].
    apply reports_item; intro. apply reports_fail. }
  intros [|]; cbn [negb].
  - rewrite andb_true_r, W_bind_assoc. apply reports_item; intro.
    rewrite W_ret_bind. apply Hrest.
  - rewrite andb_false_r, W_ret_bind. apply Hrest.
Qed.

Lemma reports_check_limits cfg : reports true (_check_limits cfg).
Proof.
  unfold _check_limits. apply reports_item; intro.
  apply reports_for_each. intros [state_name state] acc.
  destruct (sc_targets state); [|apply reports_ret].
  apply reports_for_each. intros [device device_target] ok.
  do 2 (apply reports_item; intro).
  do 2 (apply reports_index; intro).
  destruct (negb _); [apply reports_fail|apply reports_ret].
Qed.

Lemma reports_flag acc (b : bool) e :
  reports acc (if b then error e;; mret false else mret acc).
Proof. destruct b; [apply reports_fail|apply reports_ret]. Qed.

Lemma reports_check_transitions cfg : reports true (_check_transitions cfg).
Proof.
  unfold _check_transitions. apply reports_item; intro.
  apply reports_for_each. intros [origin transition] acc.
  apply reports_item; intro.
  apply reports_seq; [apply reports_flag|]. intros ok1.
  apply reports_for_each. intros [destination sequence] ok2.
  apply reports_item; intro.
  apply reports_seq; [apply reports_flag|]. intros ok3.
  apply reports_seq; [apply reports_flag|]. intros ok4.
  apply reports_seq.
  { apply reports_for_each. intros device_name ok5.
    apply reports_item; intro. apply reports_flag. }
  intros ok5. do 2 (apply reports_item; intro).
  apply reports_for_each. intros device_name ok6.
  apply reports_item; intro. apply reports_flag.
Qed.

Lemma reports_run_checks cs :
  Forall (reports true) cs -> reports true (run_checks cs).
Proof.
  induction 1 as [|c rest Hc Hrest IH]; [apply reports_ret|].
  cbn [run_checks]. apply reports_sub; [exact Hc|].
  intros [|]; cbn [negb andb]; [exact IH|apply reports_ret].
Qed.

(** X14.  When [check_config] returns, it returns [True] exactly when it has
    logged no error. *)
Theorem check_config_result_matches_log (cfg : RawConfig) (b : bool)
    (l : list CfgError) :
  check_config cfg = (Ok b, l) -> (b = true <-> l = []).
Proof.
  intros H.
  assert (Hr : reports true (check_config cfg)).
  { apply reports_run_checks. unfold checks.
    repeat constructor;
      auto using reports_check_root_mandatory, reports_check_init_state,
        reports_check_devices, reports_check_states, reports_check_limits,
        reports_check_transitions. }
  specialize (Hr _ _ H). destruct b.
  - tauto.
  - destruct Hr as [Hr|Hr]; [discriminate|]. split; [discriminate|tauto].
Qed.

Lemma check_config_result_matches_log_witness :
  ConfigManager.check_config Examples.plant_two_errors
  = (Ok false, [ConfigManager.InvalidInitState "Standby"]) /\
  (false = true <-> [ConfigManager.InvalidInitState "Standby"] = []).
Proof.
  split; [reflexivity|].
  apply (check_config_result_matches_log Examples.plant_two_errors).
  reflexivity.
Defined.

(** *** What an accepted configuration satisfies *)

Lemma for_each_accepts {A} (P : A -> Prop) (l : list A)
    (body : A -> bool -> W bool) acc lg :
  (forall x acc lg, In x l -> body x acc = (Ok true, lg) ->
                    acc = true /\ P x) ->
  for_each l acc body = (Ok true, lg) ->
  acc = true /\ Forall P l.
Proof.
  revert acc lg. induction l as [|x r IH]; intros acc lg Hbody H.
  - injection H as ->. auto.
  - cbn [for_each] in H. apply W_bind_inv in H.
    destruct H as (acc' & l1 & l2 & H1 & H2 & ->).
    apply IH in H2; [|intros; eapply Hbody; eauto; now right].
    destruct H2 as [-> Hr].
    apply Hbody in H1; [|now left]. destruct H1 as [-> Hx]. auto.
Qed.

(** The entry of a device names a registered class and has the fields the
    class requires. *)
Definition device_declared (device : DeviceCfg) : Prop :=
  exists ty cls,
    dc_type device = Some ty /\ device_types_registry ty = Some cls /\
    forall field, In field (REQUIRED_FIELDS cls) ->
                  device_has device field = true.

Lemma check_devices_body name device acc lg :
  (let fmt_name := "device[" ++ name ++ "]" in
   has_type ← _check_mandatory ["type"] (device_has device) fmt_name;
   if negb has_type then mret false
   else
     type_ok ← _check_type name device;
     let ok := if negb type_ok then false else acc in
     ty ← item "type" (dc_type device);
     cls ← item ty (device_types_registry ty);
     fields_ok ← _check_mandatory (REQUIRED_FIELDS cls)
                   (device_has device) fmt_name;
     mret (if negb fields_ok then false else ok)) = (Ok true, lg) ->
  acc = true /\ device_declared device.
Proof.
  cbv zeta. rewrite check_mandatory_run, W_bind_run.
  cbn [fst snd forallb].
  change (device_has device "type") with (is_some (dc_type device)).
  unfold _check_type.
  destruct (dc_type device) as [ty|] eqn:Ety; cbn [is_some andb negb];
    [|discriminate].
  rewrite W_item_bind.
  destruct (device_types_registry ty) as [cls|] eqn:Ecls;
    cbn [is_some negb].
  - rewrite W_ret_bind. cbn [negb]. rewrite !W_item_bind, Ecls.
    rewrite check_mandatory_run, W_bind_run. cbn [fst snd].
    destruct (forallb _ _) eqn:Ef; cbn [negb]; intros H;
      apply (f_equal fst) in H; cbn in H; [|discriminate].
    injection H as ->. split; [reflexivity|].
    exists ty, cls. split; [exact Ety|]. split; [exact Ecls|].
    rewrite forallb_forall in Ef. exact Ef.
  - rewrite W_fail_bind. cbn [negb]. rewrite !W_item_bind, Ecls.
    discriminate.
Qed.

Lemma check_devices_sound (cfg : RawConfig) (l : list CfgError) :
  _check_devices cfg = (Ok true, l) ->
  exists devices,
    rc_devices cfg = Some devices /\
    forall name device, In (name, device) devices -> device_declared device.
Proof.
  unfold _check_devices. rewrite W_item_bind.
  destruct (rc_devices cfg) as [ds|]; [|discriminate].
  intros H. exists ds. split; [reflexivity|].
  apply (for_each_accepts (fun p => device_declared (snd p))) in H.
  - destruct H as [_ H]. rewrite Forall_forall in H.
    intros name device Hin. apply (H (name, device)).
    now apply list_elem_of_In.
  - intros [name device] acc lg _ Hb. eapply check_devices_body. exact Hb.
Qed.

Lemma for_each_raise_inv {A B} (l : list A) (body : A -> B -> W B) acc e lg :
  for_each l acc body = (Raise e, lg) ->
  exists x acc' l1 l2,
    In x l /\ body x acc' = (Raise e, l2) /\ lg = app l1 l2.
Proof.
  revert acc lg. induction l as [|x r IH]; intros acc lg H; [discriminate|].
  cbn [for_each] in H. rewrite W_bind_run in H.
  destruct (body x acc) as [[acc'|e'] l1] eqn:Eb.
  - destruct (for_each r acc' body) as [res l2] eqn:Er. cbn [fst snd] in H.
    injection H as -> <-.
    apply IH in Er. destruct Er as (y & acc2 & la & lb & Hy & Hb & ->).
    exists y, acc2, (app l1 la), lb. rewrite app_assoc.
    split; [now right|]. split; [exact Hb|reflexivity].
  - injection H as -> <-. exists x, acc, [], l1.
    split; [now left|]. split; [exact Eb|reflexivity].
Qed.

(** The entry of a device names a class that is not registered. *)
Definition unregistered (devices : dict DeviceCfg) (name ty : string)
    : Prop :=
  exists device,
    In (name, device) devices /\ dc_type device = Some ty /\
    device_types_registry ty = None.

(** X15.  When the configuration has the key ['devices'], [_check_devices]
    raises exactly when a device names a type that is not registered: the
    exception is the [KeyError] of that type, raised after the error of
    [_check_type] for the device has been logged. *)
Theorem check_devices_unregistered_type_raises (cfg : RawConfig)
    (devices : dict DeviceCfg) :
  rc_devices cfg = Some devices ->
  ((exists name ty, unregistered devices name ty) ->
   exists e, fst (_check_devices cfg) = Raise e) /\
  (forall e, fst (_check_devices cfg) = Raise e ->
     exists name ty,
       unregistered devices name ty /\ e = KeyError ty /\
       In (BadDeviceType name) (snd (_check_devices cfg))).
Proof.
  intros Hds. unfold _check_devices. rewrite Hds, W_item_bind. split.
  - intros (name & ty & device & Hin & Hty & Hreg).
    match goal with |- exists e, fst ?m = _ =>
      assert (Hr : ConfigFacts.raises m) end.
    { eapply ConfigFacts.raises_for_each; [exact Hin|]. intros acc.
      cbv beta iota zeta. unfold ConfigFacts.raises.
      rewrite check_mandatory_run, W_bind_run.
      cbn [fst snd forallb].
      change (device_has device "type") with (is_some (dc_type device)).
      unfold _check_type. rewrite Hty. cbn [is_some andb negb].
      rewrite W_item_bind, Hreg. cbn [is_some negb].
      rewrite W_fail_bind. cbn [negb]. rewrite !W_item_bind, Hreg.
      reflexivity. }
    unfold ConfigFacts.raises in Hr.
    match goal with |- exists e, fst ?m = _ => destruct (fst m) as [b|e] end;
      [discriminate|eauto].
  - intros e He.
    match goal with H : fst ?m = _ |- _ =>
      destruct m as [r lg] eqn:E end.
    cbn [fst snd] in *. subst r.
    apply for_each_raise_inv in E.
    destruct E as ([name device] & acc & l1 & l2 & Hin & Hb & ->).
    cbv beta iota zeta in Hb.
    rewrite check_mandatory_run, W_bind_run in Hb.
    cbn [fst snd forallb] in Hb.
    change (device_has device "type") with (is_some (dc_type device)) in Hb.
    unfold _check_type in Hb.
    destruct (dc_type device) as [ty|] eqn:Ety; cbn [is_some andb negb] in Hb;
      [|discriminate].
    rewrite W_item_bind in Hb.
    destruct (device_types_registry ty) as [cls|] eqn:Ecls;
      cbn [is_some negb] in Hb.
    + rewrite W_ret_bind in Hb. cbn [negb] in Hb.
      rewrite !W_item_bind, Ecls in Hb.
      rewrite check_mandatory_run, W_bind_run in Hb.
      discriminate.
    + rewrite W_fail_bind in Hb. cbn [negb] in Hb.
      rewrite !W_item_bind, Ecls in Hb.
      injection Hb as <- <-.
      exists name, ty. split; [exists device; auto|]. split; [reflexivity|].
      rewrite !in_app_iff. right. right. now left.
Qed.

Lemma check_devices_unregistered_type_raises_witness :
  fst (ConfigManager._check_devices Examples.plant_unknown_type)
  = Raise (KeyError "Pump") /\
  exists name ty,
    unregistered
      [("a", Examples.device_cfg "Device" None Examples.in_out);
       ("b", Examples.device_cfg "Pump" None Examples.in_out)] name ty /\
    KeyError "Pump" = KeyError ty /\
    In (ConfigManager.BadDeviceType name)
      (snd (ConfigManager._check_devices Examples.plant_unknown_type)).
Proof.
  split; [reflexivity|].
  apply (proj2 (check_devices_unregistered_type_raises
                  Examples.plant_unknown_type _ eq_refl)).
  reflexivity.
Defined.

Lemma flag_inv (c ok : bool) e l :
  (if c then error e;; mret false else mret ok : W bool) = (Ok true, l) ->
  c = false /\ ok = true /\ l = [].
Proof. destruct c; [discriminate|]. intros [= -> <-]. auto. Qed.

(** The target of a state for a device: the device is declared, the
    target has a name and limits, and the name is one of the positions of
    the device when the device declares positions. *)
Definition target_declared (cfg : RawConfig) (device_name : string)
    (device_target : TargetCfg) : Prop :=
  exists devices dcfg target_name limits,
    rc_devices cfg = Some devices /\
    Dict.get device_name devices = Some dcfg /\
    tc_target device_target = Some target_name /\
    tc_limits device_target = Some limits /\
    forall positions, dc_positions dcfg = Some positions ->
                      Dict.mem target_name positions = true.

Lemma check_states_sound (cfg : RawConfig) (l : list CfgError) :
  _check_states cfg = (Ok true, l) ->
  exists states,
    rc_states cfg = Some states /\
    forall name state targets device_name device_target,
      In (name, state) states ->
      sc_targets state = Some targets ->
      In (device_name, device_target) targets ->
      target_declared cfg device_name device_target.
Proof.
  unfold _check_states. rewrite W_item_bind.
  destruct (rc_states cfg) as [sts|]; [|discriminate].
  intros H. exists sts. split; [reflexivity|].
  apply (for_each_accepts (fun p =>
           Forall (fun q => target_declared cfg (fst q) (snd q))
             (default [] (sc_targets (snd p))))) in H.
  - destruct H as [_ H]. intros name state targets dev tc Hin Ht Hd.
    rewrite Forall_forall in H. specialize (H (name, state)).
    cbn [snd] in H. rewrite Ht in H. cbn [default] in H.
    rewrite Forall_forall in H.
    apply (H ltac:(now apply list_elem_of_In) (dev, tc)).
    now apply list_elem_of_In.
  - intros [name state] acc lg _ Hb. cbv beta iota in Hb. cbn [snd].
    eapply for_each_accepts; [|exact Hb].
    clear Hb. intros [device_name device_target] ok lg' _ Hb.
    cbv beta iota in Hb. cbn [fst snd].
    rewrite W_item_bind in Hb.
    destruct (rc_devices cfg) as [ds|] eqn:Eds; [|discriminate].
    assert (Hdev : exists dcfg, Dict.get device_name ds = Some dcfg).
    { unfold Dict.mem in Hb. destruct (Dict.get device_name ds); [eauto|].
      discriminate. }
    destruct Hdev as [dcfg Edev].
    replace (Dict.mem device_name ds) with true in Hb
      by (unfold Dict.mem; now rewrite Edev).
    cbn [negb] in Hb.
    rewrite check_mandatory_run in Hb. apply W_bind_inv in Hb.
    destruct Hb as (b & l1 & l2 & H1 & Hb & ->). injection H1 as <- _.
    cbn [forallb] in Hb.
    change (target_has device_target "target")
      with (is_some (tc_target device_target)) in Hb.
    change (target_has device_target "limits")
      with (is_some (tc_limits device_target)) in Hb.
    assert (Hrest : forall ok' target_name lg0,
      (devices ← item "devices" (Some ds);
       dcfg ← item device_name (Dict.get device_name devices);
       match dc_positions dcfg with
       | Some positions =>
           if negb (Dict.mem target_name positions)
           then t ← item "target" (tc_target device_target);
                error (InvalidTarget name device_name t);;
                mret false
           else mret ok'
       | None => mret ok'
       end) = (Ok true, lg0) ->
      ok' = true /\
      forall positions, dc_positions dcfg = Some positions ->
                        Dict.mem target_name positions = true).
    { intros ok' tn lg0 Hr. w_run_in Hr.
      rewrite Edev in Hr. w_run_in Hr.
      destruct (dc_positions dcfg) as [ps|].
      - destruct (Dict.mem tn ps) eqn:Em; cbn [negb] in Hr.
        + injection Hr as -> _. split; [reflexivity|]. now intros ? [= <-].
        + destruct (tc_target device_target); discriminate.
      - injection Hr as -> _. split; [reflexivity|]. discriminate. }
    destruct (tc_target device_target) as [t|] eqn:Et;
      cbn [is_some andb negb] in Hb.
    + destruct (tc_limits device_target) as [lim|] eqn:El;
        cbn [is_some andb negb] in Hb.
      * rewrite W_bind_assoc, W_item_bind in Hb. cbv beta iota in Hb.
        rewrite W_ret_bind in Hb. apply Hrest in Hb. destruct Hb as [-> Hpos].
        split; [reflexivity|]. exists ds, dcfg, t, lim. auto 10.
      * rewrite W_ret_bind in Hb. apply Hrest in Hb.
        destruct Hb as [Hb _]. discriminate.
    + rewrite W_ret_bind in Hb. apply Hrest in Hb.
      destruct Hb as [Hb _]. discriminate.
Qed.

Lemma for_each_passes {A} (l : list A) (body : A -> bool -> W bool) acc :
  (forall x acc, In x l -> body x acc = (Ok acc, [])) ->
  for_each l acc body = (Ok acc, []).
Proof.
  revert acc. induction l as [|x r IH]; intros acc H; [reflexivity|].
  cbn [for_each]. rewrite H by now left.
  change (Ok acc, @nil CfgError) with (mret acc : W bool).
  rewrite W_ret_bind. apply IH. intros. apply H. now right.
Qed.

(** The limits of a target: a named target whose limits start with a
    lower limit that does not exceed the upper limit. *)
Definition limits_ordered (device_target : TargetCfg) : Prop :=
  exists target_name lower upper rest,
    tc_target device_target = Some target_name /\
    tc_limits device_target = Some (lower :: upper :: rest) /\
    (lower <= upper)%Q.

Lemma check_limits_body state_name device device_target ok :
  (target_name ← item "target" (tc_target device_target);
   limits ← item "limits" (tc_limits device_target);
   lower ← index limits 0;
   upper ← index limits 1;
   if negb (Qle_bool lower upper)
   then error (LimitsInverted state_name device target_name lower upper);;
        mret false
   else mret ok : W bool)
  = match tc_target device_target, tc_limits device_target with
    | None, _ => (Raise (KeyError "target"), [])
    | Some _, None => (Raise (KeyError "limits"), [])
    | Some _, Some ([] | [_]) => (Raise IndexError, [])
    | Some target_name, Some (lower :: upper :: _) =>
        if Qle_bool lower upper then (Ok ok, [])
        else (Ok false,
              [LimitsInverted state_name device target_name lower upper])
    end.
Proof.
  rewrite W_item_bind.
  destruct (tc_target device_target) as [t|]; [|reflexivity].
  rewrite W_item_bind. destruct (tc_limits device_target) as [lim|];
    [|reflexivity].
  destruct lim as [|lower [|upper rest]]; try reflexivity.
  unfold index. cbn [nth_error]. rewrite !W_ret_bind.
  destruct (Qle_bool lower upper); reflexivity.
Qed.

Lemma check_limits_accepts_ordered_limits (cfg : RawConfig) :
  fst (_check_limits cfg) = Ok true <->
  exists states,
    rc_states cfg = Some states /\
    forall name state targets device device_target,
      In (name, state) states ->
      sc_targets state = Some targets ->
      In (device, device_target) targets ->
      limits_ordered device_target.
Proof.
  unfold _check_limits. rewrite W_item_bind.
  destruct (rc_states cfg) as [sts|]; [|split; [discriminate|]].
  2: { intros (? & ? & _). discriminate. }
  split.
  - intros H. exists sts. split; [reflexivity|].
    match type of H with fst ?m = _ => destruct m as [r lg] eqn:E end.
    cbn [fst] in H. subst r.
    apply (for_each_accepts (fun p =>
             Forall (fun q => limits_ordered (snd q))
               (default [] (sc_targets (snd p))))) in E.
    + destruct E as [_ E]. intros name state targets dev tc Hin Ht Hd.
      rewrite Forall_forall in E. specialize (E (name, state)).
      cbn [snd] in E. rewrite Ht in E. cbn [default] in E.
      rewrite Forall_forall in E.
      apply (E ltac:(now apply list_elem_of_In) (dev, tc)).
      now apply list_elem_of_In.
    + intros [name state] acc lg' _ Hb. cbv beta iota in Hb. cbn [snd].
      destruct (sc_targets state) as [tgs|]; cbn [default].
      * eapply for_each_accepts; [|exact Hb]. clear Hb.
        intros [device device_target] ok lg2 _ Hb. cbv beta iota in Hb.
        rewrite check_limits_body in Hb. cbn [snd].
        destruct (tc_target device_target) as [t|] eqn:Et; [|discriminate].
        destruct (tc_limits device_target) as [[|lower [|upper rest]]|]
          eqn:El; try discriminate.
        destruct (Qle_bool lower upper) eqn:Eq; [|discriminate].
        injection Hb as -> _. split; [reflexivity|].
        exists t, lower, upper, rest. apply Qle_bool_iff in Eq. auto.
      * injection Hb as -> _. auto.
  - intros (sts' & [= <-] & H).
    rewrite for_each_passes; [reflexivity|].
    intros [name state] acc Hin. cbv beta iota.
    destruct (sc_targets state) as [tgs|] eqn:Et; [|reflexivity].
    apply for_each_passes. intros [device device_target] ok Hd.
    cbv beta iota. rewrite check_limits_body.
    destruct (H name state tgs device device_target Hin Et Hd)
      as (t & lower & upper & rest & -> & -> & Hle).
    apply Qle_bool_iff in Hle. now rewrite Hle.
Qed.

(** A transition of the configuration: its destination is a declared
    state other than its origin, and every device its sequence names is
    declared and has a target in the destination. *)
Definition transition_declared (cfg : RawConfig)
    (origin destination : string) (sequence : list SeqItem) : Prop :=
  origin <> destination /\
  exists states destination_state,
    rc_states cfg = Some states /\
    Dict.get destination states = Some destination_state /\
    forall device_name, device_name ∈ sequence_devices sequence ->
      exists devices targets,
        rc_devices cfg = Some devices /\
        Dict.mem device_name devices = true /\
        sc_targets destination_state = Some targets /\
        Dict.mem device_name targets = true.

Lemma check_transitions_step cfg origin destination sequence ok lg :
  (states ← item "states" (rc_states cfg);
   ok ← (if negb (Dict.mem destination states)
         then error (InvalidDestination destination);; mret false
         else mret ok);
   ok ← (if String.eqb origin destination
         then error (SelfTransition origin);; mret false
         else mret ok);
   let devs := elements (sequence_devices sequence) in
   ok ← for_each devs ok (fun device_name ok =>
          devices ← item "devices" (rc_devices cfg);
          if negb (Dict.mem device_name devices)
          then error (SequenceUnknownDevice origin destination
                        device_name);;
               mret false
          else mret ok);
   states ← item "states" (rc_states cfg);
   destination_state ← item destination (Dict.get destination states);
   for_each devs ok (fun device_name ok =>
     targets ← item "targets" (sc_targets destination_state);
     if negb (Dict.mem device_name targets)
     then error (SequenceDeviceNotInDestination origin destination
                   device_name);;
          mret false
     else mret ok)) = (Ok true, lg) ->
  ok = true /\ transition_declared cfg origin destination sequence.
Proof.
  intros Hb. rewrite W_item_bind in Hb.
  destruct (rc_states cfg) as [sts|] eqn:Ests; [|discriminate].
  apply W_bind_inv in Hb. destruct Hb as (ok1 & l1 & l1' & H1 & Hb & ->).
  apply W_bind_inv in Hb. destruct Hb as (ok2 & l2 & l2' & H2 & Hb & ->).
  cbv zeta in Hb.
  apply W_bind_inv in Hb. destruct Hb as (ok3 & l3 & l3' & H3 & Hb & ->).
  rewrite W_item_bind in Hb. rewrite W_item_bind in Hb.
  destruct (Dict.get destination sts) as [dst|] eqn:Edst; [|discriminate].
  apply (for_each_accepts (fun device_name =>
           exists targets, sc_targets dst = Some targets /\
                           Dict.mem device_name targets = true)) in Hb.
  2: { intros dn acc lg0 _ Hd. rewrite W_item_bind in Hd.
       destruct (sc_targets dst) as [tgs|]; [|discriminate].
       destruct (Dict.mem dn tgs) eqn:Em; [|discriminate].
       injection Hd as -> _. eauto. }
  destruct Hb as [-> Htargets].
  apply (for_each_accepts (fun device_name =>
           exists devices, rc_devices cfg = Some devices /\
                           Dict.mem device_name devices = true)) in H3.
  2: { intros dn acc lg0 _ Hd. rewrite W_item_bind in Hd.
       destruct (rc_devices cfg) as [ds|]; [|discriminate].
       destruct (Dict.mem dn ds) eqn:Em; [|discriminate].
       injection Hd as -> _. eauto. }
  destruct H3 as [-> Hdevices].
  apply flag_inv in H2. destruct H2 as (Hne & -> & _).
  apply flag_inv in H1. destruct H1 as (_ & -> & _).
  split; [reflexivity|]. split.
  - intros ->. now rewrite String.eqb_refl in Hne.
  - exists sts, dst. split; [exact Ests|]. split; [exact Edst|].
    intros dn Hdn. apply elem_of_elements in Hdn.
    rewrite Forall_forall in Htargets, Hdevices.
    destruct (Htargets dn Hdn) as (tgs & Ht & Hmt).
    destruct (Hdevices dn Hdn) as (ds & Hd & Hmd).
    exists ds, tgs. auto.
Qed.

Lemma check_transitions_sound (cfg : RawConfig) (l : list CfgError) :
  _check_transitions cfg = (Ok true, l) ->
  exists transitions,
    rc_transitions cfg = Some transitions /\
    forall origin transition,
      In (origin, transition) transitions ->
      (exists states, rc_states cfg = Some states /\
                      Dict.mem origin states = true) /\
      forall destination sequence,
        In (destination, sequence) transition ->
        transition_declared cfg origin destination sequence.
Proof.
  unfold _check_transitions. rewrite W_item_bind.
  destruct (rc_transitions cfg) as [trs|]; [|discriminate].
  intros H. exists trs. split; [reflexivity|].
  apply (for_each_accepts (fun p =>
           (exists states, rc_states cfg = Some states /\
                           Dict.mem (fst p) states = true) /\
           Forall (fun q => transition_declared cfg (fst p) (fst q) (snd q))
             (snd p))) in H.
  - destruct H as [_ H]. intros origin transition Hin.
    rewrite Forall_forall in H.
    destruct (H (origin, transition)) as [Ho Hd];
      [now apply list_elem_of_In|].
    split; [exact Ho|]. intros destination sequence Hds.
    rewrite Forall_forall in Hd. apply (Hd (destination, sequence)).
    now apply list_elem_of_In.
  - intros [origin transition] acc lg _ Hb. cbv beta iota in Hb.
    cbn [fst snd]. rewrite W_item_bind in Hb.
    destruct (rc_states cfg) as [sts|] eqn:Ests; [|discriminate].
    apply W_bind_inv in Hb. destruct Hb as (ok1 & l1 & l1' & H1 & Hb & ->).
    apply (for_each_accepts (fun q =>
             transition_declared cfg origin (fst q) (snd q))) in Hb.
    + destruct Hb as [-> Hb]. apply flag_inv in H1.
      destruct H1 as (Hm & -> & _). split; [reflexivity|].
      split; [|exact Hb]. exists sts. split; [reflexivity|].
      now destruct (Dict.mem origin sts).
    + intros [destination sequence] ok lg0 _ Hd. cbv beta iota in Hd.
      cbn [fst snd]. rewrite <- Ests in Hd.
      eapply check_transitions_step. exact Hd.
Qed.

Lemma check_init_state_sound cfg l :
  _check_init_state cfg = (Ok true, l) ->
  exists init states,
    rc_init_state cfg = Some init /\ rc_states cfg = Some states /\
    Dict.mem init states = true.
Proof.
  unfold _check_init_state. rewrite W_item_bind.
  destruct (rc_init_state cfg) as [init|]; [|discriminate].
  rewrite W_item_bind. destruct (rc_states cfg) as [sts|]; [|discriminate].
  destruct (Dict.mem init sts) eqn:E; [|discriminate]. eauto.
Qed.

(** *** The configurations that are accepted *)

Lemma missing_nil mandatory_params has :
  forallb has mandatory_params = true -> missing mandatory_params has = [].
Proof.
  unfold missing. induction mandatory_params as [|p r IH]; [reflexivity|].
  simpl. intros H. apply andb_true_iff in H. destruct H as [-> H]. auto.
Qed.

Lemma check_mandatory_passes mandatory_params has where_ :
  (forall param, In param mandatory_params -> has param = true) ->
  _check_mandatory mandatory_params has where_ = (Ok true, []).
Proof.
  intros H. rewrite check_mandatory_run.
  assert (Hf : forallb has mandatory_params = true)
    by (apply forallb_forall; exact H).
  now rewrite (missing_nil _ _ Hf), Hf.
Qed.

Lemma check_devices_passes cfg devices :
  rc_devices cfg = Some devices ->
  (forall name device, In (name, device) devices -> device_declared device) ->
  _check_devices cfg = (Ok true, []).
Proof.
  intros Hds Hdecl. unfold _check_devices. rewrite Hds, W_item_bind.
  apply for_each_passes. intros [name device] acc Hin.
  destruct (Hdecl name device Hin) as (ty & cls & Hty & Hcls & Hreq).
  cbv beta iota zeta.
  rewrite check_mandatory_passes, W_ok_bind.
  2: { intros p [<-|[]].
       change (device_has device "type") with (is_some (dc_type device)).
       now rewrite Hty. }
  cbn [negb]. unfold _check_type. rewrite Hty, W_item_bind.
  cbv beta iota. rewrite Hcls. cbn [is_some negb].
  rewrite W_ret_bind. cbn [negb]. rewrite !W_item_bind, Hcls.
  rewrite check_mandatory_passes by exact Hreq.
  now rewrite W_ok_bind.
Qed.

Lemma mem_of_get {V} k (d : dict V) v :
  Dict.get k d = Some v -> Dict.mem k d = true.
Proof. unfold Dict.mem. now intros ->. Qed.

Lemma check_states_passes cfg states :
  rc_states cfg = Some states ->
  (forall name state targets device_name device_target,
     In (name, state) states -> sc_targets state = Some targets ->
     In (device_name, device_target) targets ->
     target_declared cfg device_name device_target) ->
  _check_states cfg = (Ok true, []).
Proof.
  intros Hsts Hdecl. unfold _check_states. rewrite Hsts, W_item_bind.
  apply for_each_passes. intros [name state] acc Hin. cbv beta iota.
  destruct (sc_targets state) as [tgs|] eqn:Etgs; [|reflexivity].
  cbn [default].
  apply for_each_passes. intros [device_name device_target] ok Hd.
  destruct (Hdecl _ _ _ _ _ Hin Etgs Hd)
    as (ds & dcfg & t & lim & Hds & Hdev & Ht & Hl & Hpos).
  cbv beta iota. rewrite Hds, W_item_bind. cbv beta iota.
  rewrite (mem_of_get _ _ _ Hdev). cbn [negb].
  rewrite check_mandatory_passes, W_ok_bind.
  2: { intros p [<-|[<-|[]]].
       - change (target_has device_target "target")
           with (is_some (tc_target device_target)). now rewrite Ht.
       - change (target_has device_target "limits")
           with (is_some (tc_limits device_target)). now rewrite Hl. }
  cbn [negb]. rewrite Ht, W_bind_assoc, W_item_bind. cbv beta iota.
  rewrite W_ret_bind, W_item_bind. cbv beta iota.
  rewrite W_item_bind, Hdev.
  destruct (dc_positions dcfg) as [ps|] eqn:Eps; [|reflexivity].
  now rewrite (Hpos ps eq_refl).
Qed.

Lemma check_transitions_passes cfg transitions states :
  rc_transitions cfg = Some transitions ->
  rc_states cfg = Some states ->
  (forall origin transition,
     In (origin, transition) transitions ->
     Dict.mem origin states = true /\
     forall destination sequence,
       In (destination, sequence) transition ->
       transition_declared cfg origin destination sequence) ->
  _check_transitions cfg = (Ok true, []).
Proof.
  intros Htrs Hsts Hdecl. unfold _check_transitions.
  rewrite Htrs, W_item_bind. apply for_each_passes.
  intros [origin transition] acc Hin. cbv beta iota.
  destruct (Hdecl origin transition Hin) as [Hmem Hdest].
  rewrite Hsts, W_item_bind. cbv beta iota. rewrite Hmem. cbn [negb].
  rewrite W_ret_bind. apply for_each_passes.
  intros [destination sequence] ok Hd. cbv beta iota zeta.
  destruct (Hdest destination sequence Hd)
    as (Hne & sts & dst & Hsts' & Hdst & Hdev).
  rewrite Hsts in Hsts'. injection Hsts' as <-.
  rewrite W_item_bind. rewrite (mem_of_get _ _ _ Hdst). cbn [negb].
  rewrite W_ret_bind.
  destruct (String.eqb_spec origin destination) as [|_]; [contradiction|].
  rewrite W_ret_bind.
  rewrite for_each_passes, W_ok_bind.
  2: { intros dev ok' Hdv. apply list_elem_of_In, elem_of_elements in Hdv.
       destruct (Hdev dev Hdv) as (ds & tgs & -> & Hm & _).
       rewrite W_item_bind. now rewrite Hm. }
  rewrite W_item_bind. cbv beta iota. rewrite W_item_bind, Hdst.
  apply for_each_passes.
  intros dev ok' Hdv. apply list_elem_of_In, elem_of_elements in Hdv.
  destruct (Hdev dev Hdv) as (ds & tgs & _ & _ & -> & Hm).
  rewrite W_item_bind. now rewrite Hm.
Qed.

(** A configuration with the mandatory keys and the key ['transitions'],
    whose initial state is declared, whose devices, targets and
    transitions are declared, and whose limits are ordered. *)
Definition well_formed (cfg : RawConfig) : Prop :=
  exists init devices states transitions,
    rc_init_state cfg = Some init /\ rc_devices cfg = Some devices /\
    rc_states cfg = Some states /\ rc_transitions cfg = Some transitions /\
    Dict.mem init states = true /\
    (forall name device,
       In (name, device) devices -> device_declared device) /\
    (forall name state targets device_name device_target,
       In (name, state) states -> sc_targets state = Some targets ->
       In (device_name, device_target) targets ->
       target_declared cfg device_name device_target /\
       limits_ordered device_target) /\
    (forall origin transition,
       In (origin, transition) transitions ->
       Dict.mem origin states = true /\
       forall destination sequence,
         In (destination, sequence) transition ->
         transition_declared cfg origin destination sequence).

Lemma accepted_checks cfg :
  fst (check_config cfg) = Ok true ->
  Forall (fun c => fst c = Ok true) (checks cfg).
Proof. intros H. now apply ConfigFacts.run_checks_true. Qed.

(** X16.  [check_config] returns [True] with an empty log exactly for the
    well-formed configurations: those with the keys ['init_state'],
    ['devices'], ['states'] and ['transitions'], a declared initial state,
    devices of a registered type with the fields of the type, targets with
    a name among the positions of a declared device and ordered limits,
    and transitions between distinct declared states whose devices are
    declared and have a target in the destination. *)
Theorem check_config_accepts_the_well_formed (cfg : RawConfig) :
  check_config cfg = (Ok true, []) <-> well_formed cfg.
Proof.
  split.
  - intros H. apply (f_equal fst) in H. cbn [fst] in H.
    apply ConfigFacts.run_checks_true in H. unfold checks in H.
    repeat match goal with H : List.Forall _ (_ :: _) |- _ =>
      let H1 := fresh "Hc" in
      apply List.Forall_cons_iff in H; destruct H as [H1 H] end.
    clear H.
    destruct (_check_init_state cfg) as [r1 l1] eqn:E1. cbn [fst] in Hc0.
    subst r1. apply check_init_state_sound in E1.
    destruct E1 as (init & sts & Hinit & Hsts & Hmem).
    destruct (_check_devices cfg) as [r2 l2] eqn:E2. cbn [fst] in Hc1.
    subst r2. apply check_devices_sound in E2.
    destruct E2 as (ds & Hds & Hdecl).
    destruct (_check_states cfg) as [r3 l3] eqn:E3. cbn [fst] in Hc2.
    subst r3. apply check_states_sound in E3.
    destruct E3 as (sts' & Hsts' & Htargets).
    rewrite Hsts in Hsts'. injection Hsts' as <-.
    apply check_limits_accepts_ordered_limits in Hc3.
    destruct Hc3 as (sts' & Hsts' & Hlimits).
    rewrite Hsts in Hsts'. injection Hsts' as <-.
    destruct (_check_transitions cfg) as [r5 l5] eqn:E5. cbn [fst] in Hc4.
    subst r5. apply check_transitions_sound in E5.
    destruct E5 as (trs & Htrs & Htransitions).
    exists init, ds, sts, trs. repeat split; eauto.
    + destruct (Htransitions origin transition H) as [(s & Hs & Hm) _].
      congruence.
    + eapply Htransitions; eauto.
    + eapply Htransitions; eauto.
  - intros (init & ds & sts & trs & Hinit & Hds & Hsts & Htrs & Hmem
            & Hdevices & Htargets & Htransitions).
    unfold check_config, checks.
    assert (H1 : _check_root_mandatory cfg = (Ok true, [])).
    { apply check_mandatory_passes. unfold root_has.
      intros p [<-|[<-|[<-|[]]]]; simpl; now rewrite ?Hinit, ?Hds, ?Hsts. }
    assert (H2 : _check_init_state cfg = (Ok true, [])).
    { unfold _check_init_state.
      rewrite Hinit, W_item_bind, Hsts, W_item_bind, Hmem. reflexivity. }
    assert (H3 : _check_devices cfg = (Ok true, []))
      by (eapply check_devices_passes; eauto).
    assert (H4 : _check_states cfg = (Ok true, [])).
    { eapply check_states_passes; [exact Hsts|].
      intros. eapply Htargets; eauto. }
    assert (H5 : fst (_check_limits cfg) = Ok true).
    { apply check_limits_accepts_ordered_limits. exists sts.
      split; [exact Hsts|]. intros. eapply Htargets; eauto. }
    assert (H6 : _check_transitions cfg = (Ok true, []))
      by (eapply check_transitions_passes; eauto).
    assert (H5' : _check_limits cfg = (Ok true, [])).
    { pose proof (reports_check_limits cfg) as Hr.
      destruct (_check_limits cfg) as [r l]. cbn [fst] in H5. subst r.
      destruct (Hr true l eq_refl) as [_ ->]. reflexivity. }
    rewrite H1, H2, H3, H4, H5', H6. reflexivity.
Qed.

End ValidationFacts.

(** * Facts about accepted configurations *)

Module AcceptedFacts.
Import Engine EngineFacts MethodFacts.
Import ValidationFacts.

Lemma Result_bind_ok {A B} (a : A) (k : A -> Result B) : Ok a ≫= k = k a.
Proof. reflexivity. Qed.

Lemma new_device_declared hw device :
  device_declared device ->
  exists d, new_device hw device = Ok d /\ d_target d = None.
Proof.
  intros (ty & cls & Hty & Hcls & Hreq). unfold new_device.
  rewrite Hty. cbn [lookup]. rewrite Result_bind_ok, Hcls.
  cbn [lookup]. rewrite Result_bind_ok.
  destruct cls; [eauto| |].
  - assert (Hpv : device_has device "pv" = true)
      by (apply Hreq; simpl; auto).
    change (device_has device "pv") with (is_some (dc_pv device)) in Hpv.
    destruct (dc_pv device); [|discriminate]. simpl. eauto.
  - assert (Hpv : device_has device "pv" = true)
      by (apply Hreq; simpl; auto).
    change (device_has device "pv") with (is_some (dc_pv device)) in Hpv.
    destruct (dc_pv device); [|discriminate]. simpl. eauto.
Qed.

Lemma build_devices hw (device_cfgs : dict DeviceCfg) acc :
  (forall name device, In (name, device) device_cfgs ->
                       device_declared device) ->
  (forall name d, Dict.get name acc = Some d -> d_target d = None) ->
  exists devs,
    for_each device_cfgs acc (fun '(name, device) acc =>
      d ← new_device (hw name) device;
      mret (Dict.set name d acc)) = Ok devs /\
    (forall name, In name (Dict.keys devs) <->
                  In name (Dict.keys acc) \/ In name (Dict.keys device_cfgs)) /\
    (forall name d, Dict.get name devs = Some d -> d_target d = None).
Proof.
  revert acc. induction device_cfgs as [|[name device] r IH];
    intros acc Hdecl Hacc.
  - exists acc. split; [reflexivity|]. split; [simpl; tauto|exact Hacc].
  - cbn [for_each].
    destruct (new_device_declared (hw name) device) as (d & Hd & Ht).
    { eapply Hdecl. now left. }
    rewrite Hd, !Result_bind_ok.
    destruct (IH (Dict.set name d acc)) as (devs & Hrun & Hkeys & Htg).
    { intros. eapply Hdecl. right. eassumption. }
    { intros n d' Hg. destruct (String.eqb_spec name n) as [->|Hne].
      - rewrite DictFacts.get_set_eq in Hg. congruence.
      - rewrite DictFacts.get_set_ne in Hg by exact Hne. eauto. }
    exists devs. split; [exact Hrun|]. split; [|exact Htg].
    intros n. rewrite Hkeys, DictFacts.keys_set_in. simpl. intuition.
Qed.

Lemma built_devices hw (device_cfgs : dict DeviceCfg) acc devs :
  for_each device_cfgs acc (fun '(name, device) acc =>
    d ← new_device (hw name) device;
    mret (Dict.set name d acc)) = Ok devs ->
  forall name, In name (Dict.keys devs) <->
               In name (Dict.keys acc) \/ In name (Dict.keys device_cfgs).
Proof.
  revert acc. induction device_cfgs as [|[n device] r IH]; intros acc H name.
  - injection H as <-. simpl. tauto.
  - cbn [for_each] in H.
    destruct (new_device (hw n) device) as [d|e]; [|discriminate].
    rewrite !Result_bind_ok in H. apply IH with (name := name) in H.
    rewrite H, DictFacts.keys_set_in. simpl. intuition.
Qed.

Lemma init_devices hw nm cfg g device_cfgs :
  __init__ hw nm cfg = Ok g -> rc_devices cfg = Some device_cfgs ->
  forall name, In name (Dict.keys (devices g)) <->
               In name (Dict.keys device_cfgs).
Proof.
  unfold __init__, _parse_config. intros H Hds name.
  rewrite Hds in H. cbn [lookup] in H. rewrite Result_bind_ok in H.
  match type of H with context [for_each ?a ?b ?c] =>
    destruct (for_each a b c) as [devs|e] eqn:E; [|discriminate]
  end.
  apply built_devices with (name := name) in E.
  rewrite Result_bind_ok in H.
  destruct (rc_states cfg); [|discriminate]. cbn [lookup] in H.
  destruct (rc_init_state cfg); [|discriminate]. cbn [lookup] in H.
  destruct (rc_transitions cfg); [|discriminate].
  injection H as <-. simpl devices. rewrite E. simpl. tauto.
Qed.

(** X17.  From a configuration that [check_config] accepts the constructor
    of [Governor] does not raise: the governor keeps the configuration, is
    idle, is in its initial state, which is a declared state, has one
    device per entry of the configuration, and no device has a target. *)
Theorem accepted_configuration_builds_governor (hw : string -> Hardware)
    (nm : string) (cfg : RawConfig) :
  fst (ConfigManager.check_config cfg) = Ok true ->
  exists g device_cfgs,
    __init__ hw nm cfg = Ok g /\
    rc_devices cfg = Some device_cfgs /\
    config g = cfg /\
    status g = STATUS_IDLE /\
    current_state g = init_state g /\
    Dict.mem (init_state g) (states g) = true /\
    (forall name, In name (Dict.keys (devices g)) <->
                  In name (Dict.keys device_cfgs)) /\
    (forall name d, Dict.get name (devices g) = Some d ->
                    d_target d = None).
Proof.
  intros H. unfold ConfigManager.check_config in H.
  apply ConfigFacts.run_checks_true in H. unfold ConfigManager.checks in H.
  repeat match goal with H : List.Forall _ (_ :: _) |- _ =>
    let H1 := fresh "Hc" in
    apply List.Forall_cons_iff in H; destruct H as [H1 H] end.
  clear H.
  destruct (ConfigManager._check_init_state cfg) as [r1 l1] eqn:E1.
  cbn [fst] in Hc0.
  subst r1. apply check_init_state_sound in E1.
  destruct E1 as (init & sts & Hinit & Hsts & Hmem).
  destruct (ConfigManager._check_devices cfg) as [r2 l2] eqn:E2.
  cbn [fst] in Hc1.
  subst r2. apply check_devices_sound in E2.
  destruct E2 as (ds & Hds & Hdecl).
  destruct (ConfigManager._check_transitions cfg) as [r3 l3] eqn:E3.
  cbn [fst] in Hc4.
  subst r3. apply check_transitions_sound in E3.
  destruct E3 as (trs & Htrs & _).
  destruct (build_devices hw ds [] Hdecl) as (devs & Hrun & Hkeys & Htg);
    [discriminate|].
  eexists. exists ds. split.
  - unfold __init__, _parse_config.
    rewrite Hds, Hsts, Hinit, Htrs. cbn [lookup].
    rewrite Result_bind_ok.
    match goal with |- context [for_each ?a ?b ?c] =>
      replace (for_each a b c) with (Ok devs : Result (dict DeviceObj))
        by (symmetry; exact Hrun)
    end.
    reflexivity.
  - cbn. unfold states. cbn. rewrite Hsts. cbn.
    repeat split; auto.
    + intros Hn. apply Hkeys in Hn. destruct Hn as [[]|Hn]. exact Hn.
    + intros Hn. apply Hkeys. now right.
Qed.

Lemma accepted_configuration_builds_governor_witness :
  exists g device_cfgs,
    __init__ Examples.hardware "gov" Examples.plant = Ok g /\
    rc_devices Examples.plant = Some device_cfgs /\
    config g = Examples.plant /\
    status g = STATUS_IDLE /\
    current_state g = init_state g /\
    Dict.mem (init_state g) (states g) = true /\
    (forall name, In name (Dict.keys (devices g)) <->
                  In name (Dict.keys device_cfgs)) /\
    (forall name d, Dict.get name (devices g) = Some d ->
                    d_target d = None).
Proof.
  apply (accepted_configuration_builds_governor Examples.hardware "gov"
           Examples.plant).
  reflexivity.
Defined.

(** The dictionary of an origin once filled. *)
Definition fill (transition : dict (list SeqItem))
    (empty : dict (list SeqItem)) : dict (list SeqItem) :=
  fold_left (fun d '(destination, sequence) =>
               Dict.set destination sequence d) transition empty.

Lemma fill_get transition empty dest seq :
  Dict.get dest (fill transition empty) = Some seq ->
  In (dest, seq) transition \/ Dict.get dest empty = Some seq.
Proof.
  unfold fill. revert empty.
  induction transition as [|[dst sq] r IH]; intros empty H; [now right|].
  simpl in H. apply IH in H. destruct H as [H|H]; [left; now right|].
  destruct (String.eqb_spec dst dest) as [->|Hne].
  - rewrite DictFacts.get_set_eq in H. injection H as ->. left. now left.
  - rewrite DictFacts.get_set_ne in H by exact Hne. now right.
Qed.

Lemma fill_keeps transition empty dest seq :
  List.NoDup (Dict.keys transition) -> In (dest, seq) transition ->
  Dict.get dest (fill transition empty) = Some seq.
Proof.
  unfold fill. revert empty.
  induction transition as [|[dst sq] r IH]; intros empty Hnd Hin;
    [destruct Hin|].
  simpl in Hnd. apply List.NoDup_cons_iff in Hnd. destruct Hnd as [Hnot Hnd].
  simpl. destruct Hin as [[= -> ->]|Hin]; [|now apply IH].
  clear IH. revert empty.
  assert (Hkeep : forall d, Dict.get dest d = Some seq ->
            Dict.get dest
              (fold_left (fun d '(destination, sequence) =>
                            Dict.set destination sequence d) r d)
            = Some seq).
  { induction r as [|[k v] r IH]; intros d Hd; [exact Hd|].
    simpl. apply IH.
    - intros Hk. apply Hnot. right. exact Hk.
    - now apply List.NoDup_cons_iff in Hnd.
    - rewrite DictFacts.get_set_ne; [exact Hd|].
      intros ->. apply Hnot. now left. }
  intros empty. apply Hkeep. apply DictFacts.get_set_eq.
Qed.

Lemma parse_step_eq init acc origin transition :
  parse_step init acc (origin, transition)
  = Dict.set origin
      (fill transition
         (if negb (String.eqb origin init) then Dict.set init [] [] else []))
      acc.
Proof. reflexivity. Qed.

Lemma table_get init trs acc origin from_origin :
  Dict.get origin (fold_left (parse_step init) trs acc) = Some from_origin ->
  Dict.get origin acc = Some from_origin \/
  exists transition,
    In (origin, transition) trs /\
    from_origin
    = fill transition
        (if negb (String.eqb origin init) then Dict.set init [] [] else []).
Proof.
  revert acc. induction trs as [|[o tr] r IH]; intros acc H; [now left|].
  cbn [fold_left] in H. apply IH in H. destruct H as [H|(t & Hin & Hf)].
  - rewrite parse_step_eq in H.
    destruct (String.eqb_spec o origin) as [->|Hne].
    + rewrite DictFacts.get_set_eq in H. injection H as <-.
      right. exists tr. split; [now left|reflexivity].
    + rewrite DictFacts.get_set_ne in H by exact Hne. now left.
  - right. exists t. split; [now right|exact Hf].
Qed.

Lemma table_keeps init trs acc origin transition :
  List.NoDup (Dict.keys trs) -> In (origin, transition) trs ->
  Dict.get origin (fold_left (parse_step init) trs acc)
  = Some (fill transition
            (if negb (String.eqb origin init)
             then Dict.set init [] [] else [])).
Proof.
  revert acc. induction trs as [|[o tr] r IH]; intros acc Hnd Hin;
    [destruct Hin|].
  simpl in Hnd. apply List.NoDup_cons_iff in Hnd. destruct Hnd as [Hnot Hnd].
  cbn [fold_left]. destruct Hin as [[= -> ->]|Hin]; [|now apply IH].
  assert (Hkeep : forall l acc v,
            ~ In origin (Dict.keys l) -> Dict.get origin acc = Some v ->
            Dict.get origin (fold_left (parse_step init) l acc) = Some v).
  { clear. induction l as [|[k t] l IH]; intros acc v Hk Hv; [exact Hv|].
    cbn [fold_left]. apply IH; [intros H; apply Hk; now right|].
    rewrite parse_step_eq, DictFacts.get_set_ne; [exact Hv|].
    intros ->. apply Hk. now left. }
  apply Hkeep; [exact Hnot|]. rewrite parse_step_eq.
  apply DictFacts.get_set_eq.
Qed.

(** X18.  Every edge of the transition table of a constructed governor is
    either declared in the configuration or the edge added by the
    constructor, with an empty sequence, from an origin other than the
    initial state to the initial state.  When no origin and no destination
    is declared twice, every declared edge is in the table with its
    sequence. *)
Theorem transition_table_holds_declared_and_reset_edges
    (hw : string -> Hardware) (nm : string) (cfg : RawConfig)
    (g : Governor) (trs : dict (dict (list SeqItem))) :
  __init__ hw nm cfg = Ok g ->
  rc_transitions cfg = Some trs ->
  (forall origin from_origin dest seq,
     Dict.get origin (transitions g) = Some from_origin ->
     Dict.get dest from_origin = Some seq ->
     (exists transition,
        In (origin, transition) trs /\ In (dest, seq) transition) \/
     (dest = init_state g /\ origin <> init_state g /\ seq = [])) /\
  (forall origin transition dest seq,
     List.NoDup (Dict.keys trs) -> In (origin, transition) trs ->
     List.NoDup (Dict.keys transition) -> In (dest, seq) transition ->
     exists from_origin,
       Dict.get origin (transitions g) = Some from_origin /\
       Dict.get dest from_origin = Some seq).
Proof.
  intros Hinit Htrs.
  destruct (init_transitions hw nm cfg g Hinit)
    as (init & trs' & Hi & Ht & Hig & _ & Htg & _).
  rewrite Htrs in Ht. injection Ht as <-.
  rewrite Htg, parse_transitions_fold, Hig. split.
  - intros origin from dest seq Hfrom Hseq.
    apply table_get in Hfrom.
    destruct Hfrom as [Hfrom|(transition & Hin & ->)]; [discriminate|].
    apply fill_get in Hseq. destruct Hseq as [Hseq|Hseq].
    + left. eauto.
    + right. destruct (String.eqb_spec origin init) as [->|Hne];
        cbn [negb] in Hseq; [discriminate|].
      simpl in Hseq. destruct (String.eqb_spec dest init) as [->|_];
        [|discriminate].
      injection Hseq as <-. auto.
  - intros origin transition dest seq Hnd Hin Hnd' Hin'.
    eexists. split; [apply table_keeps; eassumption|].
    now apply fill_keeps.
Qed.

Lemma transition_table_holds_declared_and_reset_edges_witness :
  exists from_origin,
    Dict.get "On" (transitions Examples.plant_governor) = Some from_origin /\
    Dict.get "Mid" from_origin = Some [].
Proof.
  destruct (transition_table_holds_declared_and_reset_edges
              Examples.hardware "gov" Examples.plant Examples.plant_governor
              _ eq_refl eq_refl) as [_ H].
  apply (H "On" [("Off", [Single "a"]); ("Mid", [])] "Mid" []).
  - repeat constructor; simpl; intuition discriminate.
  - right. left. reflexivity.
  - repeat constructor; simpl; intuition discriminate.
  - right. left. reflexivity.
Defined.

(** *** The lookups of a transition *)

Lemma mem_get {V} k (d : dict V) :
  Dict.mem k d = true -> exists v, Dict.get k d = Some v.
Proof. unfold Dict.mem. destruct (Dict.get k d); [eauto|discriminate]. Qed.

Lemma step_devices_returns tgs it g :
  (forall i, In i (item_names it) ->
     (exists d, Dict.get i (devices g) = Some d) /\
     (exists t, Dict.get i tgs = Some t)) ->
  exists devs, step_devices tgs it g = (Ok devs, g).
Proof.
  intros H. unfold step_devices. cbv zeta beta.
  destruct it as [i|l]; simpl in H.
  - destruct (H i) as [[d Hd] [t Ht]]; [now left|].
    rewrite run_bind_assoc, run_bind, run_device, Hd.
    rewrite run_bind_assoc, run_bind, run_item, Ht.
    eexists. reflexivity.
  - assert (Hall : forall acc : list (string * Target),
              exists devs,
                for_each l acc (fun i acc =>
                  p ← (_ ← device i; t ← item i (Dict.get i tgs);
                       mret (i, t));
                  mret (app acc [p])) g = (Ok devs, g)); [|apply Hall].
    induction l as [|i r IH]; intros acc; [eexists; reflexivity|].
    cbn [for_each].
    destruct (H i) as [[d Hd] [t Ht]]; [now left|].
    rewrite !run_bind_assoc, run_bind, run_device, Hd.
    rewrite !run_bind_assoc, run_bind, run_item, Ht.
    cbv beta iota. rewrite !run_ret.
    apply IH. intros j Hj. apply H. now right.
Qed.

(** X19.  In a governor built from a configuration that [check_config]
    accepts, for every edge of the transition table the targets of the
    destination can be read, and every step of the sequence finds its
    devices and their targets: these lookups of [_do_transition] raise no
    [KeyError] and change nothing. *)
Theorem accepted_configuration_sequence_lookups
    (hw : string -> Hardware) (nm : string) (cfg : RawConfig)
    (g : Governor) (origin dest : string)
    (from_origin : dict (list SeqItem)) (seq : list SeqItem) :
  fst (ConfigManager.check_config cfg) = Ok true ->
  __init__ hw nm cfg = Ok g ->
  Dict.get origin (transitions g) = Some from_origin ->
  Dict.get dest from_origin = Some seq ->
  exists tgs,
    targets dest g = (Ok tgs, g) /\
    forall it, In it seq ->
      exists devs, step_devices tgs it g = (Ok devs, g).
Proof.
  intros Hok Hinit Hfrom Hseq.
  unfold ConfigManager.check_config in Hok.
  apply ConfigFacts.run_checks_true in Hok.
  unfold ConfigManager.checks in Hok.
  repeat match goal with H : List.Forall _ (_ :: _) |- _ =>
    let H1 := fresh "Hc" in
    apply List.Forall_cons_iff in H; destruct H as [H1 H] end.
  clear Hok.
  destruct (ConfigManager._check_init_state cfg) as [r1 l1] eqn:E1.
  cbn [fst] in Hc0. subst r1. apply check_init_state_sound in E1.
  destruct E1 as (init0 & sts0 & Hinit0 & Hsts0 & Hmem0).
  destruct (ConfigManager._check_transitions cfg) as [r3 l3] eqn:E3.
  cbn [fst] in Hc4. subst r3.
  apply check_transitions_sound in E3.
  destruct E3 as (trs & Htrs & Hdecl).
  destruct (init_transitions hw nm cfg g Hinit)
    as (init & trs' & Hi & Ht & Hig & _ & Htg & Hcfg).
  rewrite Hinit0 in Hi. injection Hi as <-.
  assert (Hstates : states g = sts0)
    by (unfold states; now rewrite Hcfg, Hsts0).
  assert (Hmem : Dict.mem init0 (states g) = true) by now rewrite Hstates.
  rewrite Htrs in Ht. injection Ht as <-.
  rewrite Htg, parse_transitions_fold in Hfrom.
  apply table_get in Hfrom.
  destruct Hfrom as [Hfrom|(transition & Hin & ->)]; [discriminate|].
  apply fill_get in Hseq. destruct Hseq as [Hseq|Hseq].
  - destruct (Hdecl origin transition Hin) as [_ Hd].
    destruct (Hd dest seq Hseq) as (_ & sts & dst & Hsts & Hdst & Hdev).
    rewrite Hsts0 in Hsts. injection Hsts as <-.
    rewrite run_targets, Hstates, Hdst. eexists. split; [reflexivity|].
    intros it Hit. apply step_devices_returns. intros i Hitem.
    assert (Hi' : i ∈ ConfigManager.sequence_devices seq).
    { apply In_sequence_devices. unfold sequence_names.
      apply in_concat. exists (item_names it). split; [|exact Hitem].
      apply in_map. exact Hit. }
    destruct (Hdev i Hi') as (ds & tgs & Hds & Hm & Htg' & Hmt).
    split.
    + apply DictFacts.keys_get.
      apply (init_devices hw nm cfg g ds Hinit Hds).
      destruct (mem_get _ _ Hm) as [v Hv].
      eapply DictFacts.get_keys. exact Hv.
    + rewrite get_targets_map, Htg'.
      change (default [] (Some tgs)) with tgs.
      destruct (mem_get _ _ Hmt) as [v ->]. eauto.
  - assert (seq = [] /\ dest = init0) as [-> ->].
    { destruct (negb (String.eqb origin init0)); [|discriminate].
      simpl in Hseq. destruct (String.eqb_spec dest init0); [|discriminate].
      injection Hseq as <-. auto. }
    destruct (mem_get _ _ Hmem) as [st Hst].
    rewrite run_targets, Hst. eexists. split; [reflexivity|].
    intros it [].
Qed.

Lemma accepted_configuration_sequence_lookups_witness :
  exists tgs,
    targets "On" Examples.plant_governor
    = (Ok tgs, Examples.plant_governor) /\
    forall it, In it [Single "a"] ->
      exists devs,
        step_devices tgs it Examples.plant_governor
        = (Ok devs, Examples.plant_governor).
Proof.
  apply (accepted_configuration_sequence_lookups Examples.hardware "gov"
           Examples.plant Examples.plant_governor "Off" "On"
           [("On", [Single "a"])]);
    reflexivity.
Defined.

Lemma in_set {V} k (v : V) d p :
  In p (Dict.set k v d) -> p = (k, v) \/ In p d.
Proof.
  induction d as [|[k0 v0] r IH]; simpl.
  - intros [<-|[]]. now left.
  - destruct (String.eqb k k0) eqn:E; simpl.
    + apply String.eqb_eq in E. subst k0. intros [<-|H]; auto.
    + intros [<-|H]; auto. apply IH in H. tauto.
Qed.

(** The configuration after [set_state_device_limit]: the one it found,
    or that one with the limits of the target replaced by an ordered
    pair. *)
Lemma set_state_device_limit_config s dev limit value g :
  let g' := snd (set_state_device_limit s dev limit value g) in
  config g' = config g \/
  exists lower upper,
    (lower <= upper)%Q /\
    config g' = cfg_set_limits s dev [lower; upper] (config g).
Proof.
  intros g'. unfold g', set_state_device_limit.
  rewrite run_bind, run_targets.
  destruct (Dict.get s (states g)) as [st|]; [|now left].
  rewrite run_bind, run_item, get_targets_map.
  destruct (Dict.get dev (default [] (sc_targets st))) as [tc|]; [|now left].
  rewrite run_bind.
  pose proof (pure_get_limits {| t_state := s; t_device := dev |} g) as Hp.
  destruct (get_limits {| t_state := s; t_device := dev |} g)
    as [[old|e] g1]; simpl in Hp; subst g1; [|now left].
  rewrite run_bind.
  assert (Hnew : forall new_limits : M (Q * Q),
            pure new_limits ->
            let m := (new_limits ≫= fun new_limits =>
                      if negb (Qle_bool (fst new_limits) (snd new_limits))
                      then logmsg (LogLimitExceeds s dev (fst new_limits)
                                     (snd new_limits));;
                           mret false
                      else
                        set_limits {| t_state := s; t_device := dev |}
                          [fst new_limits; snd new_limits];;
                        commit;;
                        mret true) in
            config (snd (m g)) = config g \/
            exists lower upper,
              (lower <= upper)%Q /\
              config (snd (m g))
              = cfg_set_limits s dev [lower; upper] (config g)).
  { intros nl Hpure m. unfold m. rewrite run_bind. specialize (Hpure g).
    destruct (nl g) as [[[lo hi]|e] g1]; simpl in Hpure; subst g1;
      [|now left].
    cbn [fst snd].
    destruct (Qle_bool lo hi) eqn:Eq; cbn [negb]; [|now left].
    unfold set_limits. rewrite run_bind_assoc, run_bind.
    pose proof (pure_target_config {| t_state := s; t_device := dev |} g)
      as Hp.
    destruct (target_config {| t_state := s; t_device := dev |} g)
      as [[c|e] g1]; simpl in Hp; subst g1; [|now left].
    right. exists lo, hi. split; [now apply Qle_bool_iff|reflexivity]. }
  destruct limit.
  - apply (Hnew (hi ← index old 1; mret (value, hi))). pure_tac.
  - apply (Hnew (lo ← index old 0; mret (lo, value))). pure_tac.
Qed.

(** X20.  [set_state_device_limit] keeps the limits of the configuration
    valid: if [_check_limits] accepts the configuration before the call,
    it accepts it after the call, whatever state, device, limit and value
    are given, and whether the call returns [True], returns [False] or
    raises. *)
Theorem edited_limits_stay_valid (g : Governor) (s dev : string)
    (limit : Limit) (value : Q) :
  fst (ConfigManager._check_limits (config g)) = Ok true ->
  fst (ConfigManager._check_limits
         (config (snd (set_state_device_limit s dev limit value g))))
  = Ok true.
Proof.
  intros Hok.
  destruct (set_state_device_limit_config s dev limit value g)
    as [->|(lower & upper & Hle & ->)]; [exact Hok|].
  apply check_limits_accepts_ordered_limits in Hok.
  destruct Hok as (sts & Hsts & Hall).
  apply check_limits_accepts_ordered_limits.
  unfold cfg_set_limits. rewrite Hsts.
  destruct (Dict.get s sts) as [st|] eqn:Est; [|eauto].
  destruct (sc_targets st) as [tgs|] eqn:Etgs; [|eauto].
  destruct (Dict.get dev tgs) as [tc|] eqn:Etc; [|eauto].
  eexists. split; [reflexivity|].
  intros name state targets device device_target Hin Ht Hd.
  apply in_set in Hin. destruct Hin as [[= -> ->]|Hin]; [|eauto].
  simpl in Ht. injection Ht as <-.
  apply in_set in Hd. destruct Hd as [[= -> ->]|Hd].
  - apply DictFacts.get_in in Est, Etc.
    destruct (Hall _ _ _ _ _ Est Etgs Etc) as (t & _ & _ & _ & Htn & _).
    exists t, lower, upper, []. auto.
  - apply DictFacts.get_in in Est. eauto.
Qed.

Lemma edited_limits_stay_valid_witness :
  fst (ConfigManager._check_limits
         (config (snd (set_state_device_limit "On" "a" LIMIT_HIGH (-5)
                         Examples.plant_governor))))
  = Ok true.
Proof.
  apply (edited_limits_stay_valid Examples.plant_governor "On" "a"
           LIMIT_HIGH (-5)).
  reflexivity.
Defined.

End AcceptedFacts.

(** * A transition that completes while the other threads run (C1) *)

Module CompletionFacts.
Import Engine EngineFacts MethodFacts SupervisionFacts TransitionFacts.

(** The governor is on course: it is busy and the abort flag is clear.
    [do_transition] sets the status to Busy and clears the flag before it
    calls [_do_transition], and looks at both when the call is over. *)
Definition on_course (g : Governor) : Prop :=
  status g = STATUS_BUSY /\ abort_transition g = false.

(** The names of the devices that each state has a target for. *)
Definition target_names (g : Governor) : dict (list string) :=
  map (fun '(s, st) => (s, Dict.keys (default [] (sc_targets st))))
    (states g).

(** What stays as it was while the governor is on course. *)
Definition kept (g g' : Governor) : Prop :=
  status g' = status g /\ abort_transition g' = abort_transition g /\
  current_state g' = current_state g /\ init_state g' = init_state g /\
  transitions g' = transitions g /\ target_names g' = target_names g /\
  Dict.keys (devices g') = Dict.keys (devices g).

Definition same_targets (g g' : Governor) : Prop :=
  forall x, target_of g' x = target_of g x.

Lemma kept_refl g : kept g g.
Proof. unfold kept. auto 10. Qed.

Lemma kept_trans g1 g2 g3 : kept g1 g2 -> kept g2 g3 -> kept g1 g3.
Proof. unfold kept. intuition congruence. Qed.

Lemma kept_on_course g g' : kept g g' -> on_course g' -> on_course g.
Proof. unfold kept, on_course. intuition congruence. Qed.

Lemma frame_kept g g' : frame g g' -> kept g g'.
Proof.
  unfold frame, kept, target_names, states. intuition congruence.
Qed.

Lemma same_targets_refl g : same_targets g g.
Proof. intros x. reflexivity. Qed.

Lemma same_targets_trans g1 g2 g3 :
  same_targets g1 g2 -> same_targets g2 g3 -> same_targets g1 g3.
Proof. intros H1 H2 x. now rewrite H2, H1. Qed.

(** *** What the other threads do to a governor that stays on course *)

Lemma get_target_names s g :
  Dict.get s (target_names g)
  = option_map (fun st => Dict.keys (default [] (sc_targets st)))
      (Dict.get s (states g)).
Proof.
  unfold target_names. induction (states g) as [|[k st] r IH]; simpl.
  - reflexivity.
  - destruct (String.eqb s k); [reflexivity|exact IH].
Qed.

(** The targets of a state are one [Target] object per name. *)
Lemma run_targets_names s g :
  targets s g =
  (match Dict.get s (target_names g) with
   | Some names =>
       Ok (map (fun d => (d, {| t_state := s; t_device := d |})) names)
   | None => Raise (KeyError s)
   end, g).
Proof.
  rewrite run_targets, get_target_names.
  destruct (Dict.get s (states g)) as [st|]; simpl; [|reflexivity].
  unfold Dict.keys. rewrite map_map. do 2 f_equal.
  apply map_ext. now intros [d t].
Qed.

Lemma map_set_same {V W} (f : string * V -> W) k (v v' : V) d :
  Dict.get k d = Some v -> f (k, v') = f (k, v) ->
  map f (Dict.set k v' d) = map f d.
Proof.
  intros Hget Hf. induction d as [|[k0 v0] r IH]; simpl in *.
  - discriminate.
  - destruct (String.eqb_spec k k0) as [->|Hne]; simpl.
    + injection Hget as ->. now rewrite Hf.
    + now rewrite IH.
Qed.

Lemma target_names_set_limits s dev l g :
  target_names (with_config (cfg_set_limits s dev l (config g)) g)
  = target_names g.
Proof.
  unfold target_names, states. simpl. unfold cfg_set_limits.
  destruct (rc_states (config g)) as [sts|] eqn:Es; [|now rewrite Es].
  destruct (Dict.get s sts) as [st|] eqn:Est; [|now rewrite Es].
  destruct (sc_targets st) as [tgs|] eqn:Etg; [|now rewrite Es].
  destruct (Dict.get dev tgs) as [tc|] eqn:Etc; [|now rewrite Es].
  simpl. eapply map_set_same; [exact Est|]. simpl. rewrite Etg. simpl.
  f_equal. eapply DictFacts.keys_set_present. exact Etc.
Qed.

(** What a call of the driver and the check of a band leave as it was. *)
Definition untouched (g g' : Governor) : Prop :=
  status g' = status g /\ abort_transition g' = abort_transition g /\
  current_state g' = current_state g /\ init_state g' = init_state g /\
  transitions g' = transitions g /\ devices g' = devices g.

Lemma untouched_kept g g' :
  untouched g g' -> target_names g' = target_names g ->
  kept g g' /\ same_targets g g'.
Proof.
  intros (? & ? & ? & ? & ? & Hd) Hn. split.
  - unfold kept. rewrite Hd. auto 10.
  - intros x. unfold target_of. now rewrite Hd.
Qed.

Ltac untouched_tac :=
  pres_tac ltac:(idtac; intros ? ?; unfold untouched in *; simpl;
                 assumption).

Lemma untouched_refl g : untouched g g.
Proof. unfold untouched. auto 10. Qed.

Lemma kept_with_queue q g :
  kept g (with_queue q g) /\ same_targets g (with_queue q g).
Proof. split; [unfold kept; simpl; auto 10|intros x; reflexivity]. Qed.

(** A report of the hardware changes what the device reports, not its
    target. *)
Lemma touch_device dev d d' g :
  Dict.get dev (devices g) = Some d -> d_target d' = d_target d ->
  kept g (with_devices (Dict.set dev d' (devices g)) g) /\
  same_targets g (with_devices (Dict.set dev d' (devices g)) g).
Proof.
  intros Hd Ht. split.
  - unfold kept. simpl. repeat split.
    eapply DictFacts.keys_set_present. exact Hd.
  - intros x. rewrite target_of_set.
    destruct (String.eqb_spec x dev) as [->|Hne]; [|reflexivity].
    unfold target_of. now rewrite Hd, Ht.
Qed.

Lemma value_changed_kept dev value g :
  kept g (snd (_value_changed dev value g)) /\
  same_targets g (snd (_value_changed dev value g)).
Proof.
  destruct (_value_changed dev value g) as [r g'] eqn:E.
  apply value_changed_effect in E. destruct E as [q ->].
  apply kept_with_queue.
Qed.

Lemma both_trans g1 g2 g3 :
  kept g1 g2 /\ same_targets g1 g2 -> kept g2 g3 /\ same_targets g2 g3 ->
  kept g1 g3 /\ same_targets g1 g3.
Proof.
  intros [Hk1 Ht1] [Hk2 Ht2].
  split; [eapply kept_trans|eapply same_targets_trans]; eauto.
Qed.

(** A busy governor cannot be enabled or disabled. *)
Lemma set_enabled_busy en g :
  status (snd (set_enabled en g)) = STATUS_BUSY -> snd (set_enabled en g) = g.
Proof.
  unfold set_enabled. rewrite (run_gets enabled).
  destruct (Bool.eqb (enabled g) en); [reflexivity|].
  rewrite (run_gets busy). destruct (busy g); [reflexivity|].
  rewrite run_modify. intros H. exfalso.
  set (s := if en then STATUS_IDLE else STATUS_DISABLED) in *.
  assert (Hp : preserves (fun g1 => status g1 = s)
                 (init ← gets init_state;
                  set_state init false;; _notify_observer;; mret true)).
  { pose proof (status_set_state s). pose proof (status_notify s).
    pres_tac ltac:(fail). }
  specialize (Hp (with_status s g) eq_refl). cbv beta in Hp.
  rewrite Hp in H. unfold s in H. destruct en; discriminate.
Qed.

(** Without a faulty device and out of the Fault status, the check of the
    fault state only refreshes the lists of faulty devices. *)
Lemma check_fault_state_clear g :
  let dl := names_where (fun d => negb (connected d)) (devices g) in
  let nl := names_where (fun d => negb (homed d)) (devices g) in
  enabled g = true -> is_nonempty dl || is_nonempty nl = false ->
  fault g = false ->
  check_fault_state g
  = (Ok tt,
     with_not_homed_devices nl
       (with_alarmed_devices [] (with_disconnected_devices dl g))).
Proof.
  intros dl nl Hen Hbad Hf. unfold check_fault_state.
  rewrite (run_gets devices), !run_modify, (run_gets enabled).
  rewrite no_alarmed.
  change (map fst (List.filter (fun '(_, d) => negb (connected d))
                     (devices g))) with dl.
  change (map fst (List.filter (fun '(_, d) => negb (homed d))
                     (devices g))) with nl.
  set (g1 := with_not_homed_devices nl
               (with_alarmed_devices []
                  (with_disconnected_devices dl g))).
  change (enabled g1) with (enabled g). rewrite Hen. cbv iota.
  rewrite !run_gets.
  change (disconnected_devices g1) with dl.
  change (alarmed_devices g1) with (@nil string).
  change (not_homed_devices g1) with nl.
  cbn [is_nonempty orb]. rewrite orb_false_r, Hbad. cbv iota.
  rewrite run_gets. change (fault g1) with (fault g). rewrite Hf.
  reflexivity.
Qed.

(** An iteration of the supervisor thread leaves a governor on course
    only if it found no event and no faulty device. *)
Lemma worker_kept g :
  on_course (snd (_worker_iteration g)) ->
  kept g (snd (_worker_iteration g)) /\
  same_targets g (snd (_worker_iteration g)).
Proof.
  unfold _worker_iteration. rewrite (run_gets queue).
  destruct (queue g) as [|[event source] rest].
  - intros [Hs _]. pose proof (check_fault_state_run g) as Hr.
    cbv zeta in Hr. destruct Hr as (Hst & _). rewrite Hs in Hst.
    destruct (enabled g) eqn:Een.
    + destruct (is_nonempty _ || is_nonempty _) eqn:Ebad; [discriminate|].
      destruct (fault g) eqn:Ef; [discriminate|].
      rewrite check_fault_state_clear by assumption.
      split; [unfold kept; simpl; auto 10|intros x; reflexivity].
    + unfold enabled in Een. rewrite <- Hst in Een. discriminate.
  - intros [_ Ha]. exfalso.
    assert (Hp : forall k,
              preserves (aborting k)
                (init ← gets init_state;
                 set_state init true;;
                 (if Event_eqb event ABORT_EVENT
                  then ds ← gets devices;
                       for_each (Dict.keys ds) tt (fun dev _ => stop dev)
                  else mret tt);;
                 check_fault_state)).
    { intros k. aborting_tac. }
    set (g1 := with_abort_transition true (with_queue rest g)).
    specialize (Hp (moves_issued g1) g1 (conj eq_refl eq_refl)).
    destruct Hp as [Hp _].
    assert (E : is_abort_event event = true) by now destruct event.
    rewrite run_modify, E in Ha. cbv iota in Ha. rewrite run_modify in Ha.
    fold g1 in Ha. congruence.
Qed.

Lemma limit_kept s dev limit value g :
  kept g (snd (set_state_device_limit s dev limit value g)) /\
  same_targets g (snd (set_state_device_limit s dev limit value g)).
Proof.
  apply untouched_kept.
  - assert (Hp : preserves (untouched g)
                   (set_state_device_limit s dev limit value)).
    { unfold set_state_device_limit, set_limits. untouched_tac. }
    apply Hp, untouched_refl.
  - pose proof (AcceptedFacts.set_state_device_limit_config
                  s dev limit value g) as H.
    cbv zeta in H. unfold target_names, states.
    destruct H as [->|(lower & upper & _ & ->)]; [reflexivity|].
    apply (target_names_set_limits s dev [lower; upper] g).
Qed.

Lemma position_kept dev position value g :
  kept g (snd (set_device_position dev position value g)) /\
  same_targets g (snd (set_device_position dev position value g)).
Proof.
  apply untouched_kept.
  - assert (Hp : preserves (untouched g)
                   (set_device_position dev position value)).
    { unfold set_device_position. untouched_tac. }
    apply Hp, untouched_refl.
  - assert (Hp : preserves (fun g1 => states g1 = states g)
                   (set_device_position dev position value)).
    { unfold set_device_position.
      pres_tac ltac:(idtac; intros ? ?; unfold states in *; simpl;
                     rewrite ?rc_states_cfg_set_position; assumption). }
    unfold target_names. now rewrite (Hp g eq_refl).
Qed.

(** One action of the other threads: if the governor is on course after
    it, it was on course before, and its state, its devices and their
    targets are as they were. *)
Lemma env_step_kept a g :
  on_course (env_step a g) ->
  kept g (env_step a g) /\ same_targets g (env_step a g).
Proof.
  destruct a as [dev conn|dev msta|dev v|dev v|dev b|event dev| |en
                |s dev limit value|dev position value];
    unfold env_step; intros Hon.
  - destruct (Dict.get dev (devices g)) as [d|] eqn:Ed;
      [|split; [apply kept_refl|apply same_targets_refl]].
    pose proof (touch_device dev d (with_d_connected conn d) g Ed eq_refl)
      as H1.
    destruct (d_class d);
      [split; [apply kept_refl|apply same_targets_refl]|..];
      cbv zeta; destruct conn; cbn [negb]; try exact H1;
      (eapply both_trans; [exact H1|apply kept_with_queue]).
  - destruct (Dict.get dev (devices g)) as [d|] eqn:Ed;
      [|split; [apply kept_refl|apply same_targets_refl]].
    destruct (d_class d);
      try (split; [apply kept_refl|apply same_targets_refl]).
    eapply touch_device; [exact Ed|reflexivity].
  - destruct (Dict.get dev (devices g)) as [d|] eqn:Ed;
      [|split; [apply kept_refl|apply same_targets_refl]].
    cbv zeta. destruct (d_class d);
      [split; [apply kept_refl|apply same_targets_refl]
      |eapply touch_device; [exact Ed|reflexivity]|].
    eapply both_trans;
      [exact (touch_device dev d (with_d_value v d) g Ed eq_refl)|].
    apply value_changed_kept.
  - destruct (Dict.get dev (devices g)) as [d|] eqn:Ed;
      [|split; [apply kept_refl|apply same_targets_refl]].
    destruct (d_class d);
      try (split; [apply kept_refl|apply same_targets_refl]).
    eapply both_trans;
      [exact (touch_device dev d (with_d_rbv v d) g Ed eq_refl)|].
    apply value_changed_kept.
  - destruct (Dict.get dev (devices g)) as [d|] eqn:Ed;
      [|split; [apply kept_refl|apply same_targets_refl]].
    destruct (d_class d);
      try (split; [apply kept_refl|apply same_targets_refl]).
    eapply touch_device; [exact Ed|reflexivity].
  - apply kept_with_queue.
  - apply worker_kept. exact Hon.
  - rewrite set_enabled_busy by apply Hon.
    split; [apply kept_refl|apply same_targets_refl].
  - apply limit_kept.
  - apply position_kept.
Qed.

Lemma run_env_kept batch g :
  on_course (run_env batch g) ->
  kept g (run_env batch g) /\ same_targets g (run_env batch g).
Proof.
  unfold run_env. revert g.
  induction batch as [|a r IH]; intros g Hon; simpl in *.
  - split; [apply kept_refl|apply same_targets_refl].
  - pose proof (IH _ Hon) as Hr.
    eapply both_trans; [|exact Hr].
    apply env_step_kept. eapply kept_on_course; [apply Hr|exact Hon].
Qed.

(** The same at a point where the transition thread gives way. *)
Lemma yield_kept g u g' :
  yield g = (Ok u, g') -> on_course g' ->
  kept g g' /\ same_targets g g'.
Proof.
  unfold yield. destruct (sched g) as [|batch rest].
  - intros [= _ <-] _. split; [apply kept_refl|apply same_targets_refl].
  - intros [= _ <-] Hon.
    eapply both_trans; [|apply run_env_kept; exact Hon].
    split; [unfold kept; simpl; auto 10|intros x; reflexivity].
Qed.

(** *** The steps of the transition thread *)

Lemma wait_kept dev g b g' :
  wait dev g = (Ok b, g') -> on_course g' ->
  kept g g' /\ same_targets g g'.
Proof.
  unfold wait. intros H Hon.
  inv_bind H as u g1 H1. unfold record_call, modify in H1.
  injection H1 as _ <-.
  set (g0 := with_calls (app (calls g) [CallWait dev]) g) in *.
  assert (H0 : kept g g0 /\ same_targets g g0).
  { split; [unfold kept; simpl; auto 10|intros x; reflexivity]. }
  assert (Hq : forall q g2, kept g2 (with_queue q g2) /\
                            same_targets g2 (with_queue q g2))
    by (intros; apply kept_with_queue).
  inv_pure H as d Hd. destruct (d_class d).
  - injection H as _ <-. exact H0.
  - inv_bind H as u1 g2 H2. inv_pure H as d2 Hd2.
    destruct (done d2).
    + injection H as _ <-. eapply both_trans; [exact H0|].
      eapply yield_kept; eauto.
    + inv_pure H as tmo Htmo. injection H as _ <-.
      eapply both_trans; [exact H0|].
      eapply both_trans; [|apply Hq].
      eapply yield_kept; [exact H2|]. exact Hon.
  - inv_pure H as tmo Htmo. inv_bind H as u1 g2 H2. inv_pure H as d2 Hd2.
    destruct (done d2).
    + injection H as _ <-. eapply both_trans; [exact H0|].
      eapply yield_kept; eauto.
    + injection H as _ <-.
      eapply both_trans; [exact H0|].
      eapply both_trans; [|apply Hq].
      eapply yield_kept; [exact H2|]. exact Hon.
Qed.

Lemma move_devices_kept devs moved g moved' g' :
  move_devices devs moved g = (Ok moved', g') -> on_course g' ->
  kept g g' /\
  (forall x, x ∈ moved' <-> x ∈ moved \/ In x (map fst devs)) /\
  (forall x, ~ In x (map fst devs) -> target_of g' x = target_of g x).
Proof.
  unfold move_devices. revert moved g.
  induction devs as [|[dev t] r IH]; intros moved g H Hon.
  - injection H as <- <-. split; [apply kept_refl|].
    split; [simpl; tauto|auto].
  - simpl in H. inv_bind H as m1 g1 H1.
    apply IH in H; [|exact Hon]. destruct H as (Hk & Hm & Ho).
    assert (Hon1 : on_course g1) by (eapply kept_on_course; eauto).
    inv_bind H1 as u gy Hy. rewrite run_gets in H1.
    inv_bind H1 as u2 g2 H2. injection H1 as <- <-.
    assert (Hmv : frame gy g2 /\
                  forall x, x <> dev -> target_of g2 x = target_of gy x).
    { destruct (abort_transition gy); simpl in H2.
      - injection H2 as _ <-. split; [apply frame_refl|auto].
      - apply move_effect in H2. exact H2. }
    destruct Hmv as (Hf & Homv).
    assert (Hony : on_course gy).
    { eapply kept_on_course; [apply frame_kept; exact Hf|exact Hon1]. }
    apply yield_kept in Hy; [|exact Hony]. destruct Hy as (Hky & Hty).
    split.
    { eapply kept_trans; [exact Hky|].
      eapply kept_trans; [apply frame_kept; exact Hf|exact Hk]. }
    split.
    + intros x. rewrite Hm, elem_of_union, elem_of_singleton. simpl.
      intuition congruence.
    + intros x Hx. simpl in Hx.
      rewrite Ho, Homv, Hty; intuition congruence.
Qed.

Lemma wait_devices_kept (T : string -> Target) devs g u g' :
  (forall dev t, In (dev, t) devs -> t = T dev) ->
  wait_devices devs g = (Ok u, g') -> on_course g' ->
  kept g g' /\
  (forall x, In x (map fst devs) -> target_of g' x = Some (Some (T x))) /\
  (forall x, ~ In x (map fst devs) -> target_of g' x = target_of g x).
Proof.
  unfold wait_devices. revert u g.
  induction devs as [|[dev t] r IH]; intros u g HT H Hon.
  - injection H as _ <-. split; [apply kept_refl|].
    split; [simpl; tauto|auto].
  - simpl in H. inv_bind H as u1 g1 H1. destruct u1.
    apply IH in H; [|intros; apply HT; now right|exact Hon].
    destruct H as (Hk & Hin & Ho).
    assert (Hon1 : on_course g1) by (eapply kept_on_course; eauto).
    inv_bind H1 as uy gy1 Hy1. rewrite run_gets in H1.
    inv_bind H1 as uw gw Hw. inv_bind H1 as uy2 gy2 Hy2.
    rewrite run_gets in H1.
    destruct (abort_transition gy2) eqn:Ea2; simpl in H1.
    { injection H1 as <-. destruct Hon1 as [_ Ha]. congruence. }
    apply set_target_effect in H1. destruct H1 as (Hf1 & Ht1 & Ho1).
    rewrite (HT dev t) in Ht1 by now left.
    assert (Hon2 : on_course gy2).
    { eapply kept_on_course; [apply frame_kept; exact Hf1|exact Hon1]. }
    apply yield_kept in Hy2; [|exact Hon2]. destruct Hy2 as (Hk2 & Hs2).
    assert (Honw : on_course gw) by (eapply kept_on_course; eauto).
    assert (Hwt : kept gy1 gw /\ same_targets gy1 gw).
    { destruct (abort_transition gy1); simpl in Hw.
      - injection Hw as _ <-.
        split; [apply kept_refl|apply same_targets_refl].
      - inv_bind Hw as b g3 H3. injection Hw as _ <-.
        eapply wait_kept; eauto. }
    destruct Hwt as (Hkw & Hsw).
    assert (Hony : on_course gy1) by (eapply kept_on_course; eauto).
    apply yield_kept in Hy1; [|exact Hony]. destruct Hy1 as (Hk1 & Hs1).
    split.
    { eapply kept_trans; [exact Hk1|].
      eapply kept_trans; [exact Hkw|].
      eapply kept_trans; [exact Hk2|].
      eapply kept_trans; [apply frame_kept; exact Hf1|exact Hk]. }
    split.
    + intros x Hx. simpl in Hx.
      destruct (in_dec string_dec x (map fst r)) as [Hr|Hr];
        [now apply Hin|].
      destruct Hx as [<-|Hx]; [|contradiction].
      rewrite Ho by exact Hr. exact Ht1.
    + intros x Hx. simpl in Hx.
      rewrite Ho, Ho1, Hs2, Hsw, Hs1; intuition congruence.
Qed.

Lemma on_course_fault g : on_course g -> fault g = false.
Proof. intros [Hs _]. unfold fault. now rewrite Hs. Qed.

Lemma run_sequence_kept (T : string -> Target) tgs seq moved g ret moved'
    g' :
  (forall dev t, Dict.get dev tgs = Some t -> t = T dev) ->
  run_sequence tgs seq moved g = (Ok (ret, moved'), g') -> on_course g' ->
  ret = false /\ kept g g' /\
  (forall x, x ∈ moved' <-> x ∈ moved \/ In x (sequence_names seq)) /\
  (forall x, In x (sequence_names seq) ->
             target_of g' x = Some (Some (T x)) /\
             Dict.get x tgs = Some (T x)) /\
  (forall x, ~ In x (sequence_names seq) ->
             target_of g' x = target_of g x).
Proof.
  intros HT. revert moved g.
  induction seq as [|it rest IH]; intros moved g H Hon.
  - injection H as <- <- <-. split; [reflexivity|].
    split; [apply kept_refl|]. simpl. split; [tauto|]. split; tauto.
  - simpl in H. rewrite run_gets in H.
    destruct (fault g) eqn:Ef.
    { injection H as _ _ <-. apply on_course_fault in Hon. congruence. }
    inv_bind H as devs g1 H1. apply step_devices_effect in H1.
    destruct H1 as (-> & Hn & Hg).
    inv_bind H as m1 g1 H1. inv_bind H as u g2 H2.
    inv_bind H as uy g3 Hy.
    apply IH in H; [|exact Hon].
    destruct H as (-> & Hk3 & Hm3 & Hi3 & Ho3).
    assert (Hon3 : on_course g3) by (eapply kept_on_course; eauto).
    apply yield_kept in Hy; [|exact Hon3]. destruct Hy as (Hky & Hsy).
    assert (Hon2 : on_course g2) by (eapply kept_on_course; eauto).
    apply (wait_devices_kept T) in H2;
      [|intros; apply HT, Hg; auto|exact Hon2].
    destruct H2 as (Hk2 & Hi2 & Ho2).
    assert (Hon1 : on_course g1) by (eapply kept_on_course; eauto).
    apply move_devices_kept in H1; [|exact Hon1].
    destruct H1 as (Hk1 & Hm1 & Ho1).
    assert (Hkey : forall x, In x (map fst devs) ->
                             Dict.get x tgs = Some (T x)).
    { intros x Hx. apply in_map_iff in Hx.
      destruct Hx as [[x' t] [E Hin]]. simpl in E. subst x'.
      pose proof (Hg x t Hin) as Hget.
      rewrite Hget. f_equal. now apply HT. }
    rewrite Hn in *.
    split; [reflexivity|]. split.
    { eapply kept_trans; [exact Hk1|].
      eapply kept_trans; [exact Hk2|].
      eapply kept_trans; [exact Hky|exact Hk3]. }
    unfold sequence_names. simpl. fold (sequence_names rest).
    split; [|split].
    + intros x. rewrite Hm3, Hm1, in_app_iff. tauto.
    + intros x Hx. apply in_app_iff in Hx.
      destruct (in_dec string_dec x (sequence_names rest)) as [Hr|Hr];
        [now apply Hi3|].
      destruct Hx as [Hx|Hx]; [|contradiction].
      rewrite Ho3, Hsy by exact Hr. split; [now apply Hi2|now apply Hkey].
    + intros x Hx. rewrite in_app_iff in Hx.
      rewrite Ho3, Hsy, Ho2, Ho1; tauto.
Qed.

Lemma flags_set_state s a st force :
  preserves (fun g => status g = s /\ abort_transition g = a)
    (set_state st force).
Proof. unfold set_state, _notify_observer, set_target. field_tac. Qed.

Lemma update_after_kept g0 (origin_targets : dict Target) :
  preserves (fun g => kept g0 g /\ same_targets g0 g)
    (for_each origin_targets tt (fun '(dev, target) _ =>
       update_after ← get_update_after target;
       if (update_after : bool)
       then tn ← get_target target;
            v ← val dev;
            _ ← set_device_position dev tn v;
            mret tt
       else mret tt)).
Proof.
  assert (Hp : forall dev tn v,
            preserves (fun g => kept g0 g /\ same_targets g0 g)
              (set_device_position dev tn v)).
  { intros dev tn v g Hg. eapply both_trans; [exact Hg|].
    apply position_kept. }
  pres_tac ltac:(fail).
Qed.




End CompletionFacts.
